(** * Backward, chunked tail engine of the log monitoring service

    A shallow embedding of [read_last_n_lines_efficient] and
    [read_last_n_lines_streaming] from [src/app.py], together with the
    properties of the two readers; of the endpoints [get_logs] and
    [stream_logs] built on them; and of the registry, the aggregation and
    the search of the primary server, [src/primary_server.py], whose
    secondary servers are reached through the interface [Primary.Network].

    Bytes objects are lists of [byte], Python [str] values are lists of
    Unicode code points, Python integers are [Z].  The module constants
    [CHUNK_SIZE] and [MAX_FILE_SIZE] are the fields of [config].  A call
    gives how it completes (a value or an exception) together with the log
    of the reads it issued on the file.

    The three text operations of the Python runtime the readers call
    ([bytes.decode] with [errors='ignore'], [str.strip] and [str.lower])
    form the interface [Runtime]: the general theorems hold for every
    implementation of it, and [basic_latin_runtime] runs the readers on
    explicit files. *)

From Stdlib Require Import Strings.String Strings.Byte.
From Stdlib Require Import List ZArith NArith Bool Lia Sorted Permutation.
Import ListNotations.
Local Open Scope Z_scope.

(* ===================================================================== *)
(** ** Python values *)

Definition bytes := list byte.

(** A Python [str]: the sequence of its code points. *)
Definition str := list N.

Definition LF : byte := x0a.

Definition is_LF (b : byte) : bool := Byte.eqb b LF.

(** [len(l)] *)
Definition len {A : Type} (l : list A) : Z := Z.of_nat (length l).

(** Truth value of a sequence: [if line:], [if buffer:]. *)
Definition truthy {A : Type} (l : list A) : bool :=
  match l with [] => false | _ :: _ => true end.

(** Index normalisation of a slice bound against a sequence of length [n]:
    a negative bound counts from the end, and bounds are clipped. *)
Definition slice_index (i n : Z) : Z :=
  if i <? 0 then Z.max (i + n) 0 else Z.min i n.

(** [l[i:]] *)
Definition slice_from {A : Type} (i : Z) (l : list A) : list A :=
  skipn (Z.to_nat (slice_index i (len l))) l.

(** [l[:i]] *)
Definition slice_to {A : Type} (i : Z) (l : list A) : list A :=
  firstn (Z.to_nat (slice_index i (len l))) l.

(** [b'\n' in buffer] *)
Definition has_LF (buffer : bytes) : bool := existsb is_LF buffer.

(** [buffer.rfind(b'\n')]: index of the last delimiter, [-1] without one. *)
Fixpoint rfind_LF (buffer : bytes) : Z :=
  match buffer with
  | [] => -1
  | c :: t =>
      let r := rfind_LF t in
      if r =? -1 then (if is_LF c then 0 else -1) else r + 1
  end.

(** [chunk.split(b'\n')]: never empty, one more piece than delimiters. *)
Fixpoint split_LF (chunk : bytes) : list bytes :=
  match chunk with
  | [] => [[]]
  | c :: t =>
      if is_LF c then [] :: split_LF t
      else match split_LF t with
           | h :: r => (c :: h) :: r
           | [] => [[c]]
           end
  end.

(** [needle in hay] on [str]. *)
Fixpoint str_startswith (hay needle : str) : bool :=
  match needle, hay with
  | [], _ => true
  | _ :: _, [] => false
  | a :: needle', b :: hay' => N.eqb a b && str_startswith hay' needle'
  end.

Fixpoint str_contains (needle hay : str) : bool :=
  str_startswith hay needle ||
  match hay with
  | [] => false
  | _ :: hay' => str_contains needle hay'
  end.

(** The text operations of the runtime used by both readers. *)
Class Runtime : Type := {
  (** [b.decode('utf-8', errors='ignore')] *)
  bytes_decode : bytes -> str;
  (** [s.strip()] *)
  str_strip : str -> str;
  (** [s.lower()] *)
  str_lower : str -> str
}.

(* ===================================================================== *)
(** ** Files, errors and input/output events *)

(** What a path names: nothing, a directory, a regular file that reads as
    [content], or a regular file that the process may not open.  The last
    three exist for [Path.exists]; [open] succeeds on the third only.
    [st_size] is what [stat] reports. *)
Inductive path_target : Type :=
| Missing
| Directory (st_size : Z)
| Regular (content : bytes)
| Unreadable (st_size : Z).

(** [filepath.exists()] *)
Definition path_exists (filepath : path_target) : bool :=
  match filepath with Missing => false | _ => true end.

(** [filepath.stat().st_size] of an existing target. *)
Definition stat_size (filepath : path_target) : Z :=
  match filepath with
  | Missing => 0
  | Directory sz => sz
  | Regular content => len content
  | Unreadable sz => sz
  end.

Inductive exn : Type :=
| FileNotFoundError
| ValueError            (* "File too large" *)
| IsADirectoryError     (* raised by [open] on a directory *)
| PermissionError.      (* raised by [open] on a file that may not be read *)

Inductive completion (A : Type) : Type :=
| Return (a : A)
| Raise (e : exn).
Arguments Return {A} a.
Arguments Raise {A} e.

(** Reads issued on the opened file. *)
Inductive io_event : Type :=
| ReadLines                       (* [f.readlines()] on the text handle *)
| ReadAt (position size : Z).     (* [seek(position)]; [read(size)] *)

(** [open(filepath, ...)]: the content to read, or the [OSError] that
    [open] raises. *)
Definition open_file (filepath : path_target) : completion bytes :=
  match filepath with
  | Regular content => Return content
  | Directory _ => Raise IsADirectoryError
  | Unreadable _ => Raise PermissionError
  | Missing => Raise FileNotFoundError
  end.

(** [seek(position)] followed by [read(size)], for a position inside the
    file and a size that is not negative. *)
Definition read_at (data : bytes) (position size : Z) : bytes :=
  firstn (Z.to_nat size) (skipn (Z.to_nat position) data).

(** Universal newlines of a text-mode handle: [\r\n] and [\r] become [\n]. *)
Fixpoint universal_newlines (s : str) : str :=
  match s with
  | [] => []
  | c :: t =>
      if N.eqb c 13 then
        match t with
        | d :: t' => if N.eqb d 10 then 10%N :: universal_newlines t'
                     else 10%N :: universal_newlines t
        | [] => [10%N]
        end
      else c :: universal_newlines t
  end.

(** Lines of a text, each keeping its terminating [\n]. *)
Fixpoint keepends (s : str) : list str :=
  match s with
  | [] => []
  | c :: t =>
      if N.eqb c 10 then [c] :: keepends t
      else match keepends t with
           | h :: r => (c :: h) :: r
           | [] => [[c]]
           end
  end.

(** [open(filepath, 'r', encoding='utf-8', errors='ignore').readlines()] *)
Definition readlines `{Runtime} (data : bytes) : list str :=
  keepends (universal_newlines (bytes_decode data)).

(* ===================================================================== *)
(** ** The keyword test *)

(** [keyword is None or keyword.lower() in decoded.lower()] *)
Definition keyword_passes `{Runtime} (keyword : option str) (decoded : str) : bool :=
  match keyword with
  | None => true
  | Some k => str_contains (str_lower k) (str_lower decoded)
  end.

(** Truth value of the optional keyword: [if keyword:]. *)
Definition keyword_truthy (keyword : option str) : bool :=
  match keyword with
  | None => false
  | Some k => truthy k
  end.

(* ===================================================================== *)
(** ** Configuration *)

Record config : Type := {
  CHUNK_SIZE : Z;
  MAX_FILE_SIZE : Z
}.

Definition default_config : config :=
  {| CHUNK_SIZE := 8192; MAX_FILE_SIZE := 4 * 1024 * 1024 * 1024 |}.

(* ===================================================================== *)
(** ** The eager reader: [read_last_n_lines_efficient] *)

(** State of the inner loop when it is left: either the function has
    returned from inside it, or the scan goes on with the carry buffer. *)
Inductive find_result : Type :=
| Returned (lines : list str)
| Carry (buffer : bytes) (lines : list str) (lines_found : Z).

(** [while b'\n' in buffer: ...] (lines 103-119).  Every iteration shortens
    the buffer, so [S (length buffer)] iterations are enough; [None] is a
    loop that was not finished within [fuel] iterations.  Decoding with
    [errors='ignore'] raises nothing, so the [except] branch is not taken. *)
Fixpoint find_lines `{Runtime} (fuel : nat) (n : Z) (keyword : option str)
    (buffer : bytes) (lines : list str) (lines_found : Z) : option find_result :=
  match fuel with
  | O => None
  | S fuel' =>
      if has_LF buffer then
        let line_end := rfind_LF buffer in
        if negb (line_end =? -1) then
          let line := slice_from (line_end + 1) buffer in
          let buffer := slice_to line_end buffer in
          if truthy line then
            let decoded_line := str_strip (bytes_decode line) in
            if truthy decoded_line then
              if keyword_passes keyword decoded_line then
                let lines := lines ++ [decoded_line] in
                let lines_found := lines_found + 1 in
                if lines_found >=? n then Some (Returned lines)
                else find_lines fuel' n keyword buffer lines lines_found
              else find_lines fuel' n keyword buffer lines lines_found
            else find_lines fuel' n keyword buffer lines lines_found
          else find_lines fuel' n keyword buffer lines lines_found
        else find_lines fuel' n keyword buffer lines lines_found
      else Some (Carry buffer lines lines_found)
  end.

(** "Handle remaining buffer" (lines 122-129). *)
Definition handle_remaining `{Runtime} (n : Z) (keyword : option str)
    (buffer : bytes) (lines : list str) (lines_found : Z) : list str :=
  if truthy buffer && (lines_found <? n) then
    let decoded_line := str_strip (bytes_decode buffer) in
    if truthy decoded_line then
      if keyword_passes keyword decoded_line then lines ++ [decoded_line]
      else lines
    else lines
  else lines.

(** The backward scan over the memory-mapped file (lines 86-131): the outer
    [while position > 0 and lines_found < n * 2], then the remaining buffer
    and [return lines[:n]].  The reads are logged in [io]. *)
Fixpoint scan_efficient `{Runtime} (cfg : config) (fuel : nat) (data : bytes)
    (n : Z) (keyword : option str)
    (position : Z) (buffer : bytes) (lines : list str) (lines_found : Z)
    (io : list io_event) : option (list str * list io_event) :=
  if (position >? 0) && (lines_found <? n * 2) then
    match fuel with
    | O => None
    | S fuel' =>
        let chunk_size := Z.min (CHUNK_SIZE cfg) position in
        let position := position - chunk_size in
        let chunk := read_at data position chunk_size in
        let io := io ++ [ReadAt position chunk_size] in
        let buffer := chunk ++ buffer in
        match find_lines (S (length buffer)) n keyword buffer lines lines_found with
        | None => None
        | Some (Returned lines) => Some (lines, io)
        | Some (Carry buffer lines lines_found) =>
            scan_efficient cfg fuel' data n keyword position buffer lines lines_found io
        end
    end
  else
    Some (slice_to n (handle_remaining n keyword buffer lines lines_found), io).

(** The small-file branch (lines 76-80). *)
Definition read_small `{Runtime} (data : bytes) (n : Z) (keyword : option str)
    : list str :=
  let all_lines := readlines data in
  let all_lines :=
    if keyword_truthy keyword then
      filter (fun line => keyword_passes keyword line) all_lines
    else all_lines in
  rev (slice_from (- n) all_lines).

(** [read_last_n_lines_efficient(filepath, n, keyword)]: how the call
    completes and the reads it issued.  [None] stands for a scan that does
    not finish; with a positive [CHUNK_SIZE], as configured, that does not
    happen ([readers_complete] below). *)
Definition read_last_n_lines_efficient `{Runtime} (cfg : config)
    (filepath : path_target) (n : Z) (keyword : option str)
    : option (completion (list str) * list io_event) :=
  if negb (path_exists filepath) then Some (Raise FileNotFoundError, [])
  else
    let file_size := stat_size filepath in
    if file_size =? 0 then Some (Return [], [])
    else if file_size >? MAX_FILE_SIZE cfg then Some (Raise ValueError, [])
    else if file_size <? CHUNK_SIZE cfg * 10 then
      match open_file filepath with
      | Raise e => Some (Raise e, [])
      | Return data => Some (Return (read_small data n keyword), [ReadLines])
      end
    else
      match open_file filepath with
      | Raise e => Some (Raise e, [])
      | Return data =>
          let position := file_size in
          match scan_efficient cfg (Z.to_nat file_size) data n keyword
                  position [] [] 0 [] with
          | None => None
          | Some (lines, io) => Some (Return lines, io)
          end
      end.

(* ===================================================================== *)
(** ** The streaming reader: [read_last_n_lines_streaming] *)

(** [lines[-1] += buffer.pop(0)] on a non-empty [lines]. *)
Definition append_to_last (lines : list bytes) (carry : bytes) : list bytes :=
  removelast lines ++ [last lines [] ++ carry].

(** [while len(buffer) > 1 and lines_yielded < n: line = buffer.pop(0) ...]
    (lines 171-180); [yielded] collects the values handed to the consumer. *)
Fixpoint drain_buffer `{Runtime} (n : Z) (keyword : option str)
    (buffer : list bytes) (yielded : list str) (lines_yielded : Z)
    : list bytes * list str * Z :=
  match buffer with
  | line :: rest =>
      if (len buffer >? 1) && (lines_yielded <? n) then
        if truthy line then
          let decoded := str_strip (bytes_decode line) in
          if truthy decoded && keyword_passes keyword decoded then
            drain_buffer n keyword rest (yielded ++ [decoded]) (lines_yielded + 1)
          else drain_buffer n keyword rest yielded lines_yielded
        else drain_buffer n keyword rest yielded lines_yielded
      else (buffer, yielded, lines_yielded)
  | [] => (buffer, yielded, lines_yielded)
  end.

(** The outer [while position > 0 and lines_yielded < n] (lines 156-180). *)
Fixpoint scan_streaming `{Runtime} (cfg : config) (fuel : nat) (data : bytes)
    (n : Z) (keyword : option str)
    (position : Z) (buffer : list bytes) (yielded : list str) (lines_yielded : Z)
    (io : list io_event) : option (list str * list io_event) :=
  if (position >? 0) && (lines_yielded <? n) then
    match fuel with
    | O => None
    | S fuel' =>
        let chunk_size := Z.min (CHUNK_SIZE cfg) position in
        let position := position - chunk_size in
        let chunk := read_at data position chunk_size in
        let io := io ++ [ReadAt position chunk_size] in
        let lines := split_LF chunk in
        let '(lines, buffer) :=
          if truthy buffer then (append_to_last lines (hd [] buffer), tl buffer)
          else (lines, buffer) in
        let buffer := rev lines ++ buffer in
        let '(buffer, yielded, lines_yielded) :=
          drain_buffer n keyword buffer yielded lines_yielded in
        scan_streaming cfg fuel' data n keyword position buffer yielded lines_yielded io
    end
  else Some (yielded, io).

(** [read_last_n_lines_streaming(filepath, n, keyword)] run to its end: the
    values yielded in order, how the generator finishes, and the reads. *)
Definition read_last_n_lines_streaming `{Runtime} (cfg : config)
    (filepath : path_target) (n : Z) (keyword : option str)
    : option (list str * completion unit * list io_event) :=
  if negb (path_exists filepath) then Some ([], Raise FileNotFoundError, [])
  else
    let file_size := stat_size filepath in
    if file_size =? 0 then Some ([], Return tt, [])
    else if file_size >? MAX_FILE_SIZE cfg then Some ([], Raise ValueError, [])
    else
      match open_file filepath with
      | Raise e => Some ([], Raise e, [])
      | Return data =>
          let position := len data in
          match scan_streaming cfg (Z.to_nat position) data n keyword
                  position [] [] 0 [] with
          | None => None
          | Some (yielded, io) => Some (yielded, Return tt, io)
          end
      end.

(* ===================================================================== *)
(** ** A concrete runtime, for running the readers on explicit files *)

Local Open Scope N_scope.

(** Continuation bytes [0x80..0xBF]. *)
Definition is_continuation (b : N) : bool := (0x80 <=? b) && (b <? 0xC0).

(** UTF-8 decoding of byte values with [errors='ignore']: an invalid start
    byte is dropped alone, an invalid continuation drops the bytes before
    the offending one, and a truncated sequence at the end is dropped. *)
Fixpoint utf8_ignore (s : list N) : str :=
  match s with
  | [] => []
  | ch :: t1 =>
      if ch <? 0x80 then ch :: utf8_ignore t1
      else if ch <? 0xC2 then utf8_ignore t1
      else if ch <? 0xE0 then
        match t1 with
        | [] => []
        | ch2 :: t2 =>
            if is_continuation ch2
            then (N.shiftl (N.land ch 0x1F) 6 + N.land ch2 0x3F) :: utf8_ignore t2
            else utf8_ignore t1
        end
      else if ch <? 0xF0 then
        match t1 with
        | [] => []
        | ch2 :: t2 =>
            if negb (is_continuation ch2)
               || ((ch =? 0xE0) && (ch2 <? 0xA0))
               || ((ch =? 0xED) && (0xA0 <=? ch2))
            then utf8_ignore t1
            else
              match t2 with
              | [] => []
              | ch3 :: t3 =>
                  if is_continuation ch3
                  then (N.shiftl (N.land ch 0x0F) 12
                        + N.shiftl (N.land ch2 0x3F) 6
                        + N.land ch3 0x3F) :: utf8_ignore t3
                  else utf8_ignore t2
              end
        end
      else if ch <? 0xF5 then
        match t1 with
        | [] => []
        | ch2 :: t2 =>
            if negb (is_continuation ch2)
               || ((ch =? 0xF0) && (ch2 <? 0x90))
               || ((ch =? 0xF4) && (0x90 <=? ch2))
            then utf8_ignore t1
            else
              match t2 with
              | [] => []
              | ch3 :: t3 =>
                  if negb (is_continuation ch3) then utf8_ignore t2
                  else
                    match t3 with
                    | [] => []
                    | ch4 :: t4 =>
                        if is_continuation ch4
                        then (N.shiftl (N.land ch 0x07) 18
                              + N.shiftl (N.land ch2 0x3F) 12
                              + N.shiftl (N.land ch3 0x3F) 6
                              + N.land ch4 0x3F) :: utf8_ignore t4
                        else utf8_ignore t3
                    end
              end
        end
      else utf8_ignore t1
  end.

Definition utf8_decode_ignore (b : bytes) : str := utf8_ignore (map Byte.to_N b).

(** The code points [str.strip] removes. *)
Definition is_space (c : N) : bool :=
  ((9 <=? c) && (c <=? 13)) || ((28 <=? c) && (c <=? 32))
  || (c =? 0x85) || (c =? 0xA0) || (c =? 0x1680)
  || ((0x2000 <=? c) && (c <=? 0x200A))
  || (c =? 0x2028) || (c =? 0x2029) || (c =? 0x202F)
  || (c =? 0x205F) || (c =? 0x3000).

Fixpoint lstrip (s : str) : str :=
  match s with
  | c :: t => if is_space c then lstrip t else s
  | [] => []
  end.

Definition strip (s : str) : str := rev (lstrip (rev (lstrip s))).

(** [str.lower] on Basic Latin; other code points are left as they are. *)
Definition lower_basic_latin (s : str) : str :=
  map (fun c => if (65 <=? c) && (c <=? 90) then c + 32 else c) s.

Local Close Scope N_scope.

Definition basic_latin_runtime : Runtime :=
  {| bytes_decode := utf8_decode_ignore;
     str_strip := strip;
     str_lower := lower_basic_latin |}.

(** ASCII literals for files and expected results. *)
Definition b (s : String.string) : bytes := String.list_byte_of_string s.
Arguments b s%_string.

Definition u (s : String.string) : str := map Byte.to_N (b s).
Arguments u s%_string.

(** [\n] as a code point. *)
Definition NL : N := 10%N.

(** The two readers on the concrete runtime, with the repository's
    configuration. *)
Definition tail (filepath : path_target) (n : Z) (keyword : option str) :=
  @read_last_n_lines_efficient basic_latin_runtime default_config filepath n keyword.

Definition tail_stream (filepath : path_target) (n : Z) (keyword : option str) :=
  @read_last_n_lines_streaming basic_latin_runtime default_config filepath n keyword.

(* ===================================================================== *)
(** ** Reference definitions, in the words of the specification *)

Fixpoint filter_map {A B : Type} (f : A -> option B) (l : list A) : list B :=
  match l with
  | [] => []
  | x :: t =>
      match f x with
      | Some y => y :: filter_map f t
      | None => filter_map f t
      end
  end.

(** The last [k] elements of a list. *)
Definition last_n {A : Type} (k : nat) (l : list A) : list A :=
  skipn (length l - k) l.

(** Line Normalizer and Keyword Matcher on one raw fragment: the trimmed
    text when the fragment is non-empty, normalizes non-empty and passes
    the keyword test. *)
Definition accept `{Runtime} (keyword : option str) (line : bytes) : option str :=
  if truthy line then
    let decoded := str_strip (bytes_decode line) in
    if truthy decoded && keyword_passes keyword decoded then Some decoded
    else None
  else None.

(** Substring containment, as the specification words it: [hay] is some
    text, then [needle], then some text. *)
Definition is_substring (needle hay : str) : Prop :=
  exists before after, hay = before ++ needle ++ after.

(** The Keyword Matcher of the specification: without a keyword every line
    passes; with one, the line contains it once both are lowered. *)
Definition keyword_matches `{Runtime} (keyword : option str) (line : str) : Prop :=
  match keyword with
  | None => True
  | Some k => is_substring (str_lower k) (str_lower line)
  end.

(** The non-empty trimmed matching lines of a file, oldest first. *)
Definition matching_lines `{Runtime} (keyword : option str) (data : bytes) : list str :=
  filter_map (accept keyword) (split_LF data).

(** The contract of [tail]: the reverse of the last [min(n, total)]
    non-empty trimmed matching lines. *)
Definition tail_spec `{Runtime} (n : Z) (keyword : option str) (data : bytes) : list str :=
  let all := matching_lines keyword data in
  rev (last_n (Nat.min (Z.to_nat n) (length all)) all).

(** The same contract over the lines that follow the first delimiter, that
    is, without the first physical line of the file. *)
Definition tail_spec_after_first `{Runtime} (n : Z) (keyword : option str)
    (data : bytes) : list str :=
  let all := filter_map (accept keyword) (tl (split_LF data)) in
  rev (last_n (Nat.min (Z.to_nat n) (length all)) all).

(** [b'\n'.join(pieces)] *)
Fixpoint join_LF (pieces : list bytes) : bytes :=
  match pieces with
  | [] => []
  | p :: rest =>
      match rest with
      | [] => p
      | _ :: _ => p ++ LF :: join_LF rest
      end
  end.

(** The physical line that starts at byte offset [off]. *)
Fixpoint until_LF (l : bytes) : bytes :=
  match l with
  | [] => []
  | c :: t => if is_LF c then [] else c :: until_LF t
  end.

Definition line_at (data : bytes) (off : nat) : bytes := until_LF (skipn off data).

(** Offsets at which a physical line starts: [0] and every offset that
    follows a delimiter. *)
Definition is_line_start (data : bytes) (off : nat) : Prop :=
  off = 0%nat \/ (exists k, off = S k /\ nth_error data k = Some LF).

(** Byte offsets of the starts of the physical lines after offset [base],
    in increasing order. *)
Fixpoint starts_after (base : nat) (l : bytes) : list nat :=
  match l with
  | [] => []
  | c :: t =>
      if is_LF c then S base :: starts_after (S base) t
      else starts_after (S base) t
  end.

Definition line_starts (data : bytes) : list nat := 0%nat :: starts_after 0 data.

(** [emitted_at data keyword offs lines]: the emitted lines are the accepted
    physical lines starting at the given offsets, one for one. *)
Definition emitted_at `{Runtime} (data : bytes) (keyword : option str)
    (offs : list nat) (lines : list str) : Prop :=
  Forall2 (fun off line =>
             is_line_start data off /\ accept keyword (line_at data off) = Some line)
          offs lines.

(** The cursor discipline of a backward scan that stands at [position]:
    every read has size [min(CHUNK_SIZE, position)], moves the cursor down
    by that size, and happens only while the cursor is above [0]. *)
Fixpoint cursor_chain (cfg : config) (position : Z) (io : list io_event) : Prop :=
  match io with
  | [] => True
  | ReadLines :: _ => False
  | ReadAt pos size :: rest =>
      0 < position /\ size = Z.min (CHUNK_SIZE cfg) position
      /\ pos = position - size /\ cursor_chain cfg pos rest
  end.

(** The byte range [[pos, pos + size)] of a read. *)
Definition read_range (e : io_event) : Z * Z :=
  match e with
  | ReadLines => (0, 0)
  | ReadAt pos size => (pos, pos + size)
  end.

(** A read stays inside the file and is not empty. *)
Definition read_in_file (file_size : Z) (e : io_event) : Prop :=
  0 <= fst (read_range e) /\ fst (read_range e) < snd (read_range e)
  /\ snd (read_range e) <= file_size.

(** A later read [e2] ends where, or before, an earlier read [e1] starts. *)
Definition read_below (e1 e2 : io_event) : Prop :=
  snd (read_range e2) <= fst (read_range e1).

(** The configuration in which the whole file is one chunk. *)
Definition one_piece (cfg : config) (data : bytes) : config :=
  {| CHUNK_SIZE := len data; MAX_FILE_SIZE := MAX_FILE_SIZE cfg |}.

Definition raises_not_found {A : Type} (r : option (completion A * list io_event)) : Prop :=
  exists io, r = Some (Raise FileNotFoundError, io).

Definition stream_raises_not_found
    (r : option (list str * completion unit * list io_event)) : Prop :=
  exists yielded io, r = Some (yielded, Raise FileNotFoundError, io).

Definition is_regular_file (filepath : path_target) : bool :=
  match filepath with Regular _ | Unreadable _ => true | _ => false end.

(** Offsets in strictly decreasing order. *)
Definition decreasing_offsets (offs : list nat) : Prop :=
  StronglySorted (fun earlier later => (later < earlier)%nat) offs.

(** What a scan over [data] owes: its reads follow the cursor discipline
    from [file_size] downward, each stays inside the file, no two overlap,
    and the lines it emitted are accepted physical lines of the file taken
    at strictly decreasing byte offsets. *)
Definition disciplined_scan `{Runtime} (cfg : config) (data : bytes)
    (keyword : option str) (lines : list str) (io : list io_event) : Prop :=
  cursor_chain cfg (len data) io
  /\ Forall (read_in_file (len data)) io
  /\ StronglySorted read_below io
  /\ exists offs, emitted_at data keyword offs lines /\ decreasing_offsets offs.

(* ===================================================================== *)
(** ** Files used in the examples *)

(** Joins lines, each followed by the delimiter. *)
Definition file_of_lines (lines : list bytes) : bytes :=
  flat_map (fun line => line ++ [LF]) lines.

(** Three lines, the second one blank: [b"a\n\nb\n"]. *)
Definition blank_line_file : bytes := file_of_lines [b "a"; []; b "b"].

(** Two lines: [b"a\nb\n"]. *)
Definition two_line_file : bytes := file_of_lines [b "a"; b "b"].

(** One line without a trailing delimiter: [b"hello"]. *)
Definition one_line_file : bytes := b "hello".

(** Thirty-two bytes, four lines, the last without a delimiter:
    [b"alpha one\nbeta\ngamma ERROR\ndelta"]. *)
Definition four_line_file : bytes :=
  file_of_lines [b "alpha one"; b "beta"; b "gamma ERROR"] ++ b "delta".

(** A two-byte chunk: files of twenty bytes and more take the general path
    of the eager reader, and every line spans several reads. *)
Definition small_chunks : config := {| CHUNK_SIZE := 2; MAX_FILE_SIZE := 1000 |}.

(** A two-byte chunk with a ten-byte size limit. *)
Definition tiny_limit : config := {| CHUNK_SIZE := 2; MAX_FILE_SIZE := 10 |}.

(* ===================================================================== *)
(** ** How far a scan has to read *)

(** The accepted lines that lie wholly at or after byte offset [position]
    and follow a delimiter found there: what a backward scan standing at
    [position] has already emitted if its budget allowed. *)
Definition accepted_after `{Runtime} (keyword : option str) (data : bytes)
    (position : Z) : list str :=
  filter_map (accept keyword) (tl (split_LF (skipn (Z.to_nat position) data))).

(** A read was needed: at the cursor position it was issued from, fewer
    than [n] accepted lines had been met. *)
Definition read_needed `{Runtime} (n : Z) (keyword : option str) (data : bytes)
    (e : io_event) : Prop :=
  match e with
  | ReadLines => False
  | ReadAt pos size => len (accepted_after keyword data (pos + size)) < n
  end.

(** A three-byte chunk, and a 35-byte file whose last three bytes hold a
    whole line: [b"alpha one\nbeta\ngamma ERROR\ndelta\nz\n"]. *)
Definition three_byte_chunks : config := {| CHUNK_SIZE := 3; MAX_FILE_SIZE := 1000 |}.

Definition short_last_line_file : bytes := four_line_file ++ [LF] ++ b "z" ++ [LF].

(* ===================================================================== *)
(** ** The HTTP surface of [src/app.py]: [get_logs] and [stream_logs] *)

(** The detail of an [HTTPException]: which text it is, with the values put
    in it. *)
Inductive http_detail : Type :=
| InvalidFilename                     (* "Invalid filename" *)
| LogFileNotFound (filename : str)    (* f"Log file not found: {filename}" *)
| PathIsNotAFile (filename : str)     (* f"Path is not a file: {filename}" *)
| ExceptionText (e : exn)             (* str(e) *)
| ErrorReadingLogFile (e : exn)       (* f"Error reading log file: {str(e)}" *)
| QueryOutOfRange (entries : Z).      (* the framework's answer to ge=1, le=10000 *)

Inductive http_result (A : Type) : Type :=
| Respond (body : A)
| HTTPException (status_code : Z) (detail : http_detail).
Arguments Respond {A} body.
Arguments HTTPException {A} status_code detail.

(** [class LogResponse(BaseModel)] *)
Record LogResponse : Type := {
  filename : str;
  total_lines : Z;
  returned_lines : Z;
  filtered : bool;
  entries : list str
}.

(** [".." in filename or filename.startswith("/")] *)
Definition filename_rejected (filename : str) : bool :=
  str_contains (u "..") filename || str_startswith filename (u "/").

(** [Query(100, ge=1, le=10000)]: the framework answers 422 outside the
    range, before the body of the endpoint runs. *)
Definition query_entries_ok (entries : Z) : bool :=
  (1 <=? entries) && (entries <=? 10000).

(** [keyword is not None] *)
Definition is_not_None {A : Type} (o : option A) : bool :=
  match o with Some _ => true | None => false end.

(** [get_logs(filename, entries, keyword)] (lines 198-243).  [fs filename] is
    what [BASE_LOG_DIR / filename] names.  [ValueError] is answered with
    413, every other exception with 500. *)
Definition get_logs `{Runtime} (cfg : config) (fs : str -> path_target)
    (filename : str) (entries : Z) (keyword : option str)
    : option (http_result LogResponse * list io_event) :=
  if negb (query_entries_ok entries) then
    Some (HTTPException 422 (QueryOutOfRange entries), [])
  else if filename_rejected filename then
    Some (HTTPException 400 InvalidFilename, [])
  else
    let log_path := fs filename in
    if negb (path_exists log_path) then
      Some (HTTPException 404 (LogFileNotFound filename), [])
    else if negb (is_regular_file log_path) then
      Some (HTTPException 400 (PathIsNotAFile filename), [])
    else
      match read_last_n_lines_efficient cfg log_path entries keyword with
      | None => None
      | Some (Return log_entries, io) =>
          Some (Respond {| filename := filename;
                           total_lines := -1;
                           returned_lines := len log_entries;
                           filtered := is_not_None keyword;
                           entries := log_entries |}, io)
      | Some (Raise ValueError, io) =>
          Some (HTTPException 413 (ExceptionText ValueError), io)
      | Some (Raise e, io) =>
          Some (HTTPException 500 (ErrorReadingLogFile e), io)
      end.

(** [json.dumps] on a [str], as the runtime has it. *)
Class JsonCodec : Type := {
  json_dumps : str -> str
}.

(** The three fixed chunks of the streamed body: the opening of the object
    and of the array, the separator, and the closing. *)
Definition entries_open : str := u "{" ++ [34%N] ++ u "entries" ++ [34%N] ++ u ": [".

Definition entries_comma : str := u ",".

Definition entries_close : str := u "]}".

(** The body of the [for line in ...] loop of [generate], with its [first]
    flag (lines 311-316). *)
Fixpoint generate_items `{JsonCodec} (first : bool) (lines : list str) : list str :=
  match lines with
  | [] => []
  | line :: rest =>
      (if negb first then [entries_comma] else [])
      ++ [json_dumps line] ++ generate_items false rest
  end.

(** [generate()] run to its end: the chunks it yields and how it ends.  An
    exception of the reader leaves [generate] where it is raised, so the
    closing chunk is not yielded. *)
Definition generate `{Runtime} `{JsonCodec} (cfg : config) (log_path : path_target)
    (entries : Z) (keyword : option str)
    : option (list str * completion unit * list io_event) :=
  match read_last_n_lines_streaming cfg log_path entries keyword with
  | None => None
  | Some (yielded, Return _, io) =>
      Some ([entries_open] ++ generate_items true yielded ++ [entries_close],
            Return tt, io)
  | Some (yielded, Raise e, io) =>
      Some ([entries_open] ++ generate_items true yielded, Raise e, io)
  end.

(** What [stream_logs] answers: an [HTTPException], or a
    [StreamingResponse] whose body is the chunks of [generate], ending as
    [generate] ends. *)
Inductive stream_result : Type :=
| StreamingResponse (chunks : list str) (outcome : completion unit)
| StreamException (status_code : Z) (detail : http_detail).

(** [stream_logs(filename, entries, keyword)] (lines 285-322).  Building the
    generator and the response runs nothing of [generate], so the [except]
    of the endpoint is not reached. *)
Definition stream_logs `{Runtime} `{JsonCodec} (cfg : config) (fs : str -> path_target)
    (filename : str) (entries : Z) (keyword : option str)
    : option (stream_result * list io_event) :=
  if negb (query_entries_ok entries) then
    Some (StreamException 422 (QueryOutOfRange entries), [])
  else if filename_rejected filename then
    Some (StreamException 400 InvalidFilename, [])
  else
    let log_path := fs filename in
    if negb (path_exists log_path) then
      Some (StreamException 404 (LogFileNotFound filename), [])
    else
      match generate cfg log_path entries keyword with
      | None => None
      | Some (chunks, outcome, io) => Some (StreamingResponse chunks outcome, io)
      end.

(** [sep.join(parts)] on [str]. *)
Fixpoint str_join (sep : str) (parts : list str) : str :=
  match parts with
  | [] => []
  | part :: rest =>
      match rest with
      | [] => part
      | _ :: _ => part ++ sep ++ str_join sep rest
      end
  end.

(** [a == b] on [str]. *)
Fixpoint str_eqb (a b : str) : bool :=
  match a, b with
  | [], [] => true
  | x :: a', y :: b' => N.eqb x y && str_eqb a' b'
  | _, _ => false
  end.

(** *** A concrete [json.dumps], for running [stream_logs] *)

Local Open Scope N_scope.

Definition hex_digit (d : N) : N := if d <? 10 then 48 + d else 87 + d.

(** [\uXXXX] for a code unit below [0x10000]. *)
Definition u_escape (c : N) : str :=
  [92; 117; hex_digit (c / 4096); hex_digit ((c / 256) mod 16);
   hex_digit ((c / 16) mod 16); hex_digit (c mod 16)].

(** The escape of one code point under [ensure_ascii=True]: the printable
    ASCII characters stand for themselves except the quote and the
    backslash, five control characters have a short escape, and every
    other code point is written as one or (above [0xFFFF]) two [\uXXXX]. *)
Definition json_escape (c : N) : str :=
  if c =? 34 then [92; 34]
  else if c =? 92 then [92; 92]
  else if c =? 10 then [92; 110]
  else if c =? 13 then [92; 114]
  else if c =? 9 then [92; 116]
  else if c =? 12 then [92; 102]
  else if c =? 8 then [92; 98]
  else if (32 <=? c) && (c <=? 126) then [c]
  else if c <? 65536 then u_escape c
  else u_escape (55296 + (c - 65536) / 1024) ++ u_escape (56320 + (c - 65536) mod 1024).

Definition json_dumps_ensure_ascii (s : str) : str :=
  [34] ++ flat_map json_escape s ++ [34].

Local Close Scope N_scope.

Definition python_json : JsonCodec := {| json_dumps := json_dumps_ensure_ascii |}.

(** A log directory: [log1.txt] holds the four-line file, [apache] is a
    directory, [auth.log] is a file of 32 bytes that the server may not
    open, and there is nothing else. *)
Definition example_fs (filename : str) : path_target :=
  if str_eqb filename (u "log1.txt") then Regular four_line_file
  else if str_eqb filename (u "apache") then Directory 4096
  else if str_eqb filename (u "auth.log") then Unreadable 32
  else Missing.

(* ===================================================================== *)
(** ** The primary server: [src/primary_server.py] *)

(** [a < b] on [str]: code point by code point, a proper prefix first. *)
Fixpoint str_ltb (a b : str) : bool :=
  match a, b with
  | _, [] => false
  | [], _ :: _ => true
  | x :: a', y :: b' => N.ltb x y || (N.eqb x y && str_ltb a' b')
  end.

(** [s.split(",")] on [str]: never empty, one more part than commas. *)
Fixpoint str_split_comma (s : str) : list str :=
  match s with
  | [] => [[]]
  | c :: t =>
      if N.eqb c 44 then [] :: str_split_comma t
      else match str_split_comma t with
           | h :: r => (c :: h) :: r
           | [] => [[c]]
           end
  end.

(** [x in names] for a list of [str]. *)
Definition str_in (x : str) (names : list str) : bool := existsb (str_eqb x) names.

(** [s.count(sub)]: the occurrences of [sub] in [s] that do not overlap,
    counted from the left; the next [skip] elements belong to the
    occurrence counted last.  The empty string occurs [len(s) + 1] times. *)
Fixpoint count_from (sub s : str) (skip : nat) : Z :=
  match s with
  | [] => if truthy sub then 0 else 1
  | _ :: t =>
      match skip with
      | S k => count_from sub t k
      | O =>
          if str_startswith s sub then 1 + count_from sub t (Nat.pred (length sub))
          else count_from sub t 0
      end
  end.

Definition str_count (s sub : str) : Z := count_from sub s 0.

Module Primary.

(** [class SecondaryServer(BaseModel)] *)
Record SecondaryServer : Type := {
  name : str;
  url : str;
  description : option str
}.

(** What a GET of [f"{server.url}/health"] gives [register_server]: a
    response with its status, [aiohttp.ClientError], or
    [asyncio.TimeoutError]. *)
Inductive probe_result : Type :=
| ProbeStatus (status : Z)
| ProbeClientError
| ProbeTimeout.

(** The JSON body of a secondary server's [/logs] answer, as far as
    [fetch_logs_from_server] reads it: the keys ["entries"] and
    ["returned_lines"], each present or not, with values of the types of
    [LogResponse], which is what [get_logs] of [src/app.py] sends
    ([response_model=LogResponse]).  A body that is not a JSON object makes
    [data.get] raise inside the [try]: that is a [FetchException].  Values
    of other types under these keys are not represented: what is proved of
    a 200 answer below is proved of answers of this shape. *)
Record LogsData : Type := {
  data_entries : option (list str);
  data_returned_lines : option Z
}.

(** What a GET of [f"{server.url}/logs"] gives: a response, with its status
    and, read as a JSON object, its body; a timeout; or any other exception
    raised inside the [try], by the request, by [response.json()] or by
    [data.get] on a body that is not an object, with its text. *)
Inductive fetch_outcome : Type :=
| FetchResponse (status : Z) (data : LogsData)
| FetchTimeout
| FetchException (text : str).

(** An element of the ["files"] of a [/logs/list] answer, as far as the
    primary server reads it: a JSON object with its key ["filename"],
    present or not, as [list_logs] of [src/app.py] sends it.  Elements that
    are not objects are not represented: what is proved of a listing
    answered with 200 below is proved of listings of this shape. *)
Record FileInfo : Type := {
  file_filename : option str
}.

(** What a GET of [f"{server.url}/logs/list"] gives: a response with its
    status and, its body read as a JSON object, the key ["files"], present
    or not; or an exception raised inside the [try], by the request (a
    client error, a timeout), by [response.json()] or by [data.get] on a
    body that is not an object, with its text. *)
Inductive files_outcome : Type :=
| FilesResponse (status : Z) (files : option (list FileInfo))
| FilesException (text : str).

(** The secondary servers, as the primary server reaches them. *)
Class Network : Type := {
  get_health : str -> probe_result;
  (** GET of [url] with the parameters [filename], [entries] and, when
      given, [keyword] *)
  get_logs_at : str -> str -> Z -> option str -> fetch_outcome;
  get_files_at : str -> files_outcome
}.

(** The exception [list_server_files] catches at line 154: the
    [HTTPException] it raised itself at line 153, or another one, with its
    text. *)
Inductive files_failure : Type :=
| UpstreamStatus (status : Z)
| FilesError (text : str).

(** The detail of an [HTTPException] of the primary server. *)
Inductive detail : Type :=
| AlreadyRegistered (server_name : str)
| HealthCheckFailed (status : Z)
| CannotReachServer
| HealthCheckTimedOut
| ServerNotFound (server_name : str)
| NoServersRegistered
| NoneOfTheServersFound (servers : str)
| ErrorFetchingFiles (server_name : str) (cause : files_failure)
| QueryOutOfRange (entries : Z).

Inductive reply (A : Type) : Type :=
| Done (body : A)
| HTTPException (status_code : Z) (why : detail).
Arguments Done {A} body.
Arguments HTTPException {A} status_code why.

(** The answer of a successful registration. *)
Record Registered : Type := {
  registered_name : str;
  total_servers : Z
}.

(** A call of [register_server] runs in two parts, with the awaited health
    probe between them; the endpoints run on one event loop, so each part
    runs without interruption, and other calls may run while the probe is
    awaited.

    [register_test] is the first part (lines 85-87): whether the name is
    taken, on the registry as it is when the call starts. *)
Definition register_test (servers : list SecondaryServer) (server : SecondaryServer)
    : bool :=
  existsb (fun existing => str_eqb existing.(name) server.(name)) servers.

(** [register_append] is the second part (lines 93-101), once the probe has
    answered, on the registry as it is by then: the registry afterwards and
    the answer.  The name is not tested again. *)
Definition register_append `{Network} (servers : list SecondaryServer)
    (server : SecondaryServer) : list SecondaryServer * reply Registered :=
  match get_health (server.(url) ++ u "/health") with
  | ProbeStatus status =>
      if negb (status =? 200) then
        (servers, HTTPException 400 (HealthCheckFailed status))
      else
        let servers := servers ++ [server] in
        (servers, Done {| registered_name := server.(name);
                          total_servers := len servers |})
  | ProbeClientError => (servers, HTTPException 400 CannotReachServer)
  | ProbeTimeout => (servers, HTTPException 400 HealthCheckTimedOut)
  end.

(** [register_server(server)] (lines 81-101) on the registry [servers],
    when no other call runs during its probe: the registry afterwards and
    the answer. *)
Definition register_server `{Network} (servers : list SecondaryServer)
    (server : SecondaryServer) : list SecondaryServer * reply Registered :=
  if register_test servers server then
    (servers, HTTPException 400 (AlreadyRegistered server.(name)))
  else register_append servers server.

(** The [for i, server in enumerate(...)] of [unregister_server]: the
    registry without the first server of that name, if there is one. *)
Fixpoint pop_first_named (server_name : str) (servers : list SecondaryServer)
    : option (list SecondaryServer) :=
  match servers with
  | [] => None
  | server :: rest =>
      if str_eqb server.(name) server_name then Some rest
      else match pop_first_named server_name rest with
           | Some rest' => Some (server :: rest')
           | None => None
           end
  end.

(** [unregister_server(server_name)] (lines 104-112). *)
Definition unregister_server (servers : list SecondaryServer) (server_name : str)
    : list SecondaryServer * reply str :=
  match pop_first_named server_name servers with
  | Some servers' => (servers', Done server_name)
  | None => (servers, HTTPException 404 (ServerNotFound server_name))
  end.

(** The servers whose name is not [server_name]. *)
Definition other_than (server_name : str) (s : SecondaryServer) : bool :=
  negb (str_eqb s.(name) server_name).

(** [list_servers()] (lines 115-128): the number of servers and their
    records. *)
Definition list_servers (servers : list SecondaryServer) : Z * list SecondaryServer :=
  (len servers, map (fun s => {| name := s.(name); url := s.(url);
                                 description := s.(description) |}) servers).

(** [d.get(key, default)] *)
Definition get_default {A : Type} (value : option A) (default : A) : A :=
  match value with Some v => v | None => default end.

(** [list_server_files(server_name)] (lines 131-155): the first server of
    that name is asked for its files.  The [HTTPException] raised at line
    153 for a status other than 200 is raised inside the [try] and is an
    [Exception]: line 154 catches it and line 155 raises the 500. *)
Definition list_server_files `{Network} (servers : list SecondaryServer)
    (server_name : str) : reply (str * list FileInfo) :=
  match find (fun s => str_eqb s.(name) server_name) servers with
  | None => HTTPException 404 (ServerNotFound server_name)
  | Some server =>
      match get_files_at (server.(url) ++ u "/logs/list") with
      | FilesResponse code files =>
          if code =? 200 then Done (server_name, get_default files [])
          else HTTPException 500 (ErrorFetchingFiles server_name (UpstreamStatus code))
      | FilesException text =>
          HTTPException 500 (ErrorFetchingFiles server_name (FilesError text))
      end
  end.

(** The ["status"] of a fetch. *)
Inductive fetch_status : Type := success | error | timeout.

(** The ["error"] of a fetch that did not succeed. *)
Inductive fetch_error : Type :=
| ErrorHTTP (status : Z)          (* f"HTTP {response.status}" *)
| ErrorTimedOut                   (* "Request timed out" *)
| ErrorText (text : str).         (* str(e) *)

(** The dictionary [fetch_logs_from_server] returns. *)
Record FetchResult : Type := {
  server : str;
  status : fetch_status;
  failure : option fetch_error;
  entries : list str;
  count : Z
}.

(** [fetch_logs_from_server(session, server, filename, entries, keyword)]
    (lines 158-210): the keyword is sent only when it is not empty. *)
Definition fetch_logs_from_server `{Network} (from : SecondaryServer)
    (filename : str) (entries_asked : Z) (keyword : option str) : FetchResult :=
  let params_keyword := if keyword_truthy keyword then keyword else None in
  match get_logs_at (from.(url) ++ u "/logs") filename entries_asked params_keyword with
  | FetchResponse code data =>
      if code =? 200 then
        {| server := from.(name); status := success; failure := None;
           entries := get_default data.(data_entries) [];
           count := get_default data.(data_returned_lines) 0 |}
      else
        {| server := from.(name); status := error; failure := Some (ErrorHTTP code);
           entries := []; count := 0 |}
  | FetchTimeout =>
      {| server := from.(name); status := timeout; failure := Some ErrorTimedOut;
         entries := []; count := 0 |}
  | FetchException text =>
      {| server := from.(name); status := error; failure := Some (ErrorText text);
         entries := []; count := 0 |}
  end.

(** An element of ["servers_queried"]. *)
Record ServerQueried : Type := {
  queried_name : str;
  queried_status : fetch_status;
  entries_returned : Z;
  queried_error : option fetch_error
}.

(** An element of ["entries"]: a line and the server it comes from. *)
Record AggregatedEntry : Type := {
  entry_server : str;
  content : str
}.

(** The answer of [aggregate_logs]. *)
Record Aggregated : Type := {
  aggregated_total_servers : Z;
  servers_queried : list ServerQueried;
  total_entries : Z;
  aggregated_keyword : option str;
  aggregated_entries : list AggregatedEntry
}.

(** [all_entries.sort(key=lambda x: x["content"], reverse=True)]: the
    stable sort in decreasing order of [content]; entries with the same
    content keep their order. *)
Fixpoint insert_by_content (x : AggregatedEntry) (sorted : list AggregatedEntry)
    : list AggregatedEntry :=
  match sorted with
  | [] => [x]
  | y :: rest =>
      if str_ltb x.(content) y.(content) then y :: insert_by_content x rest
      else x :: sorted
  end.

Definition sort_by_content_reverse (all_entries : list AggregatedEntry)
    : list AggregatedEntry :=
  fold_right insert_by_content [] all_entries.

(** The servers [aggregate_logs] queries (lines 233-236): all of them, or,
    when [servers] is given and not empty, those whose name is one of its
    comma-separated parts, stripped. *)
Definition servers_to_query `{Runtime} (registry : list SecondaryServer)
    (servers : option str) : list SecondaryServer :=
  match servers with
  | Some given =>
      if truthy given then
        let server_names := map str_strip (str_split_comma given) in
        filter (fun s => str_in s.(name) server_names) registry
      else registry
  | None => registry
  end.

(** The entries of one result, each with its server (lines 261-265). *)
Definition entries_of (result : FetchResult) : list AggregatedEntry :=
  map (fun entry => {| entry_server := result.(server); content := entry |})
      result.(entries).

(** [Query(50, ge=1, le=1000)] *)
Definition query_entries_ok (entries_asked : Z) : bool :=
  (1 <=? entries_asked) && (entries_asked <=? 1000).

(** [aggregate_logs(filename, entries, keyword, servers)] (lines 213-276);
    [asyncio.gather] gives the results in the order of the servers. *)
Definition aggregate_logs `{Runtime} `{Network} (registry : list SecondaryServer)
    (filename : str) (entries_asked : Z) (keyword : option str)
    (servers : option str) : reply Aggregated :=
  if negb (query_entries_ok entries_asked) then
    HTTPException 422 (QueryOutOfRange entries_asked)
  else if len registry =? 0 then HTTPException 400 NoServersRegistered
  else
    let to_query := servers_to_query registry servers in
    if is_not_None servers && truthy (get_default servers [])
       && negb (truthy to_query) then
      HTTPException 404 (NoneOfTheServersFound (get_default servers []))
    else
      let results :=
        map (fun s => fetch_logs_from_server s filename entries_asked keyword)
            to_query in
      let queried :=
        map (fun result => {| queried_name := result.(server);
                              queried_status := result.(status);
                              entries_returned := result.(count);
                              queried_error := result.(failure) |}) results in
      let all_entries := flat_map entries_of results in
      let all_entries := sort_by_content_reverse all_entries in
      Done {| aggregated_total_servers := len to_query;
              servers_queried := queried;
              total_entries := len all_entries;
              aggregated_keyword := keyword;
              aggregated_entries := slice_to entries_asked all_entries |}.

(** An element of ["results"]: a line, its server and the number of
    occurrences of the keyword in it. *)
Record SearchResult : Type := {
  result_server : str;
  result_content : str;
  matches : Z
}.

(** The answer of [search_logs]. *)
Record Searched : Type := {
  searched_keyword : str;
  total_matches : Z;
  results : list SearchResult
}.

(** An exception no handler of the endpoint catches. *)
Inductive raised : Type := KeyError.

Inductive outcome (A : Type) : Type :=
| Replied (r : reply A)
| Unhandled (e : raised).
Arguments Replied {A} r.
Arguments Unhandled {A} e.

(** [get_files(srv)] (lines 304-312): the files of a server, none when the
    listing is not answered with 200 or raises. *)
Definition get_files `{Network} (srv : SecondaryServer)
    : SecondaryServer * list FileInfo :=
  match get_files_at (srv.(url) ++ u "/logs/list") with
  | FilesResponse code files =>
      if code =? 200 then (srv, get_default files []) else (srv, [])
  | FilesException _ => (srv, [])
  end.

(** [file_info["filename"]] for each of [files], in order: [None] is the
    [KeyError] of the first one without that key. *)
Fixpoint filenames_of (files : list FileInfo) : option (list str) :=
  match files with
  | [] => Some []
  | file_info :: rest =>
      match file_info.(file_filename) with
      | None => None
      | Some filename => option_map (cons filename) (filenames_of rest)
      end
  end.

(** The searches to run (lines 319-326): for each server, one for each of
    its first five files. *)
Fixpoint search_tasks (file_results : list (SecondaryServer * list FileInfo))
    : option (list (SecondaryServer * str)) :=
  match file_results with
  | [] => Some []
  | (from, files) :: rest =>
      match filenames_of (slice_to 5 files) with
      | None => None
      | Some filenames =>
          option_map (app (map (pair from) filenames)) (search_tasks rest)
      end
  end.

(** The results of one fetch (lines 332-338): none when its ["count"] is
    not positive. *)
Definition results_of `{Runtime} (keyword : str) (result : FetchResult)
    : list SearchResult :=
  if result.(count) >? 0 then
    map (fun entry => {| result_server := result.(server);
                         result_content := entry;
                         matches := str_count (str_lower entry) (str_lower keyword) |})
        result.(entries)
  else [].

(** [all_results.sort(key=lambda x: x["matches"], reverse=True)]: the
    stable sort in decreasing order of [matches]. *)
Fixpoint insert_by_matches (x : SearchResult) (sorted : list SearchResult)
    : list SearchResult :=
  match sorted with
  | [] => [x]
  | y :: rest =>
      if x.(matches) <? y.(matches) then y :: insert_by_matches x rest
      else x :: sorted
  end.

Definition sort_by_matches_reverse (all_results : list SearchResult)
    : list SearchResult :=
  fold_right insert_by_matches [] all_results.

(** [search_logs(keyword, entries, servers)] (lines 279-347).  Unlike
    [aggregate_logs], it goes on when [servers] names no registered
    server. *)
Definition search_logs `{Runtime} `{Network} (registry : list SecondaryServer)
    (keyword : str) (entries_asked : Z) (servers : option str)
    : outcome Searched :=
  if negb (query_entries_ok entries_asked) then
    Replied (HTTPException 422 (QueryOutOfRange entries_asked))
  else if len registry =? 0 then Replied (HTTPException 400 NoServersRegistered)
  else
    let to_query := servers_to_query registry servers in
    let file_results := map get_files to_query in
    match search_tasks file_results with
    | None => Unhandled KeyError
    | Some tasks =>
        let search_results :=
          map (fun '(from, filename) =>
                 fetch_logs_from_server from filename entries_asked (Some keyword))
              tasks in
        let all_results := flat_map (results_of keyword) search_results in
        let all_results := sort_by_matches_reverse all_results in
        Replied (Done {| searched_keyword := keyword;
                         total_matches := len all_results;
                         results := slice_to entries_asked all_results |})
    end.

End Primary.

(** Three secondary servers and how they answer: [web] and [cache] serve
    their logs, [db] passes its health check but does not answer in time
    when asked for logs, and lists a file without a name. *)
Definition web_server : Primary.SecondaryServer :=
  {| Primary.name := u "web"; Primary.url := u "http://web";
     Primary.description := None |}.

Definition db_server : Primary.SecondaryServer :=
  {| Primary.name := u "db"; Primary.url := u "http://db";
     Primary.description := Some (u "database") |}.

(** A second server that asks for the name [db]. *)
Definition db_mirror : Primary.SecondaryServer :=
  {| Primary.name := u "db"; Primary.url := u "http://web";
     Primary.description := None |}.

(** A server that is not reached. *)
Definition mail_server : Primary.SecondaryServer :=
  {| Primary.name := u "mail"; Primary.url := u "http://mail";
     Primary.description := None |}.

Definition cache_server : Primary.SecondaryServer :=
  {| Primary.name := u "cache"; Primary.url := u "http://cache";
     Primary.description := None |}.

Definition example_registry : list Primary.SecondaryServer :=
  [web_server; db_server; cache_server].

Definition example_network : Primary.Network :=
  {| Primary.get_health url :=
       if str_eqb url (u "http://web/health") then Primary.ProbeStatus 200
       else if str_eqb url (u "http://db/health") then Primary.ProbeStatus 200
       else if str_eqb url (u "http://cache/health") then Primary.ProbeStatus 503
       else Primary.ProbeClientError;
     Primary.get_logs_at url filename entries_asked keyword :=
       if str_eqb url (u "http://web/logs") then
         Primary.FetchResponse 200
           {| Primary.data_entries := Some [u "09:02 error b"; u "09:00 a"];
              Primary.data_returned_lines := Some 2 |}
       else if str_eqb url (u "http://cache/logs") then
         Primary.FetchResponse 200
           {| Primary.data_entries := Some [u "09:01 error, error c"];
              Primary.data_returned_lines := Some 1 |}
       else if str_eqb url (u "http://db/logs") then Primary.FetchTimeout
       else Primary.FetchException (u "refused");
     Primary.get_files_at url :=
       if str_eqb url (u "http://web/logs/list") then
         Primary.FilesResponse 200
           (Some [{| Primary.file_filename := Some (u "app.log") |}])
       else if str_eqb url (u "http://cache/logs/list") then
         Primary.FilesResponse 404 None
       else if str_eqb url (u "http://db/logs/list") then
         Primary.FilesResponse 200
           (Some [{| Primary.file_filename := None |}])
       else Primary.FilesException (u "refused") |}.

(* ===================================================================== *)
(** ** A primary server in front of servers of [src/app.py] *)

(** A secondary server running [src/app.py]: its constants and what its
    log directory holds. *)
Record secondary : Type := {
  secondary_config : config;
  secondary_logs : str -> path_target
}.

(** What [fetch_logs_from_server] receives from such a server: its GET of
    [/logs] is the route of [get_logs] (line 198 of [src/app.py]), answered
    with the [LogResponse], whose keys ["entries"] and ["returned_lines"]
    the primary server reads, or with the status of the [HTTPException]. *)
Definition serve_logs `{Runtime} (host : secondary) (file_asked : str)
    (entries_asked : Z) (keyword : option str) : Primary.fetch_outcome :=
  match get_logs host.(secondary_config) host.(secondary_logs) file_asked
          entries_asked keyword with
  | Some (Respond body, _) =>
      Primary.FetchResponse 200
        {| Primary.data_entries := Some body.(entries);
           Primary.data_returned_lines := Some body.(returned_lines) |}
  | Some (HTTPException code _, _) =>
      Primary.FetchResponse code
        {| Primary.data_entries := None; Primary.data_returned_lines := None |}
  | None => Primary.FetchException []
  end.

(** The server [web] running [src/app.py] on the example log directory. *)
Definition web_host : secondary :=
  {| secondary_config := small_chunks; secondary_logs := example_fs |}.

Definition log_server_network : Primary.Network :=
  {| Primary.get_health url := Primary.ProbeStatus 200;
     Primary.get_logs_at url filename entries_asked keyword :=
       if str_eqb url (u "http://web/logs") then
         @serve_logs basic_latin_runtime web_host filename entries_asked keyword
       else Primary.FetchException (u "refused");
     Primary.get_files_at url := Primary.FilesException (u "refused") |}.

(* ===================================================================== *)
(** * Properties *)

(** Case analysis on every condition and every scrutinee of the goal. *)
Ltac case_conditions :=
  repeat match goal with
         | |- context [if ?c then _ else _] => destruct c
         | |- context [match ?x with Some _ => _ | None => _ end] => destruct x
         | |- context [let '(_, _) := ?x in _] => destruct x
         end.

(** ** Sequences, slices and [filter_map] *)

Lemma len_nonneg {A : Type} (l : list A) : 0 <= len l.
Proof. unfold len. lia. Qed.

Lemma len_app {A : Type} (l1 l2 : list A) : len (l1 ++ l2) = len l1 + len l2.
Proof. unfold len. rewrite length_app. lia. Qed.

Lemma slice_to_nonneg {A : Type} (i : Z) (l : list A) :
  0 <= i -> slice_to i l = firstn (Z.to_nat i) l.
Proof.
  intros Hi. unfold slice_to, slice_index, len.
  destruct (Z.ltb_spec i 0); [lia |].
  destruct (Z.min_spec i (Z.of_nat (length l))) as [[Hlt ->] | [Hge ->]].
  - reflexivity.
  - rewrite Nat2Z.id, firstn_all.
    symmetry. apply firstn_all2. lia.
Qed.

Lemma slice_from_nonneg {A : Type} (i : Z) (l : list A) :
  0 <= i -> slice_from i l = skipn (Z.to_nat i) l.
Proof.
  intros Hi. unfold slice_from, slice_index, len.
  destruct (Z.ltb_spec i 0); [lia |].
  destruct (Z.min_spec i (Z.of_nat (length l))) as [[Hlt ->] | [Hge ->]].
  - reflexivity.
  - rewrite Nat2Z.id, skipn_all.
    symmetry. apply skipn_all2. lia.
Qed.

(** [l[-n:]] for a positive [n] is the last [n] elements. *)
Lemma slice_from_neg {A : Type} (n : Z) (l : list A) :
  1 <= n -> slice_from (- n) l = last_n (Z.to_nat n) l.
Proof.
  intros Hn. unfold slice_from, slice_index, last_n, len.
  destruct (Z.ltb_spec (- n) 0); [| lia].
  f_equal. lia.
Qed.

Lemma filter_map_app {A B : Type} (f : A -> option B) (l1 l2 : list A) :
  filter_map f (l1 ++ l2) = filter_map f l1 ++ filter_map f l2.
Proof.
  induction l1 as [| x l1 IH]; simpl; [reflexivity |].
  destruct (f x); simpl; rewrite IH; reflexivity.
Qed.

Lemma filter_map_rev {A B : Type} (f : A -> option B) (l : list A) :
  filter_map f (rev l) = rev (filter_map f l).
Proof.
  induction l as [| x l IH]; simpl; [reflexivity |].
  rewrite filter_map_app, IH. simpl.
  destruct (f x); simpl; [reflexivity | apply app_nil_r].
Qed.

Lemma filter_map_In {A B : Type} (f : A -> option B) (l : list A) (y : B) :
  In y (filter_map f l) <-> exists x, In x l /\ f x = Some y.
Proof.
  induction l as [| a l IH]; simpl.
  - split; [intros [] | intros (x & [] & _)].
  - destruct (f a) eqn:Ha; simpl; rewrite IH; split.
    + intros [<- | (x & Hx & Hf)]; [exists a | exists x]; auto.
    + intros (x & [<- | Hx] & Hf); [left; congruence | right; exists x; auto].
    + intros (x & Hx & Hf); exists x; auto.
    + intros (x & [<- | Hx] & Hf); [congruence | exists x; auto].
Qed.

Lemma filter_map_map {A B C : Type} (g : A -> B) (f : B -> option C) (l : list A) :
  filter_map f (map g l) = filter_map (fun x => f (g x)) l.
Proof.
  induction l as [| x l IH]; simpl; [reflexivity |].
  rewrite IH. reflexivity.
Qed.

(** The newest [k] of a list read backwards are its last [k], reversed. *)
Lemma firstn_rev_last_n {A : Type} (k : nat) (l : list A) :
  firstn k (rev l) = rev (last_n (Nat.min k (length l)) l).
Proof.
  unfold last_n. rewrite firstn_rev. f_equal.
  destruct (Nat.le_ge_cases k (length l)).
  - rewrite Nat.min_l by assumption. reflexivity.
  - rewrite Nat.min_r by assumption.
    replace (length l - k)%nat with (length l - length l)%nat by lia.
    reflexivity.
Qed.

(** ** Delimiters: [split], [join], [rfind] *)

Lemma is_LF_eq (c : byte) : is_LF c = true -> c = LF.
Proof. unfold is_LF. apply Byte.byte_dec_bl. Qed.

Lemma has_LF_app (l1 l2 : bytes) : has_LF (l1 ++ l2) = has_LF l1 || has_LF l2.
Proof. unfold has_LF. apply existsb_app. Qed.

Lemma split_LF_not_nil (l : bytes) : split_LF l <> [].
Proof.
  destruct l as [| c t]; simpl; [discriminate |].
  destruct (is_LF c); [discriminate |].
  destruct (split_LF t); discriminate.
Qed.

Lemma split_LF_cons (l : bytes) : split_LF l = hd [] (split_LF l) :: tl (split_LF l).
Proof.
  pose proof (split_LF_not_nil l) as H.
  destruct (split_LF l); [contradiction | reflexivity].
Qed.

Lemma split_LF_no_delim (l : bytes) : has_LF l = false -> split_LF l = [l].
Proof.
  induction l as [| c t IH]; simpl; [reflexivity |].
  intros H. apply orb_false_iff in H as [Hc Ht].
  rewrite Hc, (IH Ht). reflexivity.
Qed.

Lemma split_LF_pieces (l : bytes) : Forall (fun p => has_LF p = false) (split_LF l).
Proof.
  induction l as [| c t IH]; simpl.
  - repeat constructor.
  - destruct (is_LF c) eqn:Hc.
    + constructor; [reflexivity | exact IH].
    + destruct (split_LF t) as [| h r]; [repeat constructor; simpl; rewrite Hc; reflexivity |].
      inversion IH; subst.
      constructor; [simpl; rewrite Hc; assumption | assumption].
Qed.

Lemma hd_split_LF_no_delim (l : bytes) : has_LF (hd [] (split_LF l)) = false.
Proof.
  pose proof (split_LF_pieces l) as H.
  destruct (split_LF l); [reflexivity | inversion H; assumption].
Qed.

(** Splitting a concatenation: only the first piece of the right part is
    affected by what is put in front of it. *)
Lemma split_LF_app (a rest : bytes) :
  split_LF (a ++ rest) = split_LF (a ++ hd [] (split_LF rest)) ++ tl (split_LF rest).
Proof.
  induction a as [| c t IH]; simpl.
  - rewrite (split_LF_no_delim _ (hd_split_LF_no_delim rest)).
    apply split_LF_cons.
  - destruct (is_LF c); [rewrite IH; reflexivity |].
    rewrite IH.
    rewrite (split_LF_cons (t ++ hd [] (split_LF rest))). reflexivity.
Qed.

(** [lines[-1] += carry] rebuilds the split of [chunk + carry]. *)
Lemma split_LF_app_carry (chunk carry : bytes) :
  has_LF carry = false ->
  split_LF (chunk ++ carry) = append_to_last (split_LF chunk) carry.
Proof.
  intros Hc. unfold append_to_last.
  induction chunk as [| c t IH]; simpl.
  - apply split_LF_no_delim, Hc.
  - rewrite IH. pose proof (split_LF_not_nil t) as Hne.
    destruct (split_LF t) as [| h r]; [contradiction |].
    destruct (is_LF c); destruct r; reflexivity.
Qed.

Lemma join_LF_snoc (pieces : list bytes) (q : bytes) :
  pieces <> [] -> join_LF (pieces ++ [q]) = join_LF pieces ++ LF :: q.
Proof.
  induction pieces as [| p rest IH]; [contradiction |].
  intros _. destruct rest as [| p' rest'].
  - reflexivity.
  - change (join_LF ((p :: p' :: rest') ++ [q]))
      with (p ++ LF :: join_LF ((p' :: rest') ++ [q])).
    rewrite IH by discriminate.
    change (join_LF (p :: p' :: rest')) with (p ++ LF :: join_LF (p' :: rest')).
    rewrite <- app_assoc. reflexivity.
Qed.

Lemma join_split_LF (l : bytes) : join_LF (split_LF l) = l.
Proof.
  induction l as [| c t IH]; simpl; [reflexivity |].
  pose proof (split_LF_not_nil t) as Hne.
  destruct (split_LF t) as [| h r]; [contradiction |].
  destruct (is_LF c) eqn:Hc.
  - apply is_LF_eq in Hc. subst c.
    change (join_LF ([] :: h :: r)) with (LF :: join_LF (h :: r)).
    rewrite IH. reflexivity.
  - destruct r; simpl in *; rewrite IH; reflexivity.
Qed.

Lemma rfind_LF_no_delim (l : bytes) : has_LF l = false -> rfind_LF l = -1.
Proof.
  induction l as [| c t IH]; simpl; [reflexivity |].
  intros H. apply orb_false_iff in H as [Hc Ht].
  rewrite (IH Ht), Hc. reflexivity.
Qed.

Lemma rfind_LF_last (pre post : bytes) :
  has_LF post = false -> rfind_LF (pre ++ LF :: post) = len pre.
Proof.
  intros Hp. induction pre as [| c t IH]; simpl.
  - rewrite (rfind_LF_no_delim _ Hp). reflexivity.
  - rewrite IH. pose proof (len_nonneg t).
    destruct (Z.eqb_spec (len t) (-1)); [lia |].
    unfold len. simpl length. lia.
Qed.

Lemma slice_at_delim (pre post : bytes) :
  slice_from (len pre + 1) (pre ++ LF :: post) = post
  /\ slice_to (len pre) (pre ++ LF :: post) = pre.
Proof.
  pose proof (len_nonneg pre).
  rewrite slice_from_nonneg, slice_to_nonneg by lia.
  unfold len. split.
  - replace (Z.to_nat (Z.of_nat (length pre) + 1)) with (length pre + 1)%nat by lia.
    rewrite skipn_app, skipn_all2 by lia.
    replace (length pre + 1 - length pre)%nat with 1%nat by lia. reflexivity.
  - rewrite Nat2Z.id, firstn_app, Nat.sub_diag, firstn_all. simpl.
    apply app_nil_r.
Qed.

(** ** The eager scan *)

Section Scan.

Context {RT : Runtime}.
Variable cfg : config.
Variable n : Z.
Variable keyword : option str.

Hypothesis chunk_positive : 0 < CHUNK_SIZE cfg.
Hypothesis n_positive : 1 <= n.

(** The accepted lines of a list of raw pieces, newest first. *)
Local Abbreviation newest pieces := (filter_map (accept keyword) (rev pieces)).

Lemma accept_cases (line : bytes) :
  accept keyword line =
  if truthy line then
    if truthy (str_strip (bytes_decode line)) then
      if keyword_passes keyword (str_strip (bytes_decode line))
      then Some (str_strip (bytes_decode line)) else None
    else None
  else None.
Proof.
  unfold accept. destruct (truthy line); [| reflexivity].
  destruct (truthy (str_strip (bytes_decode line))); reflexivity.
Qed.

Lemma firstn_exact {A : Type} (l rest : list A) :
  len l = n -> firstn (Z.to_nat n) (l ++ rest) = l.
Proof.
  intros H. unfold len in H.
  replace (Z.to_nat n) with (length l + 0)%nat by lia.
  rewrite firstn_app_2. simpl. apply app_nil_r.
Qed.

(** The inner loop takes the pieces of the buffer from the last one down to
    the second, and leaves the first as the carry buffer, unless the budget
    is reached on the way. *)
Lemma find_lines_spec (pieces : list bytes) :
  forall (c : bytes) (fuel : nat) (lines : list str),
    has_LF c = false ->
    Forall (fun p => has_LF p = false) pieces ->
    (length (join_LF (c :: pieces)) < fuel)%nat ->
    len lines < n ->
    find_lines fuel n keyword (join_LF (c :: pieces)) lines (len lines) =
    Some (if len (lines ++ newest pieces) >=? n
          then Returned (firstn (Z.to_nat n) (lines ++ newest pieces))
          else Carry c (lines ++ newest pieces) (len (lines ++ newest pieces))).
Proof.
  induction pieces as [| q ps IH] using rev_ind; intros c fuel lines Hc Hps Hfuel Hlt.
  - destruct fuel as [| fuel]; [simpl in Hfuel; lia |].
    simpl. rewrite Hc, app_nil_r.
    destruct (Z.geb_spec (len lines) n); [lia | reflexivity].
  - apply Forall_app in Hps as [Hps Hq]. inversion Hq as [| ? ? Hq' _]; subst.
    rewrite app_comm_cons, join_LF_snoc in * by discriminate.
    destruct fuel as [| fuel]; [lia |].
    rewrite length_app in Hfuel. cbn [length] in Hfuel.
    cbn [find_lines].
    rewrite has_LF_app. cbn [has_LF existsb]. change (is_LF LF) with true.
    rewrite orb_true_r, (rfind_LF_last _ _ Hq').
    pose proof (len_nonneg (join_LF (c :: ps))) as Hnn.
    destruct (Z.eqb_spec (len (join_LF (c :: ps))) (-1)) as [E | _]; [lia |].
    cbn [negb].
    destruct (slice_at_delim (join_LF (c :: ps)) q) as [-> ->].
    rewrite rev_unit. cbn [filter_map]. rewrite accept_cases.
    destruct (truthy q); [| apply IH; auto; lia].
    destruct (truthy (str_strip (bytes_decode q))); [| apply IH; auto; lia].
    destruct (keyword_passes keyword (str_strip (bytes_decode q))); [| apply IH; auto; lia].
    set (d := str_strip (bytes_decode q)).
    assert (Hlen : len (lines ++ [d]) = len lines + 1) by (rewrite len_app; reflexivity).
    replace (lines ++ d :: newest ps) with ((lines ++ [d]) ++ newest ps)
      by (rewrite <- app_assoc; reflexivity).
    destruct (Z.geb_spec (len lines + 1) n) as [Hge | Hlt'].
    + rewrite firstn_exact by lia.
      pose proof (len_nonneg (newest ps)).
      destruct (Z.geb_spec (len ((lines ++ [d]) ++ newest ps)) n) as [_ | Hbad];
        [reflexivity | rewrite len_app in Hbad; lia].
    + rewrite <- Hlen. apply IH; auto; lia.
Qed.

Lemma firstn_app_long {A : Type} (l rest : list A) :
  n <= len l -> firstn (Z.to_nat n) (l ++ rest) = firstn (Z.to_nat n) l.
Proof.
  intros H. unfold len in H. rewrite firstn_app.
  replace (Z.to_nat n - length l)%nat with 0%nat by lia.
  apply app_nil_r.
Qed.

(** A backward read joins the bytes already scanned. *)
Lemma read_at_suffix (data : bytes) (position size : Z) :
  0 <= position -> 0 <= size ->
  skipn (Z.to_nat position) data =
  read_at data position size ++ skipn (Z.to_nat (position + size)) data.
Proof.
  intros Hp Hs. unfold read_at.
  rewrite <- (firstn_skipn (Z.to_nat size) (skipn (Z.to_nat position) data)) at 1.
  rewrite skipn_skipn. do 2 f_equal. lia.
Qed.

(** The pieces of the whole file, given the pieces of a scanned suffix. *)
Lemma split_LF_of_suffix (data : bytes) (k : nat) (c : bytes) (ps : list bytes) :
  split_LF (skipn k data) = c :: ps ->
  split_LF data = split_LF (firstn k data ++ c) ++ ps.
Proof.
  intros H. rewrite <- (firstn_skipn k data) at 1.
  rewrite split_LF_app, H. reflexivity.
Qed.

(** One backward read from a cursor above [0]: its size is at least one
    byte, the cursor stays in the file, and the pieces of the bytes scanned
    so far are those of [chunk + carry] followed by the pieces already
    met. *)
Lemma backward_step (data : bytes) (position : Z) (c : bytes) (ps : list bytes) :
  0 < position <= len data ->
  split_LF (skipn (Z.to_nat position) data) = c :: ps ->
  1 <= Z.min (CHUNK_SIZE cfg) position <= position
  /\ 0 <= position - Z.min (CHUNK_SIZE cfg) position <= len data
  /\ split_LF (skipn (Z.to_nat (position - Z.min (CHUNK_SIZE cfg) position)) data) =
     split_LF (read_at data (position - Z.min (CHUNK_SIZE cfg) position)
                 (Z.min (CHUNK_SIZE cfg) position) ++ c) ++ ps.
Proof.
  intros Hpos Hsplit.
  set (chunk_size := Z.min (CHUNK_SIZE cfg) position).
  assert (Hcs : 1 <= chunk_size <= position) by (unfold chunk_size; lia).
  repeat split; try lia.
  rewrite (read_at_suffix data (position - chunk_size) chunk_size) by lia.
  replace (position - chunk_size + chunk_size) with position by lia.
  rewrite split_LF_app, Hsplit. reflexivity.
Qed.

Lemma newest_app (ps1 ps2 : list bytes) : newest (ps1 ++ ps2) = newest ps2 ++ newest ps1.
Proof. rewrite rev_app_distr. apply filter_map_app. Qed.

Lemma handle_remaining_spec (c : bytes) (ps : list bytes) :
  len (newest ps) < n ->
  handle_remaining n keyword c (newest ps) (len (newest ps)) = newest (c :: ps).
Proof.
  intros Hlt. unfold handle_remaining.
  change (c :: ps) with ([c] ++ ps). rewrite newest_app.
  cbn [rev app filter_map]. rewrite accept_cases.
  destruct (Z.ltb_spec (len (newest ps)) n); [| lia].
  destruct (truthy c); cbn [andb]; [| symmetry; apply app_nil_r].
  destruct (truthy (str_strip (bytes_decode c))); [| symmetry; apply app_nil_r].
  destruct (keyword_passes keyword (str_strip (bytes_decode c)));
    [reflexivity | symmetry; apply app_nil_r].
Qed.

(** Invariant of the outer loop of the eager scan: at cursor [position] the
    buffer is the first piece of the bytes scanned so far and [lines] holds
    the accepted ones among their other pieces, newest first.  From such a
    state the scan ends with the newest [n] accepted pieces of the whole
    file, and its reads follow the cursor discipline. *)
Lemma scan_efficient_spec (data : bytes) :
  forall (fuel : nat) (position : Z) (c : bytes) (ps : list bytes)
         (lines : list str) (lines_found : Z) (io : list io_event),
    0 <= position <= len data ->
    (Z.to_nat position <= fuel)%nat ->
    split_LF (skipn (Z.to_nat position) data) = c :: ps ->
    lines = newest ps ->
    lines_found = len lines ->
    len lines < n ->
    exists io',
      scan_efficient cfg fuel data n keyword position c lines lines_found io =
      Some (firstn (Z.to_nat n) (newest (split_LF data)), io ++ io')
      /\ cursor_chain cfg position io'
      /\ (0 < position -> io' <> []).
Proof.
  induction fuel as [| fuel IH];
    intros position c ps lines lines_found io Hpos Hfuel Hsplit -> -> Hlt.
  - (* the cursor is at 0 *)
    assert (position = 0) as -> by lia.
    exists []. split; [| split; [exact I | intros; lia]].
    cbn [scan_efficient]. cbn [Z.gtb Z.compare andb].
    rewrite handle_remaining_spec, slice_to_nonneg, app_nil_r by lia.
    simpl in Hsplit. rewrite Hsplit. reflexivity.
  - cbn [scan_efficient].
    destruct (Z.gtb_spec position 0) as [Hgt | Hle].
    + destruct (Z.ltb_spec (len (newest ps)) (n * 2)) as [_ | Hbad]; [| lia].
      cbn [andb].
      destruct (backward_step data position c ps) as (Hcs & Hp' & Hsplit');
        [lia | exact Hsplit |].
      set (chunk_size := Z.min (CHUNK_SIZE cfg) position) in *.
      set (position' := position - chunk_size) in *.
      set (chunk := read_at data position' chunk_size) in *.
      pose proof (split_LF_pieces (chunk ++ c)) as Hpieces.
      pose proof (join_split_LF (chunk ++ c)) as Hjoin.
      destruct (split_LF (chunk ++ c)) as [| c' ps'] eqn:E;
        [exfalso; eapply split_LF_not_nil; eassumption |].
      inversion Hpieces as [| ? ? Hc' Hps']; subst.
      assert (Hfind := find_lines_spec ps' c' (S (length (chunk ++ c))) (newest ps)
                         Hc' Hps').
      rewrite Hjoin in Hfind. rewrite Hfind by (auto; lia). clear Hfind.
      rewrite <- newest_app.
      destruct (Z.geb_spec (len (newest (ps' ++ ps))) n) as [Hge | Hlt'].
      * (* the budget is reached inside this chunk *)
        exists [ReadAt position' chunk_size]. split.
        -- rewrite (split_LF_of_suffix data _ _ _ Hsplit').
           rewrite (newest_app (split_LF _) (ps' ++ ps)).
           rewrite firstn_app_long by lia. reflexivity.
        -- split; [cbn [cursor_chain]; repeat split; auto; lia | discriminate].
      * destruct (IH position' c' (ps' ++ ps) (newest (ps' ++ ps))
                    (len (newest (ps' ++ ps))) (io ++ [ReadAt position' chunk_size]))
          as (io' & Hrun & Hchain & _); auto; try lia.
        exists (ReadAt position' chunk_size :: io'). split.
        -- rewrite Hrun. rewrite <- app_assoc. reflexivity.
        -- split; [cbn [cursor_chain]; repeat split; auto; lia | discriminate].
    + assert (position = 0) as -> by lia.
      exists []. split; [| split; [exact I | intros; lia]].
      cbn [andb].
      rewrite handle_remaining_spec, slice_to_nonneg, app_nil_r by lia.
      simpl in Hsplit. rewrite Hsplit. reflexivity.
Qed.

(** ** The streaming scan *)

Lemma firstn_budget_short {A : Type} (l : list A) :
  len (firstn (Z.to_nat n) l) < n -> firstn (Z.to_nat n) l = l.
Proof.
  unfold len. rewrite length_firstn. intros H.
  apply firstn_all2. lia.
Qed.

(** The inner loop of the generator pops every piece but the last one of
    the buffer, as long as the budget lasts. *)
Lemma drain_buffer_spec (pieces : list bytes) :
  forall (c : bytes) (yielded : list str),
    len yielded <= n ->
    exists buffer',
      drain_buffer n keyword (pieces ++ [c]) yielded (len yielded) =
      (buffer',
       firstn (Z.to_nat n) (yielded ++ filter_map (accept keyword) pieces),
       len (firstn (Z.to_nat n) (yielded ++ filter_map (accept keyword) pieces)))
      /\ (len (firstn (Z.to_nat n) (yielded ++ filter_map (accept keyword) pieces)) < n ->
          buffer' = [c]).
Proof.
  induction pieces as [| p ps IH]; intros c yielded Hle.
  - exists [c]. cbn [app filter_map drain_buffer].
    rewrite app_nil_r, firstn_all2 by (unfold len in Hle; lia).
    split; [reflexivity | auto].
  - cbn [app drain_buffer].
    assert (Hlen : (len (p :: ps ++ [c]) >? 1) = true).
    { unfold len. cbn [length]. rewrite length_app. cbn [length].
      apply Z.gtb_lt. lia. }
    rewrite Hlen. cbn [andb filter_map].
    destruct (Z.ltb_spec (len yielded) n) as [Hlt | Hge].
    + rewrite accept_cases.
      destruct (truthy p); [| apply IH; lia].
      destruct (truthy (str_strip (bytes_decode p))); cbn [andb]; [| apply IH; lia].
      destruct (keyword_passes keyword (str_strip (bytes_decode p))); [| apply IH; lia].
      set (d := str_strip (bytes_decode p)).
      replace (yielded ++ d :: filter_map (accept keyword) ps)
        with ((yielded ++ [d]) ++ filter_map (accept keyword) ps)
        by (rewrite <- app_assoc; reflexivity).
      replace (len yielded + 1) with (len (yielded ++ [d]))
        by (rewrite len_app; reflexivity).
      apply IH. rewrite len_app. change (len [d]) with 1. lia.
    + exists (p :: ps ++ [c]).
      rewrite firstn_exact by lia.
      split; [reflexivity | lia].
Qed.

(** The pieces after the first physical line, given a scanned suffix. *)
Lemma tl_split_LF_of_suffix (data : bytes) (k : nat) (c : bytes) (ps : list bytes) :
  split_LF (skipn k data) = c :: ps ->
  exists front, tl (split_LF data) = front ++ ps.
Proof.
  intros H. rewrite (split_LF_of_suffix data k c ps H).
  pose proof (split_LF_not_nil (firstn k data ++ c)) as Hne.
  destruct (split_LF (firstn k data ++ c)) as [| h t]; [contradiction |].
  exists t. reflexivity.
Qed.

(** Invariant of the outer loop of the generator: the values yielded so
    far are the newest [n] accepted pieces after the first piece of the
    scanned bytes, and while the budget lasts the buffer holds exactly that
    first piece.  The generator ends having yielded the newest [n] accepted
    pieces after the first piece of the whole file: the first physical line
    stays in the buffer. *)
Lemma scan_streaming_spec (data : bytes) :
  forall (fuel : nat) (position : Z) (c : bytes) (ps : list bytes)
         (buffer : list bytes) (yielded : list str) (lines_yielded : Z)
         (io : list io_event),
    0 <= position <= len data ->
    (Z.to_nat position <= fuel)%nat ->
    split_LF (skipn (Z.to_nat position) data) = c :: ps ->
    yielded = firstn (Z.to_nat n) (newest ps) ->
    lines_yielded = len yielded ->
    (len yielded < n -> buffer = [c] \/ (buffer = [] /\ c = [])) ->
    exists io',
      scan_streaming cfg fuel data n keyword position buffer yielded lines_yielded io =
      Some (firstn (Z.to_nat n) (newest (tl (split_LF data))), io ++ io')
      /\ cursor_chain cfg position io'
      /\ (0 < position -> len yielded < n -> io' <> []).
Proof.
  assert (Hdone : forall position c ps,
             split_LF (skipn (Z.to_nat position) data) = c :: ps ->
             position = 0 \/ n <= len (firstn (Z.to_nat n) (newest ps)) ->
             firstn (Z.to_nat n) (newest ps) =
             firstn (Z.to_nat n) (newest (tl (split_LF data)))).
  { intros position c ps Hsplit [-> | Hfull].
    - simpl in Hsplit. rewrite Hsplit. reflexivity.
    - destruct (tl_split_LF_of_suffix data _ c ps Hsplit) as (front & ->).
      rewrite newest_app, firstn_app_long; [reflexivity |].
      unfold len in *. rewrite length_firstn in Hfull. lia. }
  induction fuel as [| fuel IH];
    intros position c ps buffer yielded lines_yielded io Hpos Hfuel Hsplit -> -> Hbuf.
  - assert (position = 0) as -> by lia.
    exists []. split; [| split; [exact I | intros; lia]].
    cbn [scan_streaming Z.gtb Z.compare andb].
    rewrite app_nil_r, (Hdone 0 c ps) by auto. reflexivity.
  - cbn [scan_streaming].
    destruct (Z.gtb_spec position 0) as [Hgt | Hle]; cbn [andb].
    + destruct (Z.ltb_spec (len (firstn (Z.to_nat n) (newest ps))) n) as [Hlt | Hge].
      * specialize (Hbuf Hlt).
        assert (Hshort := firstn_budget_short _ Hlt).
        rewrite Hshort in *. clear Hshort.
        destruct (backward_step data position c ps) as (Hcs & Hp' & Hsplit');
          [lia | exact Hsplit |].
        set (chunk_size := Z.min (CHUNK_SIZE cfg) position) in *.
        set (position' := position - chunk_size) in *.
        set (chunk := read_at data position' chunk_size) in *.
        assert (Hc : has_LF c = false).
        { pose proof (hd_split_LF_no_delim (skipn (Z.to_nat position) data)) as H.
          rewrite Hsplit in H. exact H. }
        assert (Hbuffer :
                  (let '(lines, buffer0) :=
                     if truthy buffer
                     then (append_to_last (split_LF chunk) (hd [] buffer), tl buffer)
                     else (split_LF chunk, buffer) in
                   rev lines ++ buffer0) = rev (split_LF (chunk ++ c))).
        { destruct Hbuf as [-> | [-> ->]]; cbn [truthy hd tl].
          - rewrite app_nil_r, split_LF_app_carry by exact Hc. reflexivity.
          - rewrite !app_nil_r. reflexivity. }
        destruct (split_LF (chunk ++ c)) as [| c' ps'] eqn:E;
          [exfalso; eapply split_LF_not_nil; eassumption |].
        cbn [rev] in Hbuffer.
        destruct (drain_buffer_spec (rev ps') c' (newest ps)) as (buffer' & Hdrain & Hcarry);
          [lia |].
        rewrite <- newest_app in Hdrain, Hcarry.
        destruct (IH position' c' (ps' ++ ps) buffer'
                    (firstn (Z.to_nat n) (newest (ps' ++ ps)))
                    (len (firstn (Z.to_nat n) (newest (ps' ++ ps))))
                    (io ++ [ReadAt position' chunk_size]))
          as (io' & Hrun & Hchain & _); auto; try lia.
        exists (ReadAt position' chunk_size :: io'). split.
        -- fold chunk_size position' chunk.
           destruct (if truthy buffer
                     then (append_to_last (split_LF chunk) (hd [] buffer), tl buffer)
                     else (split_LF chunk, buffer)) as [lines0 buffer0].
           rewrite Hbuffer, Hdrain, Hrun, <- app_assoc. reflexivity.
        -- split; [cbn [cursor_chain]; repeat split; auto; lia | discriminate].
      * exists []. split; [| split; [exact I | intros; lia]].
        rewrite app_nil_r, (Hdone position c ps) by auto. reflexivity.
    + assert (position = 0) as -> by lia.
      exists []. split; [| split; [exact I | intros; lia]].
      rewrite app_nil_r, (Hdone 0 c ps) by auto. reflexivity.
Qed.

End Scan.

(** ** The two readers on a regular file *)

Section Readers.

Context {RT : Runtime}.

Lemma skipn_len (data : bytes) : skipn (Z.to_nat (len data)) data = [].
Proof. unfold len. rewrite Nat2Z.id. apply skipn_all. Qed.

Lemma tail_spec_newest (n : Z) (keyword : option str) (data : bytes) :
  tail_spec n keyword data =
  firstn (Z.to_nat n) (filter_map (accept keyword) (rev (split_LF data))).
Proof.
  unfold tail_spec, matching_lines.
  rewrite filter_map_rev. symmetry. apply firstn_rev_last_n.
Qed.

Lemma tail_spec_after_first_newest (n : Z) (keyword : option str) (data : bytes) :
  tail_spec_after_first n keyword data =
  firstn (Z.to_nat n) (filter_map (accept keyword) (rev (tl (split_LF data)))).
Proof.
  unfold tail_spec_after_first.
  rewrite filter_map_rev. symmetry. apply firstn_rev_last_n.
Qed.

(** The general path of the eager reader computes the contract of [tail]
    for every positive chunk size. *)
Lemma efficient_general_path (cfg : config) (data : bytes) (n : Z)
    (keyword : option str) :
  0 < CHUNK_SIZE cfg -> 1 <= n ->
  exists io,
    scan_efficient cfg (Z.to_nat (len data)) data n keyword (len data) [] [] 0 [] =
    Some (tail_spec n keyword data, io)
    /\ cursor_chain cfg (len data) io
    /\ (0 < len data -> io <> []).
Proof.
  intros Hc Hn.
  destruct (scan_efficient_spec cfg n keyword Hc Hn data (Z.to_nat (len data))
              (len data) [] [] [] 0 [])
    as (io & Hrun & Hchain).
  - pose proof (len_nonneg data). lia.
  - lia.
  - rewrite skipn_len. reflexivity.
  - reflexivity.
  - reflexivity.
  - change (len []) with 0. lia.
  - exists io. rewrite tail_spec_newest. auto.
Qed.

Lemma efficient_on_large_file (cfg : config) (data : bytes) (n : Z)
    (keyword : option str) :
  0 < CHUNK_SIZE cfg -> 1 <= n ->
  CHUNK_SIZE cfg * 10 <= len data <= MAX_FILE_SIZE cfg ->
  exists io,
    read_last_n_lines_efficient cfg (Regular data) n keyword =
    Some (Return (tail_spec n keyword data), io)
    /\ cursor_chain cfg (len data) io
    /\ io <> [].
Proof.
  intros Hc Hn Hsize.
  destruct (efficient_general_path cfg data n keyword Hc Hn)
    as (io & Hrun & Hchain & Hio).
  exists io. split; [| split; [exact Hchain | apply Hio; lia]].
  unfold read_last_n_lines_efficient. cbn [path_exists negb stat_size open_file].
  destruct (Z.eqb_spec (len data) 0); [lia |].
  destruct (Z.gtb_spec (len data) (MAX_FILE_SIZE cfg)); [lia |].
  destruct (Z.ltb_spec (len data) (CHUNK_SIZE cfg * 10)); [lia |].
  rewrite Hrun. reflexivity.
Qed.

(** The generator yields the contract of [tail] taken over the lines after
    the first physical line, for every positive chunk size. *)
Lemma streaming_scan_path (cfg : config) (data : bytes) (n : Z)
    (keyword : option str) :
  0 < CHUNK_SIZE cfg -> 1 <= n ->
  exists io,
    scan_streaming cfg (Z.to_nat (len data)) data n keyword (len data) [] [] 0 [] =
    Some (tail_spec_after_first n keyword data, io)
    /\ cursor_chain cfg (len data) io
    /\ (0 < len data -> io <> []).
Proof.
  intros Hc Hn.
  destruct (scan_streaming_spec cfg n keyword Hc Hn data (Z.to_nat (len data))
              (len data) [] [] [] [] 0 [])
    as (io & Hrun & Hchain & Hio).
  - pose proof (len_nonneg data). lia.
  - lia.
  - rewrite skipn_len. reflexivity.
  - destruct (Z.to_nat n); reflexivity.
  - reflexivity.
  - auto.
  - exists io. rewrite tail_spec_after_first_newest.
    repeat split; [exact Hrun | exact Hchain |].
    intros Hpos. apply Hio; [exact Hpos | change (len []) with 0; lia].
Qed.

Lemma streaming_on_file (cfg : config) (data : bytes) (n : Z)
    (keyword : option str) :
  0 < CHUNK_SIZE cfg -> 1 <= n ->
  0 < len data <= MAX_FILE_SIZE cfg ->
  exists io,
    read_last_n_lines_streaming cfg (Regular data) n keyword =
    Some (tail_spec_after_first n keyword data, Return tt, io)
    /\ cursor_chain cfg (len data) io
    /\ io <> [].
Proof.
  intros Hc Hn Hsize.
  destruct (streaming_scan_path cfg data n keyword Hc Hn) as (io & Hrun & Hchain & Hio).
  exists io. split; [| split; [exact Hchain | apply Hio; lia]].
  unfold read_last_n_lines_streaming. cbn [path_exists negb stat_size open_file].
  destruct (Z.eqb_spec (len data) 0); [lia |].
  destruct (Z.gtb_spec (len data) (MAX_FILE_SIZE cfg)); [lia |].
  rewrite Hrun. reflexivity.
Qed.

(** What the small-file branch returns: the last [n] raw lines of the text,
    line terminators kept and blank lines included, newest first; the
    keyword test is applied to the raw lines, and only for a non-empty
    keyword. *)
Lemma efficient_on_small_file (cfg : config) (data : bytes) (n : Z)
    (keyword : option str) :
  1 <= n ->
  0 < len data <= MAX_FILE_SIZE cfg ->
  len data < CHUNK_SIZE cfg * 10 ->
  read_last_n_lines_efficient cfg (Regular data) n keyword =
  Some (Return (rev (last_n (Z.to_nat n)
                       (if keyword_truthy keyword
                        then filter (keyword_passes keyword) (readlines data)
                        else readlines data))),
        [ReadLines]).
Proof.
  intros Hn Hsize Hsmall.
  unfold read_last_n_lines_efficient. cbn [path_exists negb stat_size open_file].
  destruct (Z.eqb_spec (len data) 0); [lia |].
  destruct (Z.gtb_spec (len data) (MAX_FILE_SIZE cfg)); [lia |].
  destruct (Z.ltb_spec (len data) (CHUNK_SIZE cfg * 10)); [| lia].
  unfold read_small. rewrite slice_from_neg by exact Hn. reflexivity.
Qed.

(** The length promised by the contract of [tail]. *)
Lemma tail_spec_length (n : Z) (keyword : option str) (data : bytes) :
  length (tail_spec n keyword data) =
  Nat.min (Z.to_nat n) (length (matching_lines keyword data)).
Proof.
  unfold tail_spec, last_n. rewrite length_rev, length_skipn. lia.
Qed.

(** Without budget neither scan enters its loop. *)
Lemma scan_efficient_no_budget (cfg : config) (data : bytes) (n : Z)
    (keyword : option str) (fuel : nat) (position : Z) :
  n <= 0 ->
  scan_efficient cfg fuel data n keyword position [] [] 0 [] = Some ([], []).
Proof.
  intros Hn.
  assert (Hcond : (position >? 0) && (0 <? n * 2) = false).
  { destruct (Z.ltb_spec 0 (n * 2)); [lia | apply andb_false_r]. }
  destruct fuel; cbn [scan_efficient]; rewrite Hcond;
    unfold handle_remaining, slice_to; cbn [truthy andb];
    rewrite firstn_nil; reflexivity.
Qed.

Lemma scan_streaming_no_budget (cfg : config) (data : bytes) (n : Z)
    (keyword : option str) (fuel : nat) (position : Z) :
  n <= 0 ->
  scan_streaming cfg fuel data n keyword position [] [] 0 [] = Some ([], []).
Proof.
  intros Hn.
  assert (Hcond : (position >? 0) && (0 <? n) = false).
  { destruct (Z.ltb_spec 0 n); [lia | apply andb_false_r]. }
  destruct fuel; cbn [scan_streaming]; rewrite Hcond; reflexivity.
Qed.

(** With a positive chunk size both readers complete on every target, for
    every [n]: the scans never run out of iterations. *)
Lemma readers_complete (cfg : config) (filepath : path_target) (n : Z)
    (keyword : option str) :
  0 < CHUNK_SIZE cfg ->
  (exists r, read_last_n_lines_efficient cfg filepath n keyword = Some r)
  /\ (exists r, read_last_n_lines_streaming cfg filepath n keyword = Some r).
Proof.
  intros Hc.
  assert (He : forall data, exists r,
               scan_efficient cfg (Z.to_nat (len data)) data n keyword
                 (len data) [] [] 0 [] = Some r).
  { intros data. destruct (Z.le_gt_cases n 0) as [Hn | Hn].
    - eexists. apply scan_efficient_no_budget, Hn.
    - destruct (efficient_general_path cfg data n keyword Hc) as (io & -> & _);
        [lia | eauto]. }
  assert (Hs : forall data, exists r,
               scan_streaming cfg (Z.to_nat (len data)) data n keyword
                 (len data) [] [] 0 [] = Some r).
  { intros data. destruct (Z.le_gt_cases n 0) as [Hn | Hn].
    - eexists. apply scan_streaming_no_budget, Hn.
    - destruct (streaming_scan_path cfg data n keyword Hc) as (io & -> & _);
        [lia | eauto]. }
  unfold read_last_n_lines_efficient, read_last_n_lines_streaming.
  destruct filepath as [| sz | data | sz]; cbn [path_exists negb stat_size open_file].
  - split; eauto.
  - split; case_conditions; eauto.
  - destruct (He data) as ([lines io] & ->). destruct (Hs data) as ([yielded io'] & ->).
    split; case_conditions; eauto.
  - split; case_conditions; eauto.
Qed.

(** X7.  Where the two readers part on the general path: when the first
    physical line of the file is accepted and the budget is not exhausted
    before it, the eager reader returns what the generator yields followed
    by that line. *)
Lemma eager_is_streaming_and_first_line (cfg : config) (data : bytes) (n : Z)
    (keyword : option str) (first : str) :
  0 < CHUNK_SIZE cfg -> 1 <= n ->
  CHUNK_SIZE cfg * 10 <= len data <= MAX_FILE_SIZE cfg ->
  accept keyword (hd [] (split_LF data)) = Some first ->
  (length (matching_lines keyword data) <= Z.to_nat n)%nat ->
  exists yielded io io',
    read_last_n_lines_streaming cfg (Regular data) n keyword =
    Some (yielded, Return tt, io)
    /\ read_last_n_lines_efficient cfg (Regular data) n keyword =
       Some (Return (yielded ++ [first]), io').
Proof.
  intros Hc Hn Hsize Hfirst Hbudget.
  destruct (streaming_on_file cfg data n keyword Hc Hn) as (io & Hs & _); [lia |].
  destruct (efficient_on_large_file cfg data n keyword Hc Hn Hsize) as (io' & He & _).
  exists (tail_spec_after_first n keyword data), io, io'.
  split; [exact Hs |]. rewrite He. do 3 f_equal.
  unfold tail_spec, tail_spec_after_first, matching_lines, last_n in *.
  rewrite (split_LF_cons data) in Hbudget |- *.
  cbn [filter_map tl] in Hbudget |- *. rewrite Hfirst in Hbudget |- *.
  cbn [length] in Hbudget |- *.
  set (rest := filter_map (accept keyword) (tl (split_LF data))) in *.
  rewrite !Nat.min_r by lia.
  replace (S (length rest) - S (length rest))%nat with 0%nat by lia.
  rewrite Nat.sub_diag. reflexivity.
Qed.

End Readers.

(** ** Byte offsets of the physical lines *)

Lemma starts_after_above (l : bytes) :
  forall base, Forall (fun off => (base < off)%nat) (starts_after base l).
Proof.
  induction l as [| c t IH]; intros base; simpl; [constructor |].
  assert (H : Forall (fun off => (base < off)%nat) (starts_after (S base) t)).
  { eapply Forall_impl; [| apply IH]. simpl. intros; lia. }
  destruct (is_LF c); [constructor; [lia | exact H] | exact H].
Qed.

Lemma starts_after_sorted (l : bytes) :
  forall base, StronglySorted lt (starts_after base l).
Proof.
  induction l as [| c t IH]; intros base; simpl; [constructor |].
  destruct (is_LF c); [| apply IH].
  constructor; [apply IH | apply starts_after_above].
Qed.

Lemma line_starts_sorted (data : bytes) : StronglySorted lt (line_starts data).
Proof.
  unfold line_starts.
  constructor; [apply starts_after_sorted | apply starts_after_above].
Qed.

Lemma starts_after_delim (l : bytes) :
  forall base off,
    In off (starts_after base l) ->
    exists k, off = S k /\ (base <= k)%nat /\ nth_error l (k - base) = Some LF.
Proof.
  induction l as [| c t IH]; intros base off; simpl; [intros [] |].
  assert (Hrec : In off (starts_after (S base) t) ->
                 exists k, off = S k /\ (base <= k)%nat
                           /\ nth_error (c :: t) (k - base) = Some LF).
  { intros Hin. destruct (IH _ _ Hin) as (k & -> & Hk & Hnth).
    exists k. repeat split; [lia |].
    replace (k - base)%nat with (S (k - S base)) by lia. exact Hnth. }
  destruct (is_LF c) eqn:Hc; [| exact Hrec].
  intros [<- | Hin]; [| auto].
  exists base. rewrite Nat.sub_diag. simpl.
  apply is_LF_eq in Hc. subst c. auto.
Qed.

Lemma line_starts_are_starts (data : bytes) :
  Forall (is_line_start data) (line_starts data).
Proof.
  unfold line_starts. constructor; [left; reflexivity |].
  apply Forall_forall. intros off Hin.
  destruct (starts_after_delim _ _ _ Hin) as (k & -> & _ & Hnth).
  right. exists k. rewrite Nat.sub_0_r in Hnth. auto.
Qed.

(** The physical lines at the line starts are the pieces of [split]. *)
Lemma lines_at_starts (l : bytes) :
  forall base,
    map (fun off => line_at l (off - base)) (base :: starts_after base l) = split_LF l.
Proof.
  induction l as [| c t IH]; intros base.
  - simpl. rewrite Nat.sub_diag. reflexivity.
  - assert (Hshift : forall offs,
               Forall (fun off => (S base <= off)%nat) offs ->
               map (fun off => line_at (c :: t) (off - base)) offs =
               map (fun off => line_at t (off - S base)) offs).
    { intros offs H. apply map_ext_in. intros off Hin.
      rewrite Forall_forall in H. specialize (H _ Hin).
      replace (off - base)%nat with (S (off - S base)) by lia. reflexivity. }
    assert (Habove : Forall (fun off => (S base <= off)%nat) (starts_after (S base) t)).
    { eapply Forall_impl; [| apply starts_after_above]. simpl. intros; lia. }
    specialize (IH (S base)).
    cbn [starts_after split_LF map]. rewrite Nat.sub_diag.
    change (line_at (c :: t) 0) with (until_LF (c :: t)). cbn [until_LF].
    destruct (is_LF c).
    + f_equal. rewrite Hshift; [exact IH |].
      constructor; [lia | exact Habove].
    + rewrite <- IH. cbn [map]. rewrite Nat.sub_diag, Hshift by exact Habove.
      reflexivity.
Qed.

Lemma split_LF_line_starts (data : bytes) :
  split_LF data = map (line_at data) (line_starts data).
Proof.
  rewrite <- (lines_at_starts data 0). unfold line_starts.
  apply map_ext. intros off. rewrite Nat.sub_0_r. reflexivity.
Qed.

Lemma StronglySorted_snoc {A : Type} (R : A -> A -> Prop) (l : list A) (a : A) :
  StronglySorted R l -> Forall (fun x => R x a) l -> StronglySorted R (l ++ [a]).
Proof.
  induction 1 as [| x l Hs IH Hx]; intros Hall; simpl.
  - repeat constructor.
  - inversion Hall; subst.
    constructor; [apply IH; assumption |].
    apply Forall_app. split; [assumption | repeat constructor; assumption].
Qed.

Lemma StronglySorted_rev {A : Type} (R : A -> A -> Prop) (l : list A) :
  StronglySorted R l -> StronglySorted (fun x y => R y x) (rev l).
Proof.
  induction 1 as [| x l Hs IH Hx]; simpl; [constructor |].
  apply StronglySorted_snoc; [exact IH |].
  apply Forall_forall. intros y Hy. apply in_rev in Hy.
  rewrite Forall_forall in Hx. auto.
Qed.

(** The elements kept by [filter_map], up to a budget, are met in the order
    of the list they come from. *)
Lemma filter_map_sources {A B : Type} (R : A -> A -> Prop) (P : A -> Prop)
    (f : A -> option B) (xs : list A) :
  StronglySorted R xs -> Forall P xs ->
  forall k, exists ys,
    Forall2 (fun x y => P x /\ f x = Some y) ys (firstn k (filter_map f xs))
    /\ StronglySorted R ys
    /\ (forall x, In x ys -> In x xs).
Proof.
  induction 1 as [| a xs Hs IH Ha]; intros HP k.
  - exists []. simpl. rewrite firstn_nil. repeat split; [constructor | constructor | auto].
  - inversion HP as [| ? ? Pa HP']; subst. cbn [filter_map].
    destruct (f a) as [y |] eqn:Hf.
    + destruct k as [| k].
      * exists []. repeat split; [constructor | constructor | intros ? []].
      * destruct (IH HP' k) as (ys & Hall & Hsorted & Hin).
        exists (a :: ys). cbn [firstn]. repeat split.
        -- constructor; auto.
        -- constructor; [exact Hsorted |].
           apply Forall_forall. intros x Hx.
           rewrite Forall_forall in Ha. auto.
        -- intros x [<- | Hx]; [left; reflexivity | right; auto].
    + destruct (IH HP' k) as (ys & Hall & Hsorted & Hin).
      exists ys. repeat split; auto. intros x Hx. right. auto.
Qed.

(** ** Reads of a scan *)

Lemma cursor_chain_reads (cfg : config) (file_size : Z) :
  0 < CHUNK_SIZE cfg ->
  forall (io : list io_event) (position : Z),
    0 <= position <= file_size ->
    cursor_chain cfg position io ->
    Forall (read_in_file file_size) io
    /\ StronglySorted read_below io
    /\ Forall (fun e => snd (read_range e) <= position) io.
Proof.
  intros Hc. induction io as [| e io IH]; intros position Hpos Hchain.
  - repeat split; constructor.
  - destruct e as [| pos size]; [contradiction |].
    destruct Hchain as (Hgt & Hsize & Hp & Hrest).
    assert (Hbounds : 0 <= pos <= file_size) by lia.
    destruct (IH pos Hbounds Hrest) as (Hin & Hsorted & Hbelow).
    repeat split.
    + constructor; [| exact Hin].
      unfold read_in_file. simpl. lia.
    + constructor; [exact Hsorted |].
      eapply Forall_impl; [| exact Hbelow].
      intros e He. unfold read_below. exact He.
    + constructor; [simpl; lia |].
      eapply Forall_impl; [| exact Hbelow]. simpl. intros; lia.
Qed.

(** With the whole file as one chunk, a scan that reads at all reads the
    file once. *)
Lemma cursor_chain_one_piece (cfg : config) (data : bytes) (io : list io_event) :
  cursor_chain (one_piece cfg data) (len data) io ->
  io <> [] ->
  io = [ReadAt 0 (len data)].
Proof.
  destruct io as [| e io]; [contradiction |].
  destruct e as [| pos size]; [contradiction |].
  cbn [cursor_chain one_piece CHUNK_SIZE]. intros (Hgt & -> & -> & Hrest) _.
  rewrite Z.min_id, Z.sub_diag in *.
  destruct io as [| e io]; [reflexivity |].
  destruct e; [contradiction |].
  cbn [cursor_chain] in Hrest. lia.
Qed.

Section Offsets.

Context {RT : Runtime}.

Lemma tail_spec_offsets (n : Z) (keyword : option str) (data : bytes) :
  exists offs,
    emitted_at data keyword offs (tail_spec n keyword data)
    /\ decreasing_offsets offs.
Proof.
  rewrite tail_spec_newest, split_LF_line_starts, <- map_rev, filter_map_map.
  destruct (filter_map_sources (fun earlier later => (later < earlier)%nat)
              (is_line_start data)
              (fun off => accept keyword (line_at data off))
              (rev (line_starts data))) with (k := Z.to_nat n)
    as (offs & Hall & Hsorted & _).
  - apply StronglySorted_rev, line_starts_sorted.
  - apply Forall_rev, line_starts_are_starts.
  - exists offs. split; assumption.
Qed.

Lemma tail_spec_after_first_offsets (n : Z) (keyword : option str) (data : bytes) :
  exists offs,
    emitted_at data keyword offs (tail_spec_after_first n keyword data)
    /\ decreasing_offsets offs.
Proof.
  rewrite tail_spec_after_first_newest, split_LF_line_starts.
  unfold line_starts. cbn [map tl].
  rewrite <- map_rev, filter_map_map.
  pose proof (line_starts_are_starts data) as Hstarts.
  unfold line_starts in Hstarts. inversion Hstarts as [| ? ? _ Htl]; subst.
  destruct (filter_map_sources (fun earlier later => (later < earlier)%nat)
              (is_line_start data)
              (fun off => accept keyword (line_at data off))
              (rev (starts_after 0 data))) with (k := Z.to_nat n)
    as (offs & Hall & Hsorted & _).
  - apply StronglySorted_rev, starts_after_sorted.
  - apply Forall_rev, Htl.
  - exists offs. split; assumption.
Qed.

End Offsets.

(* ===================================================================== *)
(** * Error handling *)

Section Errors.

Context {RT : Runtime}.
Variable cfg : config.

(** C6.  A target whose size exceeds a (non-negative) configured maximum
    makes both [read_last_n_lines_efficient] and
    [read_last_n_lines_streaming] fail with the size-limit error
    ([ValueError]); nothing was yielded and no read was issued. *)
Theorem size_limit_rejected_before_any_read
    (filepath : path_target) (n : Z) (keyword : option str) :
  path_exists filepath = true ->
  0 <= MAX_FILE_SIZE cfg ->
  MAX_FILE_SIZE cfg < stat_size filepath ->
  read_last_n_lines_efficient cfg filepath n keyword = Some (Raise ValueError, [])
  /\ read_last_n_lines_streaming cfg filepath n keyword = Some ([], Raise ValueError, []).
Proof.
  intros Hex Hmax Hsize.
  unfold read_last_n_lines_efficient, read_last_n_lines_streaming.
  rewrite Hex. cbn [negb].
  destruct (Z.eqb_spec (stat_size filepath) 0); [lia |].
  destruct (Z.gtb_spec (stat_size filepath) (MAX_FILE_SIZE cfg)); [| lia].
  split; reflexivity.
Qed.


(** C10.  On an existing empty file the generator yields nothing and ends
    normally, whatever the configured maximum (even a negative one, so the
    size-limit test is not what decides) and without any read. *)
Theorem streaming_empty_file (n : Z) (keyword : option str) :
  read_last_n_lines_streaming cfg (Regular []) n keyword = Some ([], Return tt, []).
Proof. reflexivity. Qed.

End Errors.

(* ===================================================================== *)
(** * The keyword filter *)

Section Keyword.

Context {RT : Runtime}.
Variable cfg : config.

Lemma str_contains_empty (hay : str) : str_contains [] hay = true.
Proof. destruct hay; reflexivity. Qed.

Section Extensionality.

(** Two keywords that pass the same lines drive the scans alike. *)
Variables kw1 kw2 : option str.
Hypothesis same_filter : forall d, keyword_passes kw1 d = keyword_passes kw2 d.

Lemma find_lines_ext (n : Z) :
  forall fuel buffer lines lines_found,
    find_lines fuel n kw1 buffer lines lines_found =
    find_lines fuel n kw2 buffer lines lines_found.
Proof.
  induction fuel as [| fuel IH]; intros buffer lines lines_found; [reflexivity |].
  cbn [find_lines]. rewrite same_filter.
  case_conditions; auto.
Qed.

Lemma handle_remaining_ext (n : Z) buffer lines lines_found :
  handle_remaining n kw1 buffer lines lines_found =
  handle_remaining n kw2 buffer lines lines_found.
Proof. unfold handle_remaining. rewrite same_filter. reflexivity. Qed.

Lemma scan_efficient_ext (data : bytes) (n : Z) :
  forall fuel position buffer lines lines_found io,
    scan_efficient cfg fuel data n kw1 position buffer lines lines_found io =
    scan_efficient cfg fuel data n kw2 position buffer lines lines_found io.
Proof.
  induction fuel as [| fuel IH]; intros position buffer lines lines_found io;
    cbn [scan_efficient]; rewrite handle_remaining_ext; [reflexivity |].
  destruct ((position >? 0) && (lines_found <? n * 2)); [| reflexivity].
  rewrite find_lines_ext.
  destruct (find_lines _ n kw2 _ lines lines_found) as [[lines' | buffer' lines' found'] |];
    auto.
Qed.

Lemma drain_buffer_ext (n : Z) :
  forall buffer yielded lines_yielded,
    drain_buffer n kw1 buffer yielded lines_yielded =
    drain_buffer n kw2 buffer yielded lines_yielded.
Proof.
  induction buffer as [| line rest IH]; intros yielded lines_yielded; [reflexivity |].
  cbn [drain_buffer]. rewrite same_filter.
  case_conditions; auto.
Qed.

Lemma scan_streaming_ext (data : bytes) (n : Z) :
  forall fuel position buffer yielded lines_yielded io,
    scan_streaming cfg fuel data n kw1 position buffer yielded lines_yielded io =
    scan_streaming cfg fuel data n kw2 position buffer yielded lines_yielded io.
Proof.
  induction fuel as [| fuel IH]; intros position buffer yielded lines_yielded io;
    cbn [scan_streaming]; [reflexivity |].
  destruct ((position >? 0) && (lines_yielded <? n)); [| reflexivity].
  destruct (if truthy buffer then _ else _) as [lines0 buffer0].
  rewrite drain_buffer_ext.
  destruct (drain_buffer n kw2 _ yielded lines_yielded) as [[buffer' yielded'] count'].
  apply IH.
Qed.

End Extensionality.

(** C9.  The empty keyword gives exactly what no keyword gives, in the
    small-file branch, in the general path of the eager reader and in the
    generator: same completion, same values, same reads.  The runtime is
    asked only that lowering the empty string gives the empty string. *)
Theorem empty_keyword_is_no_keyword (filepath : path_target) (n : Z) :
  str_lower [] = [] ->
  read_last_n_lines_efficient cfg filepath n (Some []) =
  read_last_n_lines_efficient cfg filepath n None
  /\ read_last_n_lines_streaming cfg filepath n (Some []) =
     read_last_n_lines_streaming cfg filepath n None.
Proof.
  intros Hlower.
  assert (Hsame : forall d, keyword_passes (Some []) d = keyword_passes None d).
  { intros d. cbn [keyword_passes]. rewrite Hlower. apply str_contains_empty. }
  unfold read_last_n_lines_efficient, read_last_n_lines_streaming, read_small.
  cbn [keyword_truthy truthy].
  split.
  - destruct (open_file filepath) as [data |]; [| reflexivity].
    rewrite (scan_efficient_ext _ _ Hsame). reflexivity.
  - destruct (open_file filepath) as [data |]; [| reflexivity].
    rewrite (scan_streaming_ext _ _ Hsame). reflexivity.
Qed.

End Keyword.

Section Filter.

Context {RT : Runtime}.
Variable cfg : config.

Lemma in_firstn_in {A : Type} (k : nat) (l : list A) (x : A) :
  In x (firstn k l) -> In x l.
Proof.
  intros H. rewrite <- (firstn_skipn k l). apply in_or_app. left. exact H.
Qed.

Lemma in_skipn_in {A : Type} (k : nat) (l : list A) (x : A) :
  In x (skipn k l) -> In x l.
Proof.
  intros H. rewrite <- (firstn_skipn k l). apply in_or_app. right. exact H.
Qed.

Lemma accept_passes (keyword : option str) (piece : bytes) (decoded : str) :
  accept keyword piece = Some decoded -> keyword_passes keyword decoded = true.
Proof.
  unfold accept. destruct (truthy piece); [| discriminate].
  destruct (truthy (str_strip (bytes_decode piece))); [| discriminate].
  cbn [andb].
  destruct (keyword_passes keyword (str_strip (bytes_decode piece))) eqn:E;
    [| discriminate].
  intros H. injection H as <-. exact E.
Qed.

Lemma tail_spec_passes (n : Z) (keyword : option str) (data : bytes) (line : str) :
  In line (tail_spec n keyword data) -> keyword_passes keyword line = true.
Proof.
  rewrite tail_spec_newest. intros H. apply in_firstn_in in H.
  apply filter_map_In in H as (piece & _ & Hacc).
  eapply accept_passes, Hacc.
Qed.

Lemma read_small_passes (data : bytes) (n : Z) (k : str) (line : str) :
  str_lower [] = [] ->
  In line (read_small data n (Some k)) ->
  str_contains (str_lower k) (str_lower line) = true.
Proof.
  intros Hlower. unfold read_small. rewrite <- in_rev.
  unfold slice_from. intros H. apply in_skipn_in in H. revert H.
  cbn [keyword_truthy]. destruct k as [| c k]; cbn [truthy].
  - intros _. rewrite Hlower. apply str_contains_empty.
  - intros H. apply filter_In in H as [_ H]. exact H.
Qed.

(** No accepted line of the file is missing from the contract of [tail]
    unless [n] newer accepted lines fill the budget. *)
Lemma tail_spec_complete (n : Z) (keyword : option str) (data : bytes)
    (piece : bytes) (decoded : str) :
  In piece (split_LF data) ->
  accept keyword piece = Some decoded ->
  In decoded (tail_spec n keyword data)
  \/ length (tail_spec n keyword data) = Z.to_nat n.
Proof.
  intros Hin Hacc. rewrite tail_spec_newest.
  set (all := filter_map (accept keyword) (rev (split_LF data))).
  assert (Hall : In decoded all).
  { apply filter_map_In. exists piece. split; [apply in_rev; rewrite rev_involutive |];
      assumption. }
  destruct (Nat.le_gt_cases (length all) (Z.to_nat n)) as [Hle | Hgt].
  - left. rewrite firstn_all2 by exact Hle. exact Hall.
  - right. rewrite length_firstn. lia.
Qed.

(** The tests of the code against containment as the specification words
    it. *)
Lemma str_startswith_prefix (hay needle : str) :
  str_startswith hay needle = true <-> exists after, hay = needle ++ after.
Proof.
  revert hay. induction needle as [| a needle IH]; intros hay.
  - split; [intros _; exists hay; reflexivity | destruct hay; reflexivity].
  - destruct hay as [| c hay]; cbn [str_startswith].
    + split; [discriminate | intros (after & H); discriminate H].
    + rewrite andb_true_iff, N.eqb_eq, IH. split.
      * intros (-> & after & ->). exists after. reflexivity.
      * intros (after & H). injection H as -> ->. eauto.
Qed.

Lemma str_contains_is_substring (needle hay : str) :
  str_contains needle hay = true <-> is_substring needle hay.
Proof.
  unfold is_substring. induction hay as [| c hay IH].
  - cbn [str_contains]. rewrite orb_false_r, str_startswith_prefix. split.
    + intros (after & H). exists [], after. exact H.
    + intros (before & after & H). destruct before as [| x before]; [eauto |].
      discriminate H.
  - cbn [str_contains]. rewrite orb_true_iff, str_startswith_prefix, IH. split.
    + intros [(after & H) | (before & after & ->)].
      * exists [], after. exact H.
      * exists (c :: before), after. reflexivity.
    + intros (before & after & H). destruct before as [| x before].
      * left. eauto.
      * right. injection H as -> ->. eauto.
Qed.

Lemma keyword_passes_matches (keyword : option str) (line : str) :
  keyword_passes keyword line = true <-> keyword_matches keyword line.
Proof.
  destruct keyword as [k |]; cbn [keyword_passes keyword_matches].
  - apply str_contains_is_substring.
  - split; auto.
Qed.

Lemma accept_matches (keyword : option str) (piece : bytes) :
  piece <> [] ->
  str_strip (bytes_decode piece) <> [] ->
  keyword_matches keyword (str_strip (bytes_decode piece)) ->
  accept keyword piece = Some (str_strip (bytes_decode piece)).
Proof.
  intros Hpiece Hdecoded Hmatch. unfold accept.
  destruct piece as [| c piece]; [contradiction |]. cbn [truthy].
  destruct (str_strip (bytes_decode (c :: piece))) as [| d decoded] eqn:E;
    [contradiction |].
  cbn [truthy andb]. rewrite (proj2 (keyword_passes_matches _ _) Hmatch).
  reflexivity.
Qed.

(** The lines the small-file branch keeps all match, and none that matches
    is dropped before the cut. *)
Lemma small_file_kept (keyword : option str) (data : bytes) :
  str_lower [] = [] ->
  let kept := if keyword_truthy keyword
              then filter (keyword_passes keyword) (readlines data)
              else readlines data in
  (forall line, In line kept -> keyword_matches keyword line)
  /\ (forall line, In line (readlines data) -> keyword_matches keyword line ->
        In line kept).
Proof.
  intros Hlower. destruct keyword as [[| c k] |]; cbn [keyword_truthy truthy]; split.
  - intros line _. cbn [keyword_matches]. rewrite Hlower. exists [], (str_lower line).
    reflexivity.
  - auto.
  - intros line Hin. apply filter_In in Hin as [_ Hpass].
    apply keyword_passes_matches, Hpass.
  - intros line Hin Hmatch. apply filter_In. split; [exact Hin |].
    apply keyword_passes_matches, Hmatch.
  - intros line _. exact I.
  - auto.
Qed.

Lemma in_last_n_or_full {A : Type} (k : nat) (l : list A) (x : A) :
  In x l -> In x (rev (last_n k l)) \/ length (rev (last_n k l)) = k.
Proof.
  intros Hin. unfold last_n. rewrite length_rev, length_skipn.
  destruct (Nat.le_gt_cases (length l) k) as [Hle | Hgt].
  - left. apply in_rev. rewrite rev_involutive.
    replace (length l - k)%nat with 0%nat by lia. exact Hin.
  - right. lia.
Qed.

(** C5.  The keyword filter of [tail], against the matcher of the
    specification, on a file within the size limit, for every positive
    chunk size.  Every line returned matches: with a keyword it contains
    the keyword once both are lowered.  And there are no false negatives:
    a line of the file that matches (every line, when the keyword is
    absent) is returned unless [n] lines are returned already, on the
    small-file branch for the lines as read, and on the general path for
    every non-empty normalized line, wherever the chunk reads cut it. *)
Theorem keyword_filter_sound_and_complete (data : bytes) (n : Z)
    (keyword : option str) :
  0 < CHUNK_SIZE cfg -> 1 <= n -> str_lower [] = [] ->
  0 < len data <= MAX_FILE_SIZE cfg ->
  exists lines io,
    read_last_n_lines_efficient cfg (Regular data) n keyword = Some (Return lines, io)
    /\ (forall line, In line lines -> keyword_matches keyword line)
    /\ (len data < CHUNK_SIZE cfg * 10 ->
        forall line,
          In line (readlines data) ->
          keyword_matches keyword line ->
          In line lines \/ length lines = Z.to_nat n)
    /\ (CHUNK_SIZE cfg * 10 <= len data ->
        forall piece,
          In piece (split_LF data) ->
          piece <> [] ->
          str_strip (bytes_decode piece) <> [] ->
          keyword_matches keyword (str_strip (bytes_decode piece)) ->
          In (str_strip (bytes_decode piece)) lines \/ length lines = Z.to_nat n).
Proof.
  intros Hc Hn Hlower Hsize.
  destruct (Z.lt_ge_cases (len data) (CHUNK_SIZE cfg * 10)) as [Hsmall | Hlarge].
  - rewrite (efficient_on_small_file cfg data n keyword Hn Hsize Hsmall).
    destruct (small_file_kept keyword data Hlower) as [Hsound Hcomplete].
    do 2 eexists. split; [reflexivity |]. split; [| split].
    + intros line Hin. apply Hsound. apply in_rev in Hin.
      unfold last_n in Hin. apply in_skipn_in in Hin. exact Hin.
    + intros _ line Hin Hmatch. apply in_last_n_or_full, Hcomplete; assumption.
    + intros Habsurd. lia.
  - destruct (efficient_on_large_file cfg data n keyword Hc Hn) as (io & -> & _);
      [lia |].
    exists (tail_spec n keyword data), io. split; [reflexivity |]. split; [| split].
    + intros line Hin. apply keyword_passes_matches.
      exact (tail_spec_passes _ _ _ _ Hin).
    + intros Habsurd. lia.
    + intros _ piece Hin Hpiece Hdecoded Hmatch.
      apply (tail_spec_complete n keyword data piece); [exact Hin |].
      apply accept_matches; assumption.
Qed.

End Filter.

(* ===================================================================== *)
(** * Chunk boundaries and the cursor *)

Section Chunks.

Context {RT : Runtime}.
Variable cfg : config.
Variable data : bytes.
Variable n : Z.
Variable keyword : option str.

Hypothesis chunk_positive : 0 < CHUNK_SIZE cfg.
Hypothesis n_positive : 1 <= n.
Hypothesis file_size_ok : 0 < len data <= MAX_FILE_SIZE cfg.

Lemma one_piece_positive : 0 < CHUNK_SIZE (one_piece cfg data).
Proof. cbn [one_piece CHUNK_SIZE]. lia. Qed.

(** C4.  Whatever the chunk size, and so wherever the chunk boundaries cut
    the lines, both scans give what they give when the whole file is read
    as one chunk (a single read of [len data] bytes at offset [0]): the
    generator on every non-empty file, the eager reader on every file that
    takes its general path.  The lines are those of the file split as a
    whole. *)
Theorem chunk_spanning_lines_reassembled :
  (exists io,
      read_last_n_lines_streaming cfg (Regular data) n keyword =
      Some (tail_spec_after_first n keyword data, Return tt, io)
      /\ read_last_n_lines_streaming (one_piece cfg data) (Regular data) n keyword =
         Some (tail_spec_after_first n keyword data, Return tt, [ReadAt 0 (len data)]))
  /\ (CHUNK_SIZE cfg * 10 <= len data ->
      exists io,
        read_last_n_lines_efficient cfg (Regular data) n keyword =
        Some (Return (tail_spec n keyword data), io)
        /\ scan_efficient (one_piece cfg data) (Z.to_nat (len data)) data n keyword
             (len data) [] [] 0 [] =
           Some (tail_spec n keyword data, [ReadAt 0 (len data)])).
Proof.
  split.
  - destruct (streaming_on_file cfg data n keyword chunk_positive n_positive file_size_ok)
      as (io & Hrun & _).
    destruct (streaming_on_file (one_piece cfg data) data n keyword
                one_piece_positive n_positive file_size_ok)
      as (io1 & Hrun1 & Hchain1 & Hio1).
    exists io. split; [exact Hrun |].
    rewrite Hrun1, (cursor_chain_one_piece cfg data io1 Hchain1 Hio1). reflexivity.
  - intros Hlarge.
    destruct (efficient_on_large_file cfg data n keyword chunk_positive n_positive)
      as (io & Hrun & _); [lia |].
    destruct (efficient_general_path (one_piece cfg data) data n keyword
                one_piece_positive n_positive)
      as (io1 & Hrun1 & Hchain1 & Hio1).
    exists io. split; [exact Hrun |].
    rewrite Hrun1, (cursor_chain_one_piece cfg data io1 Hchain1) by (apply Hio1; lia).
    reflexivity.
Qed.

Lemma disciplined_from_chain (lines : list str) (io : list io_event) :
  cursor_chain cfg (len data) io ->
  (exists offs, emitted_at data keyword offs lines /\ decreasing_offsets offs) ->
  disciplined_scan cfg data keyword lines io.
Proof.
  intros Hchain Hoffs.
  destruct (cursor_chain_reads cfg (len data) chunk_positive io (len data))
    as (Hin & Hsorted & _); [lia | exact Hchain |].
  unfold disciplined_scan. auto.
Qed.

(** C8.  In every scan the cursor starts at the file size, each read has
    size [min(CHUNK_SIZE, position)] and moves the cursor down by that
    size, the cursor stays within [[0, file_size]], no two reads overlap,
    and the emitted lines are physical lines of the file taken at strictly
    decreasing byte offsets: for the generator on every non-empty file, for
    the eager reader on every file that takes its general path. *)
Theorem scan_cursor_discipline :
  (exists yielded io,
      read_last_n_lines_streaming cfg (Regular data) n keyword =
      Some (yielded, Return tt, io)
      /\ disciplined_scan cfg data keyword yielded io)
  /\ (CHUNK_SIZE cfg * 10 <= len data ->
      exists lines io,
        read_last_n_lines_efficient cfg (Regular data) n keyword =
        Some (Return lines, io)
        /\ disciplined_scan cfg data keyword lines io).
Proof.
  split.
  - destruct (streaming_on_file cfg data n keyword chunk_positive n_positive file_size_ok)
      as (io & Hrun & Hchain & _).
    exists (tail_spec_after_first n keyword data), io. split; [exact Hrun |].
    apply disciplined_from_chain; [exact Hchain |].
    apply tail_spec_after_first_offsets.
  - intros Hlarge.
    destruct (efficient_on_large_file cfg data n keyword chunk_positive n_positive)
      as (io & Hrun & Hchain & _); [lia |].
    exists (tail_spec n keyword data), io. split; [exact Hrun |].
    apply disciplined_from_chain; [exact Hchain |].
    apply tail_spec_offsets.
Qed.

End Chunks.

(* ===================================================================== *)
(** * The readers run on explicit files *)

Section Runs.

#[local] Existing Instance basic_latin_runtime.

(** C1.  On the three-line file [b"a\n\nb\n"] with [n = 3] and no keyword
    the contract of [tail] is [["b"; "a"]], but [tail] takes the small-file
    branch and returns the raw lines, terminators and blank line included:
    [["b\n"; "\n"; "a\n"]].  The same 32-byte file gives trimmed lines
    with a two-byte chunk (general path) and raw lines with the
    repository's chunk size (small-file branch). *)
Theorem small_file_branch_returns_raw_lines :
  tail (Regular blank_line_file) 3 None =
  Some (Return [u "b" ++ [NL]; [NL]; u "a" ++ [NL]], [ReadLines])
  /\ tail_spec 3 None blank_line_file = [u "b"; u "a"]
  /\ tail (Regular four_line_file) 2 None =
     Some (Return [u "delta"; u "gamma ERROR" ++ [NL]], [ReadLines])
  /\ (exists io,
         read_last_n_lines_efficient small_chunks (Regular four_line_file) 2 None =
         Some (Return [u "delta"; u "gamma ERROR"], io)).
Proof.
  repeat split; try (vm_compute; reflexivity).
  eexists. vm_compute. reflexivity.
Qed.

(** C2.  On the two-line file [b"a\nb\n"] with [n = 2], [tail] returns
    [["b\n"; "a\n"]] while the generator yields only ["b"].  On the general
    path (32-byte file, two-byte chunk, [n = 10]) the eager reader returns
    all four lines and the generator yields three: the first physical line
    of the file is never yielded. *)
Theorem streaming_differs_from_eager :
  tail (Regular two_line_file) 2 None =
  Some (Return [u "b" ++ [NL]; u "a" ++ [NL]], [ReadLines])
  /\ tail_stream (Regular two_line_file) 2 None =
     Some ([u "b"], Return tt, [ReadAt 0 4])
  /\ (exists io,
         read_last_n_lines_efficient small_chunks (Regular four_line_file) 10 None =
         Some (Return [u "delta"; u "gamma ERROR"; u "beta"; u "alpha one"], io))
  /\ (exists io,
         read_last_n_lines_streaming small_chunks (Regular four_line_file) 10 None =
         Some ([u "delta"; u "gamma ERROR"; u "beta"], Return tt, io)).
Proof.
  repeat split; try (vm_compute; reflexivity);
    eexists; vm_compute; reflexivity.
Qed.

(** C3.  On the one-line file [b"hello"] (no trailing delimiter) with
    [n = 1] the generator reads the five bytes, reaches position [0] with
    the budget untouched, and ends without yielding the line left in its
    buffer; the eager reader returns it. *)
Theorem streaming_leaves_first_line_in_buffer :
  tail_stream (Regular one_line_file) 1 None = Some ([], Return tt, [ReadAt 0 5])
  /\ tail (Regular one_line_file) 1 None = Some (Return [u "hello"], [ReadLines])
  /\ tail_spec 1 None one_line_file = [u "hello"]
  /\ tail_spec_after_first 1 None one_line_file = [].
Proof. repeat split; vm_compute; reflexivity. Qed.


End Runs.

(* ===================================================================== *)
(** * The theorems at concrete inputs *)

Section Instances.

#[local] Existing Instance basic_latin_runtime.

Lemma size_limit_rejected_instance :
  (path_exists (Regular four_line_file) = true
   /\ 0 <= MAX_FILE_SIZE tiny_limit
   /\ MAX_FILE_SIZE tiny_limit < stat_size (Regular four_line_file))
  /\ read_last_n_lines_efficient tiny_limit (Regular four_line_file) 5 None =
     Some (Raise ValueError, [])
  /\ read_last_n_lines_streaming tiny_limit (Regular four_line_file) 5 None =
     Some ([], Raise ValueError, []).
Proof.
  assert (H1 : path_exists (Regular four_line_file) = true) by reflexivity.
  assert (H2 : 0 <= MAX_FILE_SIZE tiny_limit) by (simpl; lia).
  assert (H3 : MAX_FILE_SIZE tiny_limit < stat_size (Regular four_line_file))
    by (vm_compute; reflexivity).
  split; [auto |].
  exact (size_limit_rejected_before_any_read tiny_limit (Regular four_line_file) 5 None
           H1 H2 H3).
Defined.

Lemma empty_keyword_instance :
  str_lower [] = []
  /\ read_last_n_lines_efficient small_chunks (Regular four_line_file) 2 (Some []) =
     read_last_n_lines_efficient small_chunks (Regular four_line_file) 2 None
  /\ read_last_n_lines_streaming small_chunks (Regular four_line_file) 2 (Some []) =
     read_last_n_lines_streaming small_chunks (Regular four_line_file) 2 None.
Proof.
  split; [reflexivity |].
  exact (empty_keyword_is_no_keyword small_chunks (Regular four_line_file) 2 eq_refl).
Defined.

Lemma keyword_filter_instance :
  (0 < CHUNK_SIZE small_chunks /\ 1 <= 2 /\ str_lower [] = []
   /\ 0 < len four_line_file <= MAX_FILE_SIZE small_chunks
   /\ CHUNK_SIZE small_chunks * 10 <= len four_line_file
   /\ 0 < CHUNK_SIZE default_config
   /\ 0 < len four_line_file <= MAX_FILE_SIZE default_config
   /\ len four_line_file < CHUNK_SIZE default_config * 10)
  /\ (exists lines io,
         read_last_n_lines_efficient small_chunks (Regular four_line_file) 2
           (Some (u "error")) = Some (Return lines, io)
         /\ (forall line, In line lines -> keyword_matches (Some (u "error")) line)
         /\ forall piece,
              In piece (split_LF four_line_file) ->
              piece <> [] ->
              str_strip (bytes_decode piece) <> [] ->
              keyword_matches (Some (u "error")) (str_strip (bytes_decode piece)) ->
              In (str_strip (bytes_decode piece)) lines \/ length lines = Z.to_nat 2)
  /\ (exists lines io,
         read_last_n_lines_efficient default_config (Regular four_line_file) 2
           (Some (u "error")) = Some (Return lines, io)
         /\ (forall line, In line lines -> keyword_matches (Some (u "error")) line)
         /\ forall line,
              In line (readlines four_line_file) ->
              keyword_matches (Some (u "error")) line ->
              In line lines \/ length lines = Z.to_nat 2).
Proof.
  assert (H1 : 0 < CHUNK_SIZE small_chunks) by (simpl; lia).
  assert (H2 : 1 <= 2) by lia.
  assert (H3 : str_lower [] = []) by reflexivity.
  assert (H4 : 0 < len four_line_file <= MAX_FILE_SIZE small_chunks)
    by (split; [reflexivity | apply Z.leb_le; reflexivity]).
  assert (H5 : CHUNK_SIZE small_chunks * 10 <= len four_line_file)
    by (apply Z.leb_le; reflexivity).
  assert (H6 : 0 < CHUNK_SIZE default_config) by (simpl; lia).
  assert (H7 : 0 < len four_line_file <= MAX_FILE_SIZE default_config)
    by (split; [reflexivity | apply Z.leb_le; reflexivity]).
  assert (H8 : len four_line_file < CHUNK_SIZE default_config * 10)
    by (apply Z.ltb_lt; reflexivity).
  split; [repeat split; try assumption; apply H4 || apply H7 |].
  split.
  - destruct (keyword_filter_sound_and_complete small_chunks four_line_file 2
                (Some (u "error")) H1 H2 H3 H4)
      as (lines & io & Hrun & Hsound & _ & Hcomplete).
    exists lines, io. auto.
  - destruct (keyword_filter_sound_and_complete default_config four_line_file 2
                (Some (u "error")) H6 H2 H3 H7)
      as (lines & io & Hrun & Hsound & Hcomplete & _).
    exists lines, io. auto.
Defined.

Lemma chunk_spanning_instance :
  (0 < CHUNK_SIZE small_chunks /\ 1 <= 10
   /\ 0 < len four_line_file <= MAX_FILE_SIZE small_chunks
   /\ CHUNK_SIZE small_chunks * 10 <= len four_line_file)
  /\ (exists io,
         read_last_n_lines_streaming small_chunks (Regular four_line_file) 10 None =
         Some (tail_spec_after_first 10 None four_line_file, Return tt, io)
         /\ read_last_n_lines_streaming (one_piece small_chunks four_line_file)
              (Regular four_line_file) 10 None =
            Some (tail_spec_after_first 10 None four_line_file, Return tt,
                  [ReadAt 0 (len four_line_file)]))
  /\ (CHUNK_SIZE small_chunks * 10 <= len four_line_file ->
      exists io,
        read_last_n_lines_efficient small_chunks (Regular four_line_file) 10 None =
        Some (Return (tail_spec 10 None four_line_file), io)
        /\ scan_efficient (one_piece small_chunks four_line_file)
             (Z.to_nat (len four_line_file)) four_line_file 10 None
             (len four_line_file) [] [] 0 [] =
           Some (tail_spec 10 None four_line_file, [ReadAt 0 (len four_line_file)])).
Proof.
  assert (H1 : 0 < CHUNK_SIZE small_chunks) by (simpl; lia).
  assert (H2 : 1 <= 10) by lia.
  assert (H3 : 0 < len four_line_file <= MAX_FILE_SIZE small_chunks)
    by (split; vm_compute; [reflexivity | discriminate]).
  assert (H4 : CHUNK_SIZE small_chunks * 10 <= len four_line_file)
    by (vm_compute; discriminate).
  split; [auto |].
  exact (chunk_spanning_lines_reassembled small_chunks four_line_file 10 None H1 H2 H3).
Defined.

Lemma scan_cursor_instance :
  (0 < CHUNK_SIZE small_chunks /\ 1 <= 10
   /\ 0 < len four_line_file <= MAX_FILE_SIZE small_chunks
   /\ CHUNK_SIZE small_chunks * 10 <= len four_line_file)
  /\ (exists yielded io,
         read_last_n_lines_streaming small_chunks (Regular four_line_file) 10 None =
         Some (yielded, Return tt, io)
         /\ disciplined_scan small_chunks four_line_file None yielded io)
  /\ (CHUNK_SIZE small_chunks * 10 <= len four_line_file ->
      exists lines io,
        read_last_n_lines_efficient small_chunks (Regular four_line_file) 10 None =
        Some (Return lines, io)
        /\ disciplined_scan small_chunks four_line_file None lines io).
Proof.
  assert (H1 : 0 < CHUNK_SIZE small_chunks) by (simpl; lia).
  assert (H2 : 1 <= 10) by lia.
  assert (H3 : 0 < len four_line_file <= MAX_FILE_SIZE small_chunks)
    by (split; vm_compute; [reflexivity | discriminate]).
  assert (H4 : CHUNK_SIZE small_chunks * 10 <= len four_line_file)
    by (vm_compute; discriminate).
  split; [auto |].
  exact (scan_cursor_discipline small_chunks four_line_file 10 None H1 H2 H3).
Defined.

End Instances.

(* ===================================================================== *)
(** * Further properties of the two readers *)

Section Bounds.

Context {RT : Runtime}.
Variable cfg : config.
Variable n : Z.
Variable keyword : option str.

Hypothesis chunk_positive : 0 < CHUNK_SIZE cfg.
Hypothesis n_positive : 1 <= n.

Lemma len_last_n {A : Type} (l : list A) : len (last_n (Z.to_nat n) l) <= n.
Proof. unfold last_n, len. rewrite length_skipn. lia. Qed.

Lemma len_tail_spec (data : bytes) : len (tail_spec n keyword data) <= n.
Proof. unfold len. rewrite tail_spec_length. lia. Qed.

Lemma len_tail_spec_after_first (data : bytes) :
  len (tail_spec_after_first n keyword data) <= n.
Proof.
  rewrite tail_spec_after_first_newest. unfold len. rewrite length_firstn. lia.
Qed.

Lemma len_read_small (data : bytes) : len (read_small data n keyword) <= n.
Proof.
  unfold read_small. rewrite slice_from_neg by exact n_positive.
  unfold len. rewrite length_rev. apply len_last_n.
Qed.

Lemma efficient_scan_returns (data : bytes) :
  exists lines io,
    scan_efficient cfg (Z.to_nat (len data)) data n keyword (len data) [] [] 0 [] =
    Some (lines, io)
    /\ len lines <= n.
Proof.
  destruct (efficient_general_path cfg data n keyword chunk_positive n_positive)
    as (io & Hrun & _).
  exists (tail_spec n keyword data), io. split; [exact Hrun | apply len_tail_spec].
Qed.

(** On a regular file the eager reader either refuses the size or returns
    at most [n] lines. *)
Lemma efficient_on_regular_file (data : bytes) :
  (len data <> 0 /\ MAX_FILE_SIZE cfg < len data
   /\ read_last_n_lines_efficient cfg (Regular data) n keyword =
      Some (Raise ValueError, []))
  \/ ((len data = 0 \/ len data <= MAX_FILE_SIZE cfg)
      /\ exists lines io,
          read_last_n_lines_efficient cfg (Regular data) n keyword =
          Some (Return lines, io)
          /\ len lines <= n).
Proof.
  unfold read_last_n_lines_efficient. cbn [path_exists negb open_file stat_size].
  destruct (Z.eqb_spec (len data) 0) as [Hz | Hnz].
  { right. split; [auto |]. exists [], []. split; [reflexivity |].
    change (len (@nil str)) with 0. lia. }
  destruct (Z.gtb_spec (len data) (MAX_FILE_SIZE cfg)) as [Hbig | Hok].
  { left. auto. }
  right. split; [auto |].
  destruct (Z.ltb_spec (len data) (CHUNK_SIZE cfg * 10)).
  - exists (read_small data n keyword), [ReadLines].
    split; [reflexivity | apply len_read_small].
  - destruct (efficient_scan_returns data) as (lines & io & -> & Hlen).
    exists lines, io. auto.
Qed.

(** X1.  Neither reader gives more than [n] lines: whatever the target,
    the list the eager reader returns (small-file branch or general path)
    and the sequence the generator yields have at most [n] elements. *)
Theorem readers_give_at_most_n (filepath : path_target) :
  (forall lines io,
      read_last_n_lines_efficient cfg filepath n keyword = Some (Return lines, io) ->
      len lines <= n)
  /\ (forall yielded outcome io,
         read_last_n_lines_streaming cfg filepath n keyword =
         Some (yielded, outcome, io) ->
         len yielded <= n).
Proof.
  split.
  - intros lines io. unfold read_last_n_lines_efficient.
    destruct filepath as [| sz | data | sz]; cbn [path_exists negb open_file stat_size].
    + discriminate.
    + case_conditions; intros H; inversion H; subst; change (len (@nil str)) with 0; lia.
    + destruct (efficient_general_path cfg data n keyword chunk_positive n_positive)
        as (io' & -> & _).
      case_conditions; intros H; inversion H; subst;
        [change (len (@nil str)) with 0; lia | apply len_read_small | apply len_tail_spec].
    + case_conditions; intros H; inversion H; subst; change (len (@nil str)) with 0; lia.
  - intros yielded outcome io. unfold read_last_n_lines_streaming.
    destruct filepath as [| sz | data | sz]; cbn [path_exists negb open_file stat_size].
    + intros H; inversion H; subst. change (len (@nil str)) with 0. lia.
    + case_conditions; intros H; inversion H; subst; change (len (@nil str)) with 0; lia.
    + destruct (streaming_scan_path cfg data n keyword chunk_positive n_positive)
        as (io' & -> & _).
      case_conditions; intros H; inversion H; subst;
        [change (len (@nil str)) with 0; lia .. | apply len_tail_spec_after_first].
    + case_conditions; intros H; inversion H; subst; change (len (@nil str)) with 0; lia.
Qed.

End Bounds.

Section Prefix.

Context {RT : Runtime}.
Variable cfg : config.
Variable keyword : option str.
Variables n n' : Z.

Hypothesis chunk_positive : 0 < CHUNK_SIZE cfg.
Hypothesis n_ordered : 1 <= n <= n'.

Lemma firstn_of_larger {A : Type} (l : list A) :
  firstn (Z.to_nat n) l = firstn (Z.to_nat n) (firstn (Z.to_nat n') l).
Proof. rewrite firstn_firstn. f_equal. lia. Qed.

Lemma read_small_newest (data : bytes) (k : Z) :
  1 <= k ->
  read_small data k keyword =
  firstn (Z.to_nat k)
    (rev (if keyword_truthy keyword
          then filter (fun line => keyword_passes keyword line) (readlines data)
          else readlines data)).
Proof.
  intros Hk. unfold read_small. rewrite slice_from_neg by exact Hk.
  unfold last_n. rewrite firstn_rev. reflexivity.
Qed.

(** X2.  Asking for fewer lines gives a prefix of what asking for more
    gives: for [1 <= n <= n'], on the same target, what the eager reader
    returns for [n] is the first [n] elements of what it returns for [n'],
    and likewise for the values the generator yields. *)
Theorem fewer_lines_is_a_prefix (filepath : path_target) :
  (forall lines io lines' io',
      read_last_n_lines_efficient cfg filepath n keyword = Some (Return lines, io) ->
      read_last_n_lines_efficient cfg filepath n' keyword = Some (Return lines', io') ->
      lines = firstn (Z.to_nat n) lines')
  /\ (forall yielded outcome io yielded' outcome' io',
         read_last_n_lines_streaming cfg filepath n keyword =
         Some (yielded, outcome, io) ->
         read_last_n_lines_streaming cfg filepath n' keyword =
         Some (yielded', outcome', io') ->
         yielded = firstn (Z.to_nat n) yielded').
Proof.
  assert (Hn : 1 <= n) by lia. assert (Hn' : 1 <= n') by lia.
  split.
  - intros lines io lines' io'. unfold read_last_n_lines_efficient.
    destruct filepath as [| sz | data | sz]; cbn [path_exists negb open_file stat_size].
    + discriminate.
    + case_conditions; intros H H'; inversion H; inversion H'; subst;
        symmetry; apply firstn_nil.
    + destruct (efficient_general_path cfg data n keyword chunk_positive Hn)
        as (i1 & -> & _).
      destruct (efficient_general_path cfg data n' keyword chunk_positive Hn')
        as (i2 & -> & _).
      case_conditions; intros H H'; inversion H; inversion H'; subst.
      * symmetry; apply firstn_nil.
      * rewrite !read_small_newest by assumption. apply firstn_of_larger.
      * rewrite !tail_spec_newest. apply firstn_of_larger.
    + case_conditions; intros H H'; inversion H; inversion H'; subst;
        symmetry; apply firstn_nil.
  - intros yielded outcome io yielded' outcome' io'. unfold read_last_n_lines_streaming.
    destruct filepath as [| sz | data | sz]; cbn [path_exists negb open_file stat_size].
    + intros H H'; inversion H; inversion H'; subst. symmetry; apply firstn_nil.
    + case_conditions; intros H H'; inversion H; inversion H'; subst;
        symmetry; apply firstn_nil.
    + destruct (streaming_scan_path cfg data n keyword chunk_positive Hn)
        as (i1 & -> & _).
      destruct (streaming_scan_path cfg data n' keyword chunk_positive Hn')
        as (i2 & -> & _).
      case_conditions; intros H H'; inversion H; inversion H'; subst;
        try (symmetry; apply firstn_nil).
      rewrite !tail_spec_after_first_newest. apply firstn_of_larger.
    + case_conditions; intros H H'; inversion H; inversion H'; subst;
        symmetry; apply firstn_nil.
Qed.

End Prefix.

Section KeywordCase.

Context {RT : Runtime}.
Variable cfg : config.

(** X3.  Only the lowered keyword matters: two keywords with the same
    lowered form (and both empty or both non-empty) give the same
    completion, the same lines and the same reads, in both readers. *)
Theorem keyword_case_is_ignored (filepath : path_target) (n : Z) (k1 k2 : str) :
  str_lower k1 = str_lower k2 ->
  truthy k1 = truthy k2 ->
  read_last_n_lines_efficient cfg filepath n (Some k1) =
  read_last_n_lines_efficient cfg filepath n (Some k2)
  /\ read_last_n_lines_streaming cfg filepath n (Some k1) =
     read_last_n_lines_streaming cfg filepath n (Some k2).
Proof.
  intros Hlower Htruthy.
  assert (Hsame : forall d, keyword_passes (Some k1) d = keyword_passes (Some k2) d).
  { intros d. cbn [keyword_passes]. rewrite Hlower. reflexivity. }
  unfold read_last_n_lines_efficient, read_last_n_lines_streaming, read_small.
  cbn [keyword_truthy]. rewrite Htruthy.
  split.
  - destruct (open_file filepath) as [data |]; [| reflexivity].
    rewrite (scan_efficient_ext cfg _ _ Hsame).
    rewrite (filter_ext _ _ Hsame). reflexivity.
  - destruct (open_file filepath) as [data |]; [| reflexivity].
    rewrite (scan_streaming_ext cfg _ _ Hsame). reflexivity.
Qed.

End KeywordCase.

Section ReadsNeeded.

Context {RT : Runtime}.
Variable cfg : config.
Variable n : Z.
Variable keyword : option str.

Hypothesis chunk_positive : 0 < CHUNK_SIZE cfg.
Hypothesis n_positive : 1 <= n.

Local Abbreviation newest pieces := (filter_map (accept keyword) (rev pieces)).

Lemma len_newest (ps : list bytes) :
  len (newest ps) = len (filter_map (accept keyword) ps).
Proof. unfold len. rewrite filter_map_rev, length_rev. reflexivity. Qed.

Lemma read_needed_at (data : bytes) (position size : Z) (c : bytes) (ps : list bytes) :
  split_LF (skipn (Z.to_nat position) data) = c :: ps ->
  len (newest ps) < n ->
  read_needed n keyword data (ReadAt (position - size) size).
Proof.
  intros Hsplit Hlt. cbn [read_needed]. unfold accepted_after.
  replace (position - size + size) with position by lia.
  rewrite Hsplit. cbn [tl]. rewrite <- len_newest. exact Hlt.
Qed.

(** Every read of the eager scan is issued from a cursor position above
    which fewer than [n] accepted lines lie. *)
Lemma scan_efficient_reads_needed (data : bytes) :
  forall (fuel : nat) (position : Z) (c : bytes) (ps : list bytes)
         (lines : list str) (lines_found : Z) (io : list io_event)
         (result : list str) (io_out : list io_event),
    0 <= position <= len data ->
    split_LF (skipn (Z.to_nat position) data) = c :: ps ->
    lines = newest ps ->
    lines_found = len lines ->
    len lines < n ->
    scan_efficient cfg fuel data n keyword position c lines lines_found io =
    Some (result, io_out) ->
    exists new, io_out = io ++ new /\ Forall (read_needed n keyword data) new.
Proof.
  assert (Hstop : forall (io io_out : list io_event) (x y : list str),
             Some (x, io) = Some (y, io_out) ->
             exists new, io_out = io ++ new /\ Forall (read_needed n keyword data) new).
  { intros io io_out x y H. injection H as _ <-.
    exists []. rewrite app_nil_r. split; [reflexivity | constructor]. }
  induction fuel as [| fuel IH];
    intros position c ps lines lines_found io result io_out Hpos Hsplit -> -> Hlt;
    cbn [scan_efficient];
    destruct ((position >? 0) && (len (newest ps) <? n * 2)) eqn:Hcond;
    try discriminate; try (apply Hstop).
  apply andb_prop in Hcond as [Hgt _]. apply Z.gtb_lt in Hgt.
  destruct (backward_step cfg chunk_positive data position c ps) as (Hcs & Hp' & Hsplit');
    [lia | exact Hsplit |].
  set (chunk_size := Z.min (CHUNK_SIZE cfg) position) in *.
  set (position' := position - chunk_size) in *.
  set (chunk := read_at data position' chunk_size) in *.
  pose proof (split_LF_pieces (chunk ++ c)) as Hpieces.
  pose proof (join_split_LF (chunk ++ c)) as Hjoin.
  destruct (split_LF (chunk ++ c)) as [| c' ps'] eqn:E;
    [exfalso; eapply split_LF_not_nil; eassumption |].
  inversion Hpieces as [| ? ? Hc' Hps']; subst.
  assert (Hfind := find_lines_spec n keyword n_positive ps' c'
                     (S (length (chunk ++ c))) (newest ps) Hc' Hps').
  rewrite Hjoin in Hfind. rewrite Hfind by (auto; lia). clear Hfind.
  rewrite <- newest_app.
  assert (Hread : read_needed n keyword data (ReadAt position' chunk_size))
    by (eapply read_needed_at; eassumption).
  destruct (Z.geb_spec (len (newest (ps' ++ ps))) n) as [Hge | Hlt'].
  - intros H. injection H as _ <-.
    exists [ReadAt position' chunk_size]. split; [reflexivity |].
    constructor; [exact Hread | constructor].
  - intros H.
    destruct (IH position' c' (ps' ++ ps) _ _ _ result io_out Hp' Hsplit'
                eq_refl eq_refl Hlt' H) as (new & -> & Hnew).
    exists (ReadAt position' chunk_size :: new). split.
    + rewrite <- app_assoc. reflexivity.
    + constructor; assumption.
Qed.

(** The same for the generator. *)
Lemma scan_streaming_reads_needed (data : bytes) :
  forall (fuel : nat) (position : Z) (c : bytes) (ps : list bytes)
         (buffer : list bytes) (yielded : list str) (lines_yielded : Z)
         (io : list io_event) (result : list str) (io_out : list io_event),
    0 <= position <= len data ->
    split_LF (skipn (Z.to_nat position) data) = c :: ps ->
    yielded = firstn (Z.to_nat n) (newest ps) ->
    lines_yielded = len yielded ->
    (len yielded < n -> buffer = [c] \/ (buffer = [] /\ c = [])) ->
    scan_streaming cfg fuel data n keyword position buffer yielded lines_yielded io =
    Some (result, io_out) ->
    exists new, io_out = io ++ new /\ Forall (read_needed n keyword data) new.
Proof.
  assert (Hstop : forall (io io_out : list io_event) (x y : list str),
             Some (x, io) = Some (y, io_out) ->
             exists new, io_out = io ++ new /\ Forall (read_needed n keyword data) new).
  { intros io io_out x y H. injection H as _ <-.
    exists []. rewrite app_nil_r. split; [reflexivity | constructor]. }
  induction fuel as [| fuel IH];
    intros position c ps buffer yielded lines_yielded io result io_out
           Hpos Hsplit -> -> Hbuf;
    cbn [scan_streaming];
    destruct ((position >? 0) && (len (firstn (Z.to_nat n) (newest ps)) <? n))
      eqn:Hcond;
    try discriminate; try (apply Hstop).
  apply andb_prop in Hcond as [Hgt Hlt]. apply Z.gtb_lt in Hgt. apply Z.ltb_lt in Hlt.
  specialize (Hbuf Hlt).
  assert (Hshort := firstn_budget_short n n_positive _ Hlt).
  rewrite Hshort in *. clear Hshort.
  destruct (backward_step cfg chunk_positive data position c ps) as (Hcs & Hp' & Hsplit');
    [lia | exact Hsplit |].
  set (chunk_size := Z.min (CHUNK_SIZE cfg) position) in *.
  set (position' := position - chunk_size) in *.
  set (chunk := read_at data position' chunk_size) in *.
  assert (Hc : has_LF c = false).
  { pose proof (hd_split_LF_no_delim (skipn (Z.to_nat position) data)) as H.
    rewrite Hsplit in H. exact H. }
  assert (Hbuffer :
            (let '(lines, buffer0) :=
               if truthy buffer
               then (append_to_last (split_LF chunk) (hd [] buffer), tl buffer)
               else (split_LF chunk, buffer) in
             rev lines ++ buffer0) = rev (split_LF (chunk ++ c))).
  { destruct Hbuf as [-> | [-> ->]]; cbn [truthy hd tl].
    - rewrite app_nil_r, split_LF_app_carry by exact Hc. reflexivity.
    - rewrite !app_nil_r. reflexivity. }
  assert (Hread : read_needed n keyword data (ReadAt position' chunk_size))
    by (eapply read_needed_at; eassumption).
  destruct (split_LF (chunk ++ c)) as [| c' ps'] eqn:E;
    [exfalso; eapply split_LF_not_nil; eassumption |].
  cbn [rev] in Hbuffer.
  destruct (drain_buffer_spec n keyword n_positive (rev ps') c' (newest ps))
    as (buffer' & Hdrain & Hcarry); [lia |].
  rewrite <- newest_app in Hdrain, Hcarry.
  destruct (if truthy buffer
            then (append_to_last (split_LF chunk) (hd [] buffer), tl buffer)
            else (split_LF chunk, buffer)) as [lines0 buffer0].
  rewrite Hbuffer, Hdrain. intros H.
  destruct (IH position' c' (ps' ++ ps) buffer' _ _ _ result io_out Hp' Hsplit'
              eq_refl eq_refl (fun Hlt' => or_introl (Hcarry Hlt')) H)
    as (new & -> & Hnew).
  exists (ReadAt position' chunk_size :: new). split.
  - rewrite <- app_assoc. reflexivity.
  - constructor; assumption.
Qed.

End ReadsNeeded.

Section EarlyStop.

Context {RT : Runtime}.
Variable cfg : config.
Variable n : Z.
Variable keyword : option str.
Variable data : bytes.

Hypothesis chunk_positive : 0 < CHUNK_SIZE cfg.
Hypothesis n_positive : 1 <= n.

Lemma efficient_scan_reads_needed (lines : list str) (io : list io_event) :
  scan_efficient cfg (Z.to_nat (len data)) data n keyword (len data) [] [] 0 [] =
  Some (lines, io) ->
  Forall (read_needed n keyword data) io.
Proof.
  intros Hrun.
  destruct (scan_efficient_reads_needed cfg n keyword chunk_positive n_positive data
              (Z.to_nat (len data)) (len data) [] [] [] 0 [] lines io) as (new & -> & Hnew); auto.
  - pose proof (len_nonneg data). lia.
  - rewrite skipn_len. reflexivity.
  - change (len (@nil str)) with 0. lia.
Qed.

Lemma streaming_scan_reads_needed (yielded : list str) (io : list io_event) :
  scan_streaming cfg (Z.to_nat (len data)) data n keyword (len data) [] [] 0 [] =
  Some (yielded, io) ->
  Forall (read_needed n keyword data) io.
Proof.
  intros Hrun.
  destruct (scan_streaming_reads_needed cfg n keyword chunk_positive n_positive data
              (Z.to_nat (len data)) (len data) [] [] [] [] 0 [] yielded io) as (new & -> & Hnew); auto.
  - pose proof (len_nonneg data). lia.
  - rewrite skipn_len. reflexivity.
  - destruct (Z.to_nat n); reflexivity.
Qed.

(** X4.  Neither scan reads further than it has to: every read is issued
    from a cursor position above which fewer than [n] accepted lines lie,
    for the generator on every file and for the eager reader on the files
    that take its general path. *)
Theorem no_read_once_budget_is_met :
  (forall yielded outcome io,
      read_last_n_lines_streaming cfg (Regular data) n keyword =
      Some (yielded, outcome, io) ->
      Forall (read_needed n keyword data) io)
  /\ (forall lines io,
         CHUNK_SIZE cfg * 10 <= len data ->
         read_last_n_lines_efficient cfg (Regular data) n keyword =
         Some (Return lines, io) ->
         Forall (read_needed n keyword data) io).
Proof.
  split.
  - intros yielded outcome io. unfold read_last_n_lines_streaming.
    cbn [path_exists negb open_file stat_size].
    destruct (scan_streaming cfg _ data n keyword (len data) [] [] 0 [])
      as [[y i] |] eqn:Hrun;
      case_conditions; intros Hresult; inversion Hresult; subst; try constructor.
    eapply streaming_scan_reads_needed, Hrun.
  - intros lines io Hlarge. unfold read_last_n_lines_efficient.
    cbn [path_exists negb open_file stat_size].
    destruct (Z.ltb_spec (len data) (CHUNK_SIZE cfg * 10)); [lia |].
    destruct (scan_efficient cfg _ data n keyword (len data) [] [] 0 [])
      as [[l i] |] eqn:Hrun;
      case_conditions; intros Hresult; inversion Hresult; subst; try constructor.
    eapply efficient_scan_reads_needed, Hrun.
Qed.

Hypothesis file_size_ok : CHUNK_SIZE cfg <= len data <= MAX_FILE_SIZE cfg.
Hypothesis last_chunk_suffices :
  n <= len (accepted_after keyword data (len data - CHUNK_SIZE cfg)).

Lemma single_read (io : list io_event) :
  cursor_chain cfg (len data) io ->
  io <> [] ->
  Forall (read_needed n keyword data) io ->
  io = [ReadAt (len data - CHUNK_SIZE cfg) (CHUNK_SIZE cfg)].
Proof.
  destruct io as [| e io]; [contradiction |].
  destruct e as [| pos size]; [contradiction |].
  cbn [cursor_chain]. intros (Hgt & -> & -> & Hrest) _ Hneeded.
  rewrite Z.min_l in * by lia.
  destruct io as [| e io]; [reflexivity |].
  destruct e as [| pos size]; [contradiction |].
  cbn [cursor_chain] in Hrest. destruct Hrest as (_ & _ & -> & _).
  inversion Hneeded as [| ? ? _ Hrest]; subst.
  inversion Hrest as [| ? ? Hsecond _]; subst.
  cbn [read_needed] in Hsecond.
  replace (len data - CHUNK_SIZE cfg - size + size)
    with (len data - CHUNK_SIZE cfg) in Hsecond by lia.
  lia.
Qed.

(** X5.  When the last [CHUNK_SIZE] bytes of the file already hold [n]
    accepted lines after their first delimiter, each scan issues exactly one
    read, of those bytes, however large the file is. *)
Theorem one_read_when_last_chunk_suffices :
  (exists yielded,
      read_last_n_lines_streaming cfg (Regular data) n keyword =
      Some (yielded, Return tt, [ReadAt (len data - CHUNK_SIZE cfg) (CHUNK_SIZE cfg)]))
  /\ (CHUNK_SIZE cfg * 10 <= len data ->
      exists lines,
        read_last_n_lines_efficient cfg (Regular data) n keyword =
        Some (Return lines, [ReadAt (len data - CHUNK_SIZE cfg) (CHUNK_SIZE cfg)])).
Proof.
  split.
  - destruct (streaming_on_file cfg data n keyword chunk_positive n_positive)
      as (io & Hrun & Hchain & Hio); [lia |].
    pose proof Hrun as Hrun'. revert Hrun'.
    unfold read_last_n_lines_streaming at 1.
    cbn [path_exists negb open_file stat_size].
    destruct (Z.eqb_spec (len data) 0); [lia |].
    destruct (Z.gtb_spec (len data) (MAX_FILE_SIZE cfg)); [lia |].
    destruct (scan_streaming cfg _ data n keyword (len data) [] [] 0 [])
      as [[y i] |] eqn:Hscan; intros Hresult; inversion Hresult; subst.
    eexists. rewrite Hrun. do 2 f_equal.
    apply single_read; auto. eapply streaming_scan_reads_needed, Hscan.
  - intros Hlarge.
    destruct (efficient_on_large_file cfg data n keyword chunk_positive n_positive)
      as (io & Hrun & Hchain & Hio); [lia |].
    pose proof Hrun as Hrun'. revert Hrun'.
    unfold read_last_n_lines_efficient at 1.
    cbn [path_exists negb open_file stat_size].
    destruct (Z.eqb_spec (len data) 0); [lia |].
    destruct (Z.gtb_spec (len data) (MAX_FILE_SIZE cfg)); [lia |].
    destruct (Z.ltb_spec (len data) (CHUNK_SIZE cfg * 10)); [lia |].
    destruct (scan_efficient cfg _ data n keyword (len data) [] [] 0 [])
      as [[l i] |] eqn:Hscan; intros Hresult; inversion Hresult; subst.
    eexists. rewrite Hrun. do 2 f_equal.
    apply single_read; auto. eapply efficient_scan_reads_needed, Hscan.
Qed.

End EarlyStop.

Section SmallFiles.

Context {RT : Runtime}.
Variable cfg : config.

Lemma concat_keepends (s : str) : concat (keepends s) = s.
Proof.
  induction s as [| c t IH]; [reflexivity |].
  cbn [keepends]. destruct (N.eqb c 10).
  - cbn [concat app]. rewrite IH. reflexivity.
  - destruct (keepends t) as [| h r]; cbn [concat app] in *; rewrite <- IH;
      reflexivity.
Qed.

(** X6.  Without a keyword the small-file branch returns the end of the
    text as it stands: the returned lines, put back in file order and
    concatenated, are a suffix of the decoded text (universal newlines
    applied), line terminators and blank lines included; and they are the
    whole text when [n] is at least the number of lines. *)
Theorem small_file_branch_keeps_the_text (data : bytes) (n : Z) (keyword : option str) :
  1 <= n ->
  0 < len data <= MAX_FILE_SIZE cfg ->
  len data < CHUNK_SIZE cfg * 10 ->
  keyword_truthy keyword = false ->
  exists lines front,
    read_last_n_lines_efficient cfg (Regular data) n keyword =
    Some (Return lines, [ReadLines])
    /\ universal_newlines (bytes_decode data) = front ++ concat (rev lines)
    /\ (len (readlines data) <= n -> front = []).
Proof.
  intros Hn Hsize Hsmall Hkw.
  rewrite (efficient_on_small_file cfg data n keyword Hn Hsize Hsmall), Hkw.
  unfold last_n.
  set (m := (length (readlines data) - Z.to_nat n)%nat).
  exists (rev (skipn m (readlines data))), (concat (firstn m (readlines data))).
  split; [reflexivity | split].
  - rewrite rev_involutive, <- concat_app, firstn_skipn.
    symmetry. apply concat_keepends.
  - intros Hall. unfold len in Hall.
    replace m with 0%nat by (unfold m; lia). reflexivity.
Qed.

End SmallFiles.

(** ** The further properties at concrete inputs *)

Section FurtherInstances.

#[local] Existing Instance basic_latin_runtime.

Lemma readers_give_at_most_n_instance :
  (0 < CHUNK_SIZE small_chunks /\ 1 <= 2)
  /\ (forall lines io,
         read_last_n_lines_efficient small_chunks (Regular four_line_file) 2 None =
         Some (Return lines, io) ->
         len lines <= 2)
  /\ (forall yielded outcome io,
         read_last_n_lines_streaming small_chunks (Regular four_line_file) 2 None =
         Some (yielded, outcome, io) ->
         len yielded <= 2).
Proof.
  assert (H1 : 0 < CHUNK_SIZE small_chunks) by (simpl; lia).
  assert (H2 : 1 <= 2) by lia.
  split; [auto |].
  exact (readers_give_at_most_n small_chunks 2 None H1 H2 (Regular four_line_file)).
Defined.

Lemma fewer_lines_is_a_prefix_instance :
  (0 < CHUNK_SIZE small_chunks /\ 1 <= 2 <= 3)
  /\ (forall lines io lines' io',
         read_last_n_lines_efficient small_chunks (Regular four_line_file) 2 None =
         Some (Return lines, io) ->
         read_last_n_lines_efficient small_chunks (Regular four_line_file) 3 None =
         Some (Return lines', io') ->
         lines = firstn (Z.to_nat 2) lines')
  /\ (forall yielded outcome io yielded' outcome' io',
         read_last_n_lines_streaming small_chunks (Regular four_line_file) 2 None =
         Some (yielded, outcome, io) ->
         read_last_n_lines_streaming small_chunks (Regular four_line_file) 3 None =
         Some (yielded', outcome', io') ->
         yielded = firstn (Z.to_nat 2) yielded').
Proof.
  assert (H1 : 0 < CHUNK_SIZE small_chunks) by (simpl; lia).
  assert (H2 : 1 <= 2 <= 3) by lia.
  split; [auto |].
  exact (fewer_lines_is_a_prefix small_chunks None 2 3 H1 H2 (Regular four_line_file)).
Defined.

Lemma keyword_case_is_ignored_instance :
  (str_lower (u "error") = str_lower (u "ERROR")
   /\ truthy (u "error") = truthy (u "ERROR"))
  /\ read_last_n_lines_efficient small_chunks (Regular four_line_file) 5
       (Some (u "error")) =
     read_last_n_lines_efficient small_chunks (Regular four_line_file) 5
       (Some (u "ERROR"))
  /\ read_last_n_lines_streaming small_chunks (Regular four_line_file) 5
       (Some (u "error")) =
     read_last_n_lines_streaming small_chunks (Regular four_line_file) 5
       (Some (u "ERROR")).
Proof.
  assert (H1 : str_lower (u "error") = str_lower (u "ERROR")) by reflexivity.
  assert (H2 : truthy (u "error") = truthy (u "ERROR")) by reflexivity.
  split; [auto |].
  exact (keyword_case_is_ignored small_chunks (Regular four_line_file) 5
           (u "error") (u "ERROR") H1 H2).
Defined.

Lemma no_read_once_budget_is_met_instance :
  (0 < CHUNK_SIZE small_chunks /\ 1 <= 2)
  /\ (forall yielded outcome io,
         read_last_n_lines_streaming small_chunks (Regular four_line_file) 2 None =
         Some (yielded, outcome, io) ->
         Forall (read_needed 2 None four_line_file) io)
  /\ (forall lines io,
         CHUNK_SIZE small_chunks * 10 <= len four_line_file ->
         read_last_n_lines_efficient small_chunks (Regular four_line_file) 2 None =
         Some (Return lines, io) ->
         Forall (read_needed 2 None four_line_file) io).
Proof.
  assert (H1 : 0 < CHUNK_SIZE small_chunks) by (simpl; lia).
  assert (H2 : 1 <= 2) by lia.
  split; [auto |].
  exact (no_read_once_budget_is_met small_chunks 2 None four_line_file H1 H2).
Defined.

Lemma one_read_instance :
  (0 < CHUNK_SIZE three_byte_chunks /\ 1 <= 1
   /\ CHUNK_SIZE three_byte_chunks <= len short_last_line_file
      <= MAX_FILE_SIZE three_byte_chunks
   /\ 1 <= len (accepted_after None short_last_line_file
                  (len short_last_line_file - CHUNK_SIZE three_byte_chunks))
   /\ CHUNK_SIZE three_byte_chunks * 10 <= len short_last_line_file)
  /\ (exists yielded,
         read_last_n_lines_streaming three_byte_chunks (Regular short_last_line_file)
           1 None =
         Some (yielded, Return tt,
               [ReadAt (len short_last_line_file - CHUNK_SIZE three_byte_chunks)
                  (CHUNK_SIZE three_byte_chunks)]))
  /\ (CHUNK_SIZE three_byte_chunks * 10 <= len short_last_line_file ->
      exists lines,
        read_last_n_lines_efficient three_byte_chunks (Regular short_last_line_file)
          1 None =
        Some (Return lines,
              [ReadAt (len short_last_line_file - CHUNK_SIZE three_byte_chunks)
                 (CHUNK_SIZE three_byte_chunks)])).
Proof.
  assert (H1 : 0 < CHUNK_SIZE three_byte_chunks) by (simpl; lia).
  assert (H2 : 1 <= 1) by lia.
  assert (H3 : CHUNK_SIZE three_byte_chunks <= len short_last_line_file
               <= MAX_FILE_SIZE three_byte_chunks)
    by (split; vm_compute; discriminate).
  assert (H4 : 1 <= len (accepted_after None short_last_line_file
                           (len short_last_line_file - CHUNK_SIZE three_byte_chunks)))
    by (vm_compute; discriminate).
  assert (H5 : CHUNK_SIZE three_byte_chunks * 10 <= len short_last_line_file)
    by (vm_compute; discriminate).
  split; [auto 6 |].
  exact (one_read_when_last_chunk_suffices three_byte_chunks 1 None
           short_last_line_file H1 H2 H3 H4).
Defined.

Lemma small_file_branch_keeps_the_text_instance :
  (1 <= 5
   /\ 0 < len two_line_file <= MAX_FILE_SIZE default_config
   /\ len two_line_file < CHUNK_SIZE default_config * 10
   /\ keyword_truthy None = false)
  /\ exists lines front,
      read_last_n_lines_efficient default_config (Regular two_line_file) 5 None =
      Some (Return lines, [ReadLines])
      /\ universal_newlines (bytes_decode two_line_file) = front ++ concat (rev lines)
      /\ (len (readlines two_line_file) <= 5 -> front = []).
Proof.
  assert (H1 : 1 <= 5) by lia.
  assert (H2 : 0 < len two_line_file <= MAX_FILE_SIZE default_config)
    by (split; vm_compute; [reflexivity | discriminate]).
  assert (H3 : len two_line_file < CHUNK_SIZE default_config * 10)
    by (vm_compute; reflexivity).
  assert (H4 : keyword_truthy None = false) by reflexivity.
  split; [auto |].
  exact (small_file_branch_keeps_the_text default_config two_line_file 5 None
           H1 H2 H3 H4).
Defined.

Lemma eager_is_streaming_and_first_line_instance :
  (0 < CHUNK_SIZE small_chunks /\ 1 <= 10
   /\ CHUNK_SIZE small_chunks * 10 <= len four_line_file <= MAX_FILE_SIZE small_chunks
   /\ accept None (hd [] (split_LF four_line_file)) = Some (u "alpha one")
   /\ (length (matching_lines None four_line_file) <= Z.to_nat 10)%nat)
  /\ exists yielded io io',
      read_last_n_lines_streaming small_chunks (Regular four_line_file) 10 None =
      Some (yielded, Return tt, io)
      /\ read_last_n_lines_efficient small_chunks (Regular four_line_file) 10 None =
         Some (Return (yielded ++ [u "alpha one"]), io').
Proof.
  assert (H1 : 0 < CHUNK_SIZE small_chunks) by (simpl; lia).
  assert (H2 : 1 <= 10) by lia.
  assert (H3 : CHUNK_SIZE small_chunks * 10 <= len four_line_file
               <= MAX_FILE_SIZE small_chunks)
    by (split; vm_compute; discriminate).
  assert (H4 : accept None (hd [] (split_LF four_line_file)) = Some (u "alpha one"))
    by (vm_compute; reflexivity).
  assert (H5 : (length (matching_lines None four_line_file) <= Z.to_nat 10)%nat)
    by (vm_compute; lia).
  split; [auto 6 |].
  exact (eager_is_streaming_and_first_line small_chunks four_line_file 10 None
           (u "alpha one") H1 H2 H3 H4 H5).
Defined.

End FurtherInstances.

(* ===================================================================== *)
(** * The HTTP surface *)

Section GetLogs.

Context {RT : Runtime}.
Variable cfg : config.
Variable fs : str -> path_target.
Variable file_asked : str.
Variable entries_asked : Z.
Variable keyword : option str.

Hypothesis chunk_positive : 0 < CHUNK_SIZE cfg.

Lemma query_entries_ok_range :
  query_entries_ok entries_asked = true -> 1 <= entries_asked <= 10000.
Proof.
  unfold query_entries_ok. intros H.
  apply andb_prop in H as [H1 H2]. apply Z.leb_le in H1, H2. split; assumption.
Qed.

Lemma regular_target (target : path_target) :
  is_regular_file target = true ->
  (exists data, target = Regular data) \/ (exists sz, target = Unreadable sz).
Proof. destruct target; try discriminate; eauto. Qed.

(** On a file that may not be opened the eager reader still answers by the
    size alone when the file is empty or too large, and fails with the
    error of [open] otherwise. *)
Lemma efficient_on_unreadable_file (sz n : Z) :
  read_last_n_lines_efficient cfg (Unreadable sz) n keyword =
  Some (if sz =? 0 then Return []
        else if sz >? MAX_FILE_SIZE cfg then Raise ValueError
        else Raise PermissionError, []).
Proof.
  unfold read_last_n_lines_efficient. cbn [path_exists negb stat_size open_file].
  case_conditions; reflexivity.
Qed.

(** The answers of [get_logs], case by case. *)
Lemma get_logs_cases :
  let answer := get_logs cfg fs file_asked entries_asked keyword in
  (query_entries_ok entries_asked = false
   /\ answer = Some (HTTPException 422 (QueryOutOfRange entries_asked), []))
  \/ (query_entries_ok entries_asked = true
      /\ ((filename_rejected file_asked = true
           /\ answer = Some (HTTPException 400 InvalidFilename, []))
          \/ (filename_rejected file_asked = false
              /\ ((fs file_asked = Missing
                   /\ answer = Some (HTTPException 404 (LogFileNotFound file_asked), []))
                  \/ ((exists sz, fs file_asked = Directory sz)
                      /\ answer =
                         Some (HTTPException 400 (PathIsNotAFile file_asked), []))
                  \/ (is_regular_file (fs file_asked) = true
                      /\ stat_size (fs file_asked) <> 0
                      /\ MAX_FILE_SIZE cfg < stat_size (fs file_asked)
                      /\ answer =
                         Some (HTTPException 413 (ExceptionText ValueError), []))
                  \/ (exists data lines io,
                         fs file_asked = Regular data
                         /\ (len data = 0 \/ len data <= MAX_FILE_SIZE cfg)
                         /\ read_last_n_lines_efficient cfg (Regular data)
                              entries_asked keyword = Some (Return lines, io)
                         /\ len lines <= entries_asked
                         /\ answer =
                            Some (Respond {| filename := file_asked;
                                             total_lines := -1;
                                             returned_lines := len lines;
                                             filtered := is_not_None keyword;
                                             entries := lines |}, io))
                  \/ (fs file_asked = Unreadable 0
                      /\ answer =
                         Some (Respond {| filename := file_asked;
                                          total_lines := -1;
                                          returned_lines := 0;
                                          filtered := is_not_None keyword;
                                          entries := [] |}, []))
                  \/ (exists sz,
                         fs file_asked = Unreadable sz
                         /\ sz <> 0 /\ sz <= MAX_FILE_SIZE cfg
                         /\ answer =
                            Some (HTTPException 500
                                    (ErrorReadingLogFile PermissionError), [])))))).
Proof.
  unfold get_logs.
  destruct (query_entries_ok entries_asked) eqn:Hq; cbn [negb]; [right | left; auto].
  split; [reflexivity |].
  destruct (filename_rejected file_asked) eqn:Hname; [left; auto | right].
  split; [reflexivity |].
  destruct (fs file_asked) as [| sz | data | sz] eqn:Htarget;
    cbn [path_exists is_regular_file negb].
  - left. auto.
  - right. left. eauto.
  - apply query_entries_ok_range in Hq as Hrange.
    destruct (efficient_on_regular_file cfg entries_asked keyword chunk_positive
                (proj1 Hrange) data)
      as [(Hnz & Hbig & ->) | (Hsize & lines & io & Hread & Hlen)].
    + right. right. left. cbn [stat_size]. auto.
    + right. right. right. left. rewrite Hread. exists data, lines, io. auto 6.
  - rewrite efficient_on_unreadable_file.
    destruct (Z.eqb_spec sz 0) as [-> | Hnz].
    + do 4 right. left. auto.
    + destruct (Z.gtb_spec sz (MAX_FILE_SIZE cfg)) as [Hbig | Hok].
      * right. right. left. cbn [stat_size]. repeat split; auto; lia.
      * do 5 right. exists sz. auto.
Qed.



End GetLogs.

Section GetLogsKeyword.

Context {RT : Runtime}.
Variable cfg : config.

Lemma efficient_empty_keyword (filepath : path_target) (n : Z) :
  str_lower [] = [] ->
  read_last_n_lines_efficient cfg filepath n (Some []) =
  read_last_n_lines_efficient cfg filepath n None.
Proof.
  intros Hlower.
  assert (Hsame : forall d, keyword_passes (Some []) d = keyword_passes None d).
  { intros d. cbn [keyword_passes]. rewrite Hlower. apply str_contains_empty. }
  unfold read_last_n_lines_efficient, read_small. cbn [keyword_truthy truthy].
  destruct (open_file filepath) as [data |]; [| reflexivity].
  rewrite (scan_efficient_ext cfg _ _ Hsame). reflexivity.
Qed.

(** X10.  [filtered] tells that a keyword was sent, not that lines were
    filtered: with the empty keyword [get_logs] answers as without a
    keyword, same status, same lines, same reads, except that a 200 body
    has [filtered] set. *)
Theorem get_logs_empty_keyword_sets_filtered
    (fs : str -> path_target) (file_asked : str) (entries_asked : Z) :
  str_lower [] = [] ->
  (forall code detail io,
      get_logs cfg fs file_asked entries_asked None =
      Some (HTTPException code detail, io) ->
      get_logs cfg fs file_asked entries_asked (Some []) =
      Some (HTTPException code detail, io))
  /\ (forall body io,
         get_logs cfg fs file_asked entries_asked None = Some (Respond body, io) ->
         body.(filtered) = false
         /\ get_logs cfg fs file_asked entries_asked (Some []) =
            Some (Respond {| filename := body.(filename);
                             total_lines := body.(total_lines);
                             returned_lines := body.(returned_lines);
                             filtered := true;
                             entries := body.(entries) |}, io)).
Proof.
  intros Hlower. unfold get_logs.
  rewrite (efficient_empty_keyword _ _ Hlower).
  split.
  - intros code detail io.
    case_conditions; try discriminate; auto.
    destruct c as [lines | e]; [discriminate |].
    destruct e; auto.
  - intros body io.
    case_conditions; try discriminate.
    destruct c as [lines | e]; [| destruct e; discriminate].
    intros H. injection H as <- <-. split; reflexivity.
Qed.

End GetLogsKeyword.

Section StreamLogs.

Context {RT : Runtime} {JC : JsonCodec}.
Variable cfg : config.
Variable fs : str -> path_target.
Variable file_asked : str.
Variable entries_asked : Z.
Variable keyword : option str.

Hypothesis entries_accepted : query_entries_ok entries_asked = true.
Hypothesis filename_accepted : filename_rejected file_asked = false.

Lemma concat_generate_items_rest (lines : list str) :
  lines <> [] ->
  concat (generate_items false lines) =
  entries_comma ++ str_join entries_comma (map json_dumps lines).
Proof.
  induction lines as [| line rest IH]; [contradiction |]. intros _.
  cbn [generate_items negb app concat map str_join].
  destruct rest as [| line' rest'].
  - cbn [generate_items concat map]. rewrite app_nil_r. reflexivity.
  - rewrite IH by discriminate. reflexivity.
Qed.

Lemma concat_generate_items (lines : list str) :
  concat (generate_items true lines) = str_join entries_comma (map json_dumps lines).
Proof.
  destruct lines as [| line rest]; [reflexivity |].
  cbn [generate_items negb app concat map str_join].
  destruct rest as [| line' rest'].
  - cbn [generate_items concat map]. apply app_nil_r.
  - rewrite concat_generate_items_rest by discriminate. reflexivity.
Qed.

Lemma tail_spec_after_first_nil (n : Z) : tail_spec_after_first n keyword [] = [].
Proof. rewrite tail_spec_after_first_newest. cbn. apply firstn_nil. Qed.

(** X11.  The streamed body is the JSON object of the generator's values:
    for an accepted request that names a regular file, empty or within the
    size limit, [stream_logs] runs to the end and its chunks, concatenated,
    read [{"entries": [] followed by [json.dumps] of each yielded line,
    separated by commas ([{"entries": []}] when there is none), followed by
    []}]; the lines are the contract of [tail] taken without the first
    physical line of the file. *)
Theorem stream_logs_body (data : bytes) :
  0 < CHUNK_SIZE cfg ->
  fs file_asked = Regular data ->
  len data = 0 \/ len data <= MAX_FILE_SIZE cfg ->
  exists chunks io,
    stream_logs cfg fs file_asked entries_asked keyword =
    Some (StreamingResponse chunks (Return tt), io)
    /\ concat chunks =
       entries_open
       ++ str_join entries_comma
            (map json_dumps (tail_spec_after_first entries_asked keyword data))
       ++ entries_close.
Proof.
  intros Hc Hfile Hsize.
  pose proof (query_entries_ok_range _ entries_accepted) as Hq.
  assert (Hrun : exists io,
             read_last_n_lines_streaming cfg (Regular data) entries_asked keyword =
             Some (tail_spec_after_first entries_asked keyword data, Return tt, io)).
  { destruct (Z.eq_dec (len data) 0) as [Hz | Hnz].
    - destruct data; [| discriminate Hz].
      rewrite tail_spec_after_first_nil. exists []. reflexivity.
    - pose proof (len_nonneg data).
      destruct (streaming_on_file cfg data entries_asked keyword Hc) as (io & Hs & _);
        [lia | lia | eauto]. }
  destruct Hrun as (io & Hrun).
  unfold stream_logs, generate.
  rewrite entries_accepted, filename_accepted, Hfile, Hrun.
  cbn [negb path_exists].
  do 2 eexists. split; [reflexivity |].
  rewrite !concat_app, concat_generate_items. cbn [concat].
  rewrite !app_nil_r. reflexivity.
Qed.

(** X12.  [stream_logs] has neither the size answer nor the not-a-file
    answer of [get_logs]: on an existing target above the size limit, and
    on a directory, it starts the response, sends the opening chunk, and
    the exception of the reader ([ValueError], [IsADirectoryError]) ends
    the body there, where [get_logs] answers 413 and 400. *)
Theorem stream_logs_fails_after_the_opening :
  (path_exists (fs file_asked) = true ->
   0 <= MAX_FILE_SIZE cfg < stat_size (fs file_asked) ->
   stream_logs cfg fs file_asked entries_asked keyword =
   Some (StreamingResponse [entries_open] (Raise ValueError), [])
   /\ (is_regular_file (fs file_asked) = true ->
       get_logs cfg fs file_asked entries_asked keyword =
       Some (HTTPException 413 (ExceptionText ValueError), [])))
  /\ (forall st_size,
         fs file_asked = Directory st_size ->
         0 < st_size <= MAX_FILE_SIZE cfg ->
         stream_logs cfg fs file_asked entries_asked keyword =
         Some (StreamingResponse [entries_open] (Raise IsADirectoryError), [])
         /\ get_logs cfg fs file_asked entries_asked keyword =
            Some (HTTPException 400 (PathIsNotAFile file_asked), [])).
Proof.
  unfold stream_logs, get_logs, generate,
    read_last_n_lines_streaming, read_last_n_lines_efficient.
  rewrite entries_accepted, filename_accepted. cbn [negb].
  split.
  - intros Hex Hsize. rewrite Hex. cbn [negb].
    destruct (Z.eqb_spec (stat_size (fs file_asked)) 0); [lia |].
    destruct (Z.gtb_spec (stat_size (fs file_asked)) (MAX_FILE_SIZE cfg)); [| lia].
    split; [reflexivity |]. intros ->. reflexivity.
  - intros st_size -> Hsize. cbn [path_exists is_regular_file negb stat_size open_file].
    destruct (Z.eqb_spec st_size 0); [lia |].
    destruct (Z.gtb_spec st_size (MAX_FILE_SIZE cfg)); [lia |].
    split; reflexivity.
Qed.

End StreamLogs.

(* ===================================================================== *)
(** * The registry of the primary server *)

Lemma str_eqb_eq (a b : str) : str_eqb a b = true <-> a = b.
Proof.
  revert b. induction a as [| x a IH]; intros [| y b]; cbn [str_eqb];
    try (split; [discriminate | discriminate]); [split; reflexivity |].
  rewrite andb_true_iff, N.eqb_eq, IH. split.
  - intros [-> ->]. reflexivity.
  - intros H. injection H as -> ->. auto.
Qed.

Lemma str_eqb_refl (a : str) : str_eqb a a = true.
Proof. apply str_eqb_eq. reflexivity. Qed.

Section Registry.

Import Primary.

Context {NW : Network}.

(** The names in a registry, in its order. *)
Local Abbreviation names servers := (map name servers).

Lemma name_registered_iff (servers : list SecondaryServer) (server_name : str) :
  existsb (fun existing => str_eqb existing.(name) server_name) servers = true
  <-> In server_name (names servers).
Proof.
  rewrite existsb_exists, in_map_iff. split.
  - intros (s & Hin & Heq). apply str_eqb_eq in Heq. eauto.
  - intros (s & Heq & Hin). exists s. rewrite Heq, str_eqb_refl. auto.
Qed.

Lemma name_not_registered (servers : list SecondaryServer) (server_name : str) :
  existsb (fun existing => str_eqb existing.(name) server_name) servers = false
  <-> ~ In server_name (names servers).
Proof.
  rewrite <- name_registered_iff.
  destruct (existsb _ servers); split; congruence.
Qed.

Lemma filter_other_than_absent (servers : list SecondaryServer) (server_name : str) :
  ~ In server_name (names servers) ->
  filter (other_than server_name) servers = servers.
Proof.
  induction servers as [| s rest IH]; [reflexivity |].
  cbn [map In filter]. intros Hnot. unfold other_than at 1.
  destruct (str_eqb (name s) server_name) eqn:E.
  - apply str_eqb_eq in E. tauto.
  - cbn [negb]. rewrite IH by tauto. reflexivity.
Qed.

Lemma pop_first_named_absent (servers : list SecondaryServer) (server_name : str) :
  ~ In server_name (names servers) -> pop_first_named server_name servers = None.
Proof.
  induction servers as [| s rest IH]; [reflexivity |].
  cbn [map In pop_first_named]. intros Hnot.
  destruct (str_eqb (name s) server_name) eqn:E.
  - apply str_eqb_eq in E. tauto.
  - rewrite IH by tauto. reflexivity.
Qed.

Lemma pop_first_named_present (servers : list SecondaryServer) (server_name : str) :
  NoDup (names servers) ->
  In server_name (names servers) ->
  pop_first_named server_name servers = Some (filter (other_than server_name) servers).
Proof.
  induction servers as [| s rest IH]; [intros _ [] |].
  cbn [map In pop_first_named filter]. intros Hnodup Hin.
  inversion Hnodup as [| ? ? Hfresh Hrest]; subst.
  unfold other_than at 1.
  destruct (str_eqb (name s) server_name) eqn:E; cbn [negb].
  - apply str_eqb_eq in E. subst server_name.
    rewrite filter_other_than_absent by exact Hfresh. reflexivity.
  - destruct Hin as [Heq | Hin].
    + rewrite Heq, str_eqb_refl in E. discriminate.
    + rewrite IH by assumption. reflexivity.
Qed.

Lemma pop_first_named_appended (servers : list SecondaryServer) (s : SecondaryServer) :
  ~ In s.(name) (names servers) ->
  pop_first_named s.(name) (servers ++ [s]) = Some servers.
Proof.
  induction servers as [| x rest IH]; cbn [app map In pop_first_named]; intros Hnot.
  - rewrite str_eqb_refl. reflexivity.
  - destruct (str_eqb (name x) (name s)) eqn:E.
    + apply str_eqb_eq in E. tauto.
    + rewrite IH by tauto. reflexivity.
Qed.

Lemma NoDup_names_filter (p : SecondaryServer -> bool) (servers : list SecondaryServer) :
  NoDup (names servers) -> NoDup (names (filter p servers)).
Proof.
  induction servers as [| s rest IH]; [auto |].
  cbn [map filter]. intros H. inversion H as [| ? ? Hfresh Hrest]; subst.
  destruct (p s); [| auto].
  cbn [map]. constructor; [| auto].
  intros Hin. apply Hfresh. apply in_map_iff in Hin as (x & Hx & Hin).
  apply filter_In in Hin as [Hin _]. apply in_map_iff. eauto.
Qed.

(** X13.  The names in the registry stay distinct as long as calls do not
    overlap: [unregister_server], and a [register_server] during whose
    probe no other call runs, keep them distinct.  Overlapping
    registrations do not: the name is tested before the awaited probe and
    not again before the append, so two registrations of one new name that
    both test before either appends both answer 200 and leave the name
    twice in the registry. *)
Theorem names_stay_distinct_unless_registrations_overlap
    (servers : list SecondaryServer) (server other : SecondaryServer)
    (server_name : str) :
  NoDup (names servers) ->
  (NoDup (names (fst (register_server servers server)))
   /\ NoDup (names (fst (unregister_server servers server_name))))
  /\ (~ In server.(name) (names servers) ->
      other.(name) = server.(name) ->
      get_health (server.(url) ++ u "/health") = ProbeStatus 200 ->
      get_health (other.(url) ++ u "/health") = ProbeStatus 200 ->
      register_test servers server = false
      /\ register_test servers other = false
      /\ register_append servers server =
         (servers ++ [server],
          Done {| registered_name := server.(name);
                  total_servers := len servers + 1 |})
      /\ register_append (servers ++ [server]) other =
         (servers ++ [server; other],
          Done {| registered_name := server.(name);
                  total_servers := len servers + 2 |})
      /\ ~ NoDup (names (servers ++ [server; other]))).
Proof.
  intros Hnodup. split; [split |].
  - unfold register_server, register_test, register_append.
    destruct (existsb _ servers) eqn:E; [exact Hnodup |].
    apply name_not_registered in E.
    destruct (get_health _) as [code | |]; try exact Hnodup.
    destruct (code =? 200); cbn [negb fst]; [| exact Hnodup].
    rewrite map_app. cbn [map].
    apply NoDup_app; [exact Hnodup | repeat constructor; intros [] |].
    intros x Hx [<- | []]. contradiction.
  - unfold unregister_server.
    destruct (in_dec (list_eq_dec N.eq_dec) server_name (names servers)) as [Hin | Hnot].
    + rewrite pop_first_named_present by assumption. cbn [fst].
      apply NoDup_names_filter, Hnodup.
    + rewrite pop_first_named_absent by assumption. exact Hnodup.
  - intros Hnew Hsame Hprobe Hprobe'.
    assert (Htest : register_test servers server = false)
      by (apply name_not_registered, Hnew).
    split; [exact Htest |].
    split; [unfold register_test in *; rewrite Hsame; exact Htest |].
    unfold register_append. rewrite Hprobe, Hprobe', Hsame.
    cbn [Z.eqb Pos.eqb negb].
    split; [rewrite len_app; reflexivity |].
    split.
    + rewrite <- app_assoc. cbn [app]. rewrite !len_app. reflexivity.
    + rewrite map_app. cbn [map]. rewrite Hsame. intros Hdup.
      apply NoDup_remove_2 in Hdup. apply Hdup, in_or_app. right. left. reflexivity.
Qed.

(** X14.  [register_server] accepts a server exactly when its name is new
    and the health probe answers 200; it then appends the server to the
    registry and reports the new size.  Every refusal is a 400 and leaves
    the registry as it was. *)
Theorem register_server_accepts_new_healthy (servers : list SecondaryServer)
    (server : SecondaryServer) :
  (register_server servers server =
   (servers ++ [server],
    Done {| registered_name := server.(name); total_servers := len servers + 1 |})
   <-> (~ In server.(name) (names servers)
        /\ get_health (server.(url) ++ u "/health") = ProbeStatus 200))
  /\ (forall code why,
         snd (register_server servers server) = HTTPException code why ->
         code = 400 /\ fst (register_server servers server) = servers)
  /\ (In server.(name) (names servers) ->
      register_server servers server =
      (servers, HTTPException 400 (AlreadyRegistered server.(name)))).
Proof.
  unfold register_server, register_test, register_append.
  destruct (existsb _ servers) eqn:E.
  - apply name_registered_iff in E. cbn [fst snd]. split; [split | split].
    + intros H. apply (f_equal snd) in H. discriminate H.
    + intros [Hnot _]. contradiction.
    + intros code why H. injection H as <- _. auto.
    + reflexivity.
  - apply name_not_registered in E.
    destruct (get_health _) as [code | |] eqn:Hprobe.
    + destruct (Z.eqb_spec code 200) as [-> | Hne]; cbn [negb fst snd].
      * split; [split | split].
        -- auto.
        -- intros _. rewrite len_app. reflexivity.
        -- intros code why H. discriminate H.
        -- intros Hin. contradiction.
      * split; [split | split].
        -- intros H. apply (f_equal snd) in H. discriminate H.
        -- intros [_ H]. injection H as H. contradiction.
        -- intros c why H. injection H as <- _. auto.
        -- intros Hin. contradiction.
    + cbn [fst snd]. split; [split | split].
      * intros H. apply (f_equal snd) in H. discriminate H.
      * intros [_ H]. discriminate H.
      * intros c why H. injection H as <- _. auto.
      * intros Hin. contradiction.
    + cbn [fst snd]. split; [split | split].
      * intros H. apply (f_equal snd) in H. discriminate H.
      * intros [_ H]. discriminate H.
      * intros c why H. injection H as <- _. auto.
      * intros Hin. contradiction.
Qed.

(** X15.  With distinct names, [unregister_server] of a registered name
    answers 200 and removes that server and no other, the rest keeping
    their order, so that the name is free again; an unknown name is
    answered 404 and nothing changes. *)
Theorem unregister_server_removes_the_name (servers : list SecondaryServer)
    (server_name : str) :
  NoDup (names servers) ->
  (In server_name (names servers) ->
   unregister_server servers server_name =
   (filter (fun s => negb (str_eqb s.(name) server_name)) servers, Done server_name)
   /\ ~ In server_name (names (fst (unregister_server servers server_name))))
  /\ (~ In server_name (names servers) ->
      unregister_server servers server_name =
      (servers, HTTPException 404 (ServerNotFound server_name))).
Proof.
  intros Hnodup. unfold unregister_server. split.
  - intros Hin. rewrite pop_first_named_present by assumption.
    split; [reflexivity |]. cbn [fst].
    rewrite in_map_iff. intros (s & Heq & Hs).
    apply filter_In in Hs as [_ Hs]. unfold other_than in Hs.
    rewrite Heq, str_eqb_refl in Hs. discriminate.
  - intros Hnot. rewrite pop_first_named_absent by assumption. reflexivity.
Qed.

(** X16.  Registering a server under a new name and unregistering that
    name gives back the registry as it was. *)
Theorem register_then_unregister (servers : list SecondaryServer)
    (server : SecondaryServer) :
  ~ In server.(name) (names servers) ->
  get_health (server.(url) ++ u "/health") = ProbeStatus 200 ->
  unregister_server (fst (register_server servers server)) server.(name) =
  (servers, Done server.(name)).
Proof.
  intros Hnew Hprobe. unfold register_server, register_test, register_append.
  apply name_not_registered in Hnew as E. rewrite E, Hprobe.
  cbn [Z.eqb Pos.eqb negb fst]. unfold unregister_server.
  rewrite pop_first_named_appended by exact Hnew. reflexivity.
Qed.

End Registry.

(* ===================================================================== *)
(** * Aggregation over the secondary servers *)

(** ** The order on [str] *)

Lemma str_ltb_asym (a b : str) : str_ltb a b = true -> str_ltb b a = false.
Proof.
  revert b. induction a as [| x a IH]; intros [| y b]; cbn [str_ltb]; intros H;
    try reflexivity; try discriminate H.
  destruct (N.ltb_spec x y), (N.ltb_spec y x), (N.eqb_spec x y), (N.eqb_spec y x);
    cbn [orb andb] in *; try lia; try discriminate H; auto.
Qed.

Lemma str_ltb_neg_trans (a b c : str) :
  str_ltb a b = false -> str_ltb b c = false -> str_ltb a c = false.
Proof.
  revert b c. induction a as [| x a IH]; intros [| y b] [| z c];
    cbn [str_ltb]; intros H1 H2; try reflexivity; try discriminate.
  destruct (N.ltb_spec x y), (N.ltb_spec y z), (N.ltb_spec x z),
    (N.eqb_spec x y), (N.eqb_spec y z), (N.eqb_spec x z);
    cbn [orb andb] in *; try lia; try discriminate; eauto.
Qed.

Lemma StronglySorted_firstn {A : Type} (R : A -> A -> Prop) (k : nat) (l : list A) :
  StronglySorted R l -> StronglySorted R (firstn k l).
Proof.
  revert k. induction l as [| x l IH]; intros [| k] H; cbn [firstn];
    try constructor.
  - apply IH. inversion H; assumption.
  - inversion H as [| ? ? _ Hall]; subst.
    rewrite Forall_forall in *. intros y Hy. apply Hall.
    rewrite <- (firstn_skipn k l). apply in_or_app. auto.
Qed.

Lemma StronglySorted_app_inv {A : Type} (R : A -> A -> Prop) (l1 l2 : list A) :
  StronglySorted R (l1 ++ l2) ->
  forall a b, In a l1 -> In b l2 -> R a b.
Proof.
  induction l1 as [| x l1 IH]; cbn [app]; intros H a b' Ha Hb; [destruct Ha |].
  inversion H as [| ? ? Hrest Hall]; subst.
  destruct Ha as [<- | Ha].
  - rewrite Forall_forall in Hall. apply Hall, in_or_app. auto.
  - eapply IH; eauto.
Qed.

Lemma flat_map_of_map {A B C : Type} (f : B -> list C) (g : A -> B) (l : list A) :
  flat_map f (map g l) = flat_map (fun x => f (g x)) l.
Proof. induction l as [| x l IH]; cbn [map flat_map]; congruence. Qed.

Lemma NoDup_map_injective {A B : Type} (f : A -> B) (l : list A) (a a' : A) :
  NoDup (map f l) -> In a l -> In a' l -> f a = f a' -> a = a'.
Proof.
  induction l as [| x l IH]; [intros _ [] |].
  cbn [map]. intros H Ha Ha' Heq.
  inversion H as [| ? ? Hfresh Hrest]; subst.
  destruct Ha as [<- | Ha], Ha' as [<- | Ha']; auto.
  - exfalso. apply Hfresh. rewrite Heq. apply in_map, Ha'.
  - exfalso. apply Hfresh. rewrite <- Heq. apply in_map, Ha.
Qed.

Section Aggregate.

Import Primary.

Context {RT : Runtime} {NW : Network}.

(** [a] does not come before [b] in the increasing order of contents. *)
Local Abbreviation not_below :=
  (fun a b : AggregatedEntry => str_ltb a.(content) b.(content) = false).

Lemma insert_by_content_permutation (x : AggregatedEntry) (l : list AggregatedEntry) :
  Permutation (x :: l) (insert_by_content x l).
Proof.
  induction l as [| y l IH]; cbn [insert_by_content]; [reflexivity |].
  destruct (str_ltb _ _); [| reflexivity].
  rewrite perm_swap. apply perm_skip, IH.
Qed.

Lemma sort_by_content_permutation (l : list AggregatedEntry) :
  Permutation l (sort_by_content_reverse l).
Proof.
  unfold sort_by_content_reverse.
  induction l as [| x l IH]; cbn [fold_right]; [reflexivity |].
  rewrite <- insert_by_content_permutation. apply perm_skip, IH.
Qed.

Lemma insert_by_content_sorted (x : AggregatedEntry) (l : list AggregatedEntry) :
  StronglySorted not_below l -> StronglySorted not_below (insert_by_content x l).
Proof.
  induction l as [| y l IH]; cbn [insert_by_content]; intros H.
  - repeat constructor.
  - inversion H as [| ? ? Hrest Hall]; subst.
    destruct (str_ltb (content x) (content y)) eqn:E.
    + constructor; [auto |].
      eapply Permutation_Forall; [apply insert_by_content_permutation |].
      constructor; [apply str_ltb_asym, E | exact Hall].
    + constructor; [exact H |]. constructor; [exact E |].
      rewrite Forall_forall in *. intros z Hz.
      eapply str_ltb_neg_trans; [exact E | apply Hall, Hz].
Qed.

Lemma sort_by_content_sorted (l : list AggregatedEntry) :
  StronglySorted not_below (sort_by_content_reverse l).
Proof.
  unfold sort_by_content_reverse.
  induction l as [| x l IH]; cbn [fold_right]; [constructor |].
  apply insert_by_content_sorted, IH.
Qed.

Lemma primary_query_entries_range (entries_asked : Z) :
  negb (query_entries_ok entries_asked) = false -> 1 <= entries_asked <= 1000.
Proof.
  unfold query_entries_ok. intros H. apply negb_false_iff in H.
  apply andb_prop in H as [H1 H2]. apply Z.leb_le in H1, H2. split; assumption.
Qed.

Lemma servers_to_query_registered (registry : list SecondaryServer)
    (servers : option str) (s : SecondaryServer) :
  In s (servers_to_query registry servers) -> In s registry.
Proof.
  unfold servers_to_query. destruct servers as [given |]; [| auto].
  destruct (truthy given); [| auto].
  intros H. apply filter_In in H. tauto.
Qed.

(** A fetch that did not succeed carries no entry. *)
Lemma fetch_failed (from : SecondaryServer) (file_asked : str) (entries_asked : Z)
    (keyword : option str) :
  let result := fetch_logs_from_server from file_asked entries_asked keyword in
  result.(server) = from.(name)
  /\ (result.(status) <> success ->
      result.(entries) = [] /\ result.(count) = 0 /\ result.(failure) <> None).
Proof.
  unfold fetch_logs_from_server.
  destruct (get_logs_at _ _ _ _) as [code data | | text];
    [destruct (code =? 200) | |]; cbn; repeat split; congruence.
Qed.

Variable registry : list SecondaryServer.
Variable file_asked : str.
Variable entries_asked : Z.
Variable keyword : option str.
Variable servers : option str.

(** The entries the queried servers gave, server by server. *)
Local Abbreviation fetched :=
  (flat_map
     (fun s => entries_of (fetch_logs_from_server s file_asked entries_asked keyword))
     (servers_to_query registry servers)).

Lemma aggregate_logs_done (body : Aggregated) :
  aggregate_logs registry file_asked entries_asked keyword servers = Done body ->
  1 <= entries_asked <= 1000
  /\ body.(aggregated_total_servers) = len (servers_to_query registry servers)
  /\ body.(servers_queried) =
     map (fun s =>
            let result := fetch_logs_from_server s file_asked entries_asked keyword in
            {| queried_name := result.(server);
               queried_status := result.(status);
               entries_returned := result.(count);
               queried_error := result.(failure) |})
         (servers_to_query registry servers)
  /\ body.(total_entries) = len (sort_by_content_reverse fetched)
  /\ body.(aggregated_entries) =
     firstn (Z.to_nat entries_asked) (sort_by_content_reverse fetched).
Proof.
  unfold aggregate_logs.
  destruct (negb (query_entries_ok entries_asked)) eqn:Hq; [discriminate |].
  apply primary_query_entries_range in Hq.
  destruct (len registry =? 0); [discriminate |].
  destruct (_ && _); [discriminate |].
  intros H. injection H as <-.
  cbn [aggregated_total_servers servers_queried total_entries aggregated_entries].
  rewrite slice_to_nonneg, flat_map_of_map, map_map by lia.
  repeat split; try reflexivity; lia.
Qed.

(** X17.  The entries [aggregate_logs] returns are the greatest of all the
    entries the queried servers gave: they come in decreasing order of
    content, there are [entries] of them or, if the servers gave fewer,
    all; every entry left out is at most as great as every entry returned;
    and [total_entries] counts the entries before the cut. *)
Theorem aggregate_logs_returns_the_greatest (body : Aggregated) :
  aggregate_logs registry file_asked entries_asked keyword servers = Done body ->
  StronglySorted (fun a b => str_ltb a.(content) b.(content) = false)
    body.(aggregated_entries)
  /\ body.(total_entries) = len fetched
  /\ len body.(aggregated_entries) = Z.min entries_asked (len fetched)
  /\ exists left_out,
       Permutation (body.(aggregated_entries) ++ left_out) fetched
       /\ forall a b, In a body.(aggregated_entries) -> In b left_out ->
                      str_ltb a.(content) b.(content) = false.
Proof.
  intros H. apply aggregate_logs_done in H as (Hrange & _ & _ & Htotal & Hentries).
  rewrite Htotal, Hentries.
  assert (Hlen : len (sort_by_content_reverse fetched) = len fetched).
  { unfold len. f_equal. symmetry.
    apply Permutation_length, sort_by_content_permutation. }
  split; [apply StronglySorted_firstn, sort_by_content_sorted |].
  split; [exact Hlen |].
  split.
  { rewrite <- Hlen. unfold len. rewrite length_firstn. lia. }
  exists (skipn (Z.to_nat entries_asked) (sort_by_content_reverse fetched)).
  split.
  - rewrite firstn_skipn. symmetry. apply sort_by_content_permutation.
  - apply StronglySorted_app_inv. rewrite firstn_skipn.
    apply sort_by_content_sorted.
Qed.

(** X18.  [aggregate_logs] reports one status for each queried server, in
    the order of the registry.  Every entry it returns is a line that the
    server it names gave in a successful fetch; and, the names being
    distinct, a server whose fetch failed or timed out is reported with no
    entry and an error, and no returned entry bears its name. *)
Theorem aggregate_logs_entries_come_from_successful_fetches (body : Aggregated) :
  aggregate_logs registry file_asked entries_asked keyword servers = Done body ->
  map queried_name body.(servers_queried) =
  map name (servers_to_query registry servers)
  /\ (forall e, In e body.(aggregated_entries) ->
        exists s, In s (servers_to_query registry servers)
          /\ e.(entry_server) = s.(name)
          /\ (fetch_logs_from_server s file_asked entries_asked keyword).(status)
             = success
          /\ In e.(content)
               (fetch_logs_from_server s file_asked entries_asked keyword).(entries))
  /\ (NoDup (map name registry) ->
      forall s, In s (servers_to_query registry servers) ->
        (fetch_logs_from_server s file_asked entries_asked keyword).(status)
        <> success ->
        (exists q, In q body.(servers_queried)
           /\ q.(queried_name) = s.(name)
           /\ q.(queried_status) <> success
           /\ q.(entries_returned) = 0
           /\ q.(queried_error) <> None)
        /\ forall e, In e body.(aggregated_entries) -> e.(entry_server) <> s.(name)).
Proof.
  intros H. apply aggregate_logs_done in H as (_ & _ & Hqueried & _ & Hentries).
  assert (Hfrom : forall e, In e body.(aggregated_entries) ->
            exists s, In s (servers_to_query registry servers)
              /\ e.(entry_server) = s.(name)
              /\ (fetch_logs_from_server s file_asked entries_asked keyword).(status)
                 = success
              /\ In e.(content)
                   (fetch_logs_from_server s file_asked entries_asked keyword).(entries)).
  { intros e He. rewrite Hentries in He.
    rewrite <- (firstn_skipn (Z.to_nat entries_asked) (sort_by_content_reverse fetched))
      in He at 1.
    assert (He' : In e (sort_by_content_reverse fetched)).
    { rewrite <- (firstn_skipn (Z.to_nat entries_asked)). apply in_or_app.
      left. rewrite firstn_skipn in He. exact He. }
    apply (Permutation_in e (Permutation_sym (sort_by_content_permutation fetched)))
      in He'.
    apply in_flat_map in He' as (s & Hs & Hin).
    unfold entries_of in Hin. apply in_map_iff in Hin as (line & <- & Hline).
    cbn [entry_server content].
    destruct (fetch_failed s file_asked entries_asked keyword) as [Hname Hfail].
    exists s. repeat split; auto.
    destruct (status _) eqn:Hstatus; [reflexivity | |];
      (destruct Hfail as (Hnone & _); [congruence |];
       rewrite Hnone in Hline; destruct Hline). }
  split; [| split].
  - rewrite Hqueried, map_map. apply map_ext_in. intros s _.
    cbn [queried_name]. apply fetch_failed.
  - exact Hfrom.
  - intros Hnodup s Hs Hfailed.
    destruct (fetch_failed s file_asked entries_asked keyword) as [Hname Hfail].
    destruct (Hfail Hfailed) as (Hnone & Hcount & Herror).
    split.
    + eexists. split.
      * rewrite Hqueried. apply in_map_iff. exists s. split; [reflexivity | exact Hs].
      * cbn [queried_name queried_status entries_returned queried_error]. auto.
    + intros e He Hsame.
      destruct (Hfrom e He) as (s' & Hs' & Hname' & Hok & _).
      assert (s' = s).
      { apply (NoDup_map_injective name registry);
          [exact Hnodup | eauto using servers_to_query_registered
          | eauto using servers_to_query_registered | congruence]. }
      subst s'. contradiction.
Qed.

(** The answer of [aggregate_logs], case by case. *)
Lemma aggregate_logs_reply :
  (~ 1 <= entries_asked <= 1000
   /\ aggregate_logs registry file_asked entries_asked keyword servers =
      HTTPException 422 (QueryOutOfRange entries_asked))
  \/ (1 <= entries_asked <= 1000 /\ registry = []
      /\ aggregate_logs registry file_asked entries_asked keyword servers =
         HTTPException 400 NoServersRegistered)
  \/ (1 <= entries_asked <= 1000 /\ registry <> []
      /\ servers_to_query registry servers = []
      /\ exists given,
           servers = Some given
           /\ aggregate_logs registry file_asked entries_asked keyword servers =
              HTTPException 404 (NoneOfTheServersFound given))
  \/ (1 <= entries_asked <= 1000 /\ registry <> []
      /\ servers_to_query registry servers <> []
      /\ exists body,
           aggregate_logs registry file_asked entries_asked keyword servers =
           Done body).
Proof.
  unfold aggregate_logs, query_entries_ok.
  destruct (Z.leb_spec 1 entries_asked) as [Hlo | Hlo]; cbn [andb negb];
    [| left; split; [lia | reflexivity]].
  destruct (Z.leb_spec entries_asked 1000) as [Hhi | Hhi]; cbn [andb negb];
    [| left; split; [lia | reflexivity]].
  right.
  destruct registry as [| s0 rest] eqn:Hregistry.
  { left. split; [lia |]. split; reflexivity. }
  right.
  replace (len (s0 :: rest) =? 0) with false
    by (symmetry; apply Z.eqb_neq; unfold len; cbn [length]; lia).
  destruct servers as [given |]; cbn [is_not_None get_default andb servers_to_query].
  - destruct (truthy given) eqn:Hgiven; cbn [andb].
    + destruct (filter _ (s0 :: rest)) as [| s1 chosen] eqn:Hchosen; cbn [truthy negb].
      * left. split; [lia |]. split; [discriminate |]. split; [reflexivity |]. eauto.
      * right. split; [lia |]. split; [discriminate |]. split; [discriminate |]. eauto.
    + right. split; [lia |]. split; [discriminate |]. split; [discriminate |]. eauto.
  - right. split; [lia |]. split; [discriminate |]. split; [discriminate |]. eauto.
Qed.

(** X19.  What [aggregate_logs] refuses is decided by its arguments and
    the registry alone: 422 for [entries] outside 1..1000, 400 for an empty
    registry, 404 when [servers] names no registered server, and nothing
    else.  A secondary server that fails, by a status other than 200, a
    timeout or an exception, never makes it fail: when every fetch fails
    it still answers 200, with no entry and one failed status for each
    server. *)
Theorem aggregate_logs_survives_failed_fetches :
  (forall code why,
      aggregate_logs registry file_asked entries_asked keyword servers =
      HTTPException code why
      <-> (~ 1 <= entries_asked <= 1000
           /\ code = 422 /\ why = QueryOutOfRange entries_asked)
          \/ (1 <= entries_asked <= 1000 /\ registry = []
              /\ code = 400 /\ why = NoServersRegistered)
          \/ (1 <= entries_asked <= 1000 /\ registry <> []
              /\ servers_to_query registry servers = []
              /\ code = 404
              /\ exists given, servers = Some given
                               /\ why = NoneOfTheServersFound given))
  /\ (1 <= entries_asked <= 1000 ->
      servers_to_query registry servers <> [] ->
      (forall s, In s (servers_to_query registry servers) ->
         (fetch_logs_from_server s file_asked entries_asked keyword).(status)
         <> success) ->
      exists body,
        aggregate_logs registry file_asked entries_asked keyword servers = Done body
        /\ body.(total_entries) = 0
        /\ body.(aggregated_entries) = []
        /\ map queried_name body.(servers_queried) =
           map name (servers_to_query registry servers)
        /\ forall q, In q body.(servers_queried) ->
             q.(queried_status) <> success
             /\ q.(entries_returned) = 0
             /\ q.(queried_error) <> None).
Proof.
  split.
  - intros code why.
    destruct aggregate_logs_reply
      as [(Hrange & ->)
         | [(Hrange & Hnil & ->)
           | [(Hrange & Hne & Hnone & given & Hgiven & ->)
             | (Hrange & Hne & Hsome & body & ->)]]].
    + split.
      * intros H. injection H as <- <-. left. auto.
      * intros [(_ & -> & ->) | [(Hr & _) | (Hr & _)]];
          [reflexivity | contradiction | contradiction].
    + split.
      * intros H. injection H as <- <-. right. left. auto.
      * intros [(Hr & _) | [(_ & _ & -> & ->) | (_ & Hne & _)]];
          [contradiction | reflexivity | contradiction].
    + split.
      * intros H. injection H as <- <-. right. right. eauto 8.
      * intros [(Hr & _) | [(_ & Hnil & _) | (_ & _ & _ & -> & g & Hg & ->)]];
          [contradiction | contradiction |].
        rewrite Hgiven in Hg. injection Hg as <-. reflexivity.
    + split; [discriminate |].
      intros [(Hr & _) | [(_ & Hnil & _) | (_ & _ & Hnone & _)]]; contradiction.
  - intros Hrange Hsome Hfailed.
    assert (Hanswer : exists body,
               aggregate_logs registry file_asked entries_asked keyword servers
               = Done body).
    { destruct aggregate_logs_reply
        as [(Hr & _) | [(_ & Hnil & _) | [(_ & _ & Hnone & _) | (_ & _ & _ & H)]]];
        [contradiction | | contradiction | exact H].
      exfalso. apply Hsome. rewrite Hnil.
      destruct servers as [given |]; [| reflexivity]. cbn.
      destruct (truthy given); reflexivity. }
    destruct Hanswer as [body Hbody]. exists body. split; [exact Hbody |].
    apply aggregate_logs_done in Hbody as (_ & _ & Hqueried & Htotal & Hentries).
    assert (Hnone : forall queried,
               (forall s, In s queried ->
                  (fetch_logs_from_server s file_asked entries_asked keyword).(status)
                  <> success) ->
               flat_map
                 (fun s => entries_of
                             (fetch_logs_from_server s file_asked entries_asked
                                keyword))
                 queried = []).
    { induction queried as [| s rest IH]; intros Hall; [reflexivity |].
      cbn [flat_map]. rewrite IH by (intros x Hx; apply Hall; right; exact Hx).
      destruct (fetch_failed s file_asked entries_asked keyword) as [_ Hfail].
      destruct (Hfail (Hall s (or_introl eq_refl))) as (Hempty & _).
      unfold entries_of. rewrite Hempty. reflexivity. }
    rewrite Htotal, Hentries, Hqueried, (Hnone _ Hfailed).
    split; [reflexivity |]. split; [apply firstn_nil |]. split.
    + rewrite map_map. apply map_ext_in. intros s _. cbn [queried_name].
      apply fetch_failed.
    + intros q Hq. apply in_map_iff in Hq as (s & <- & Hs).
      cbn [queried_status entries_returned queried_error].
      destruct (fetch_failed s file_asked entries_asked keyword) as [_ Hfail].
      destruct (Hfail (Hfailed s Hs)) as (_ & Hcount & Herror). auto.
Qed.

End Aggregate.

(* ===================================================================== *)
(** * File listings and search over the secondary servers *)

Section Files.

Import Primary.

Context {RT : Runtime} {NW : Network}.

Variable registry : list SecondaryServer.

Lemma find_named (server_name : str) :
  match find (fun s => str_eqb s.(name) server_name) registry with
  | Some s => In s registry /\ s.(name) = server_name
  | None => ~ In server_name (map name registry)
  end.
Proof.
  destruct (find _ registry) as [s |] eqn:E.
  - apply find_some in E as [Hin Heq]. apply str_eqb_eq in Heq. auto.
  - rewrite in_map_iff. intros (s & Heq & Hin).
    apply (find_none _ _ E) in Hin. cbn in Hin.
    rewrite Heq, str_eqb_refl in Hin. discriminate.
Qed.

(** X20.  [list_server_files] answers 200, 404 or 500 and nothing else:
    404 exactly for a name that is not registered, 200 exactly when the
    first server of that name answers its listing with 200, and 500 in
    every other case, whether the listing is answered with another status,
    raises or times out.  The status of the secondary server is never
    passed on, although line 153 raises an exception with that status: the
    handler of line 154 catches it. *)
Theorem list_server_files_never_passes_the_status_on (server_name : str) :
  (list_server_files registry server_name =
   HTTPException 404 (ServerNotFound server_name)
   <-> ~ In server_name (map name registry))
  /\ (forall body,
         list_server_files registry server_name = Done body
         <-> exists s files,
               find (fun s => str_eqb s.(name) server_name) registry = Some s
               /\ get_files_at (s.(url) ++ u "/logs/list") = FilesResponse 200 files
               /\ body = (server_name, get_default files []))
  /\ ((exists why, list_server_files registry server_name = HTTPException 500 why)
      <-> exists s,
            find (fun s => str_eqb s.(name) server_name) registry = Some s
            /\ forall files,
                 get_files_at (s.(url) ++ u "/logs/list") <> FilesResponse 200 files)
  /\ (forall code why,
         list_server_files registry server_name = HTTPException code why ->
         code = 404 \/ code = 500)
  /\ (forall s upstream files,
         find (fun s => str_eqb s.(name) server_name) registry = Some s ->
         get_files_at (s.(url) ++ u "/logs/list") = FilesResponse upstream files ->
         upstream <> 200 ->
         list_server_files registry server_name =
         HTTPException 500 (ErrorFetchingFiles server_name (UpstreamStatus upstream)))
  /\ (forall s text,
         find (fun s => str_eqb s.(name) server_name) registry = Some s ->
         get_files_at (s.(url) ++ u "/logs/list") = FilesException text ->
         list_server_files registry server_name =
         HTTPException 500 (ErrorFetchingFiles server_name (FilesError text))).
Proof.
  unfold list_server_files. pose proof (find_named server_name) as Hfind.
  destruct (find _ registry) as [s |].
  - destruct Hfind as [Hin <-].
    assert (Hname : In (name s) (map name registry)) by (apply in_map, Hin).
    destruct (get_files_at _) as [code files | text] eqn:Hfiles;
      [destruct (Z.eqb_spec code 200) as [-> | Hne] |];
      (split; [| split; [| split; [| split; [| split]]]]).
    + split; [discriminate | contradiction].
    + intros body. split.
      * intros H. injection H as <-. eauto.
      * intros (s' & files' & Hs' & Hup & ->). injection Hs' as <-.
        rewrite Hfiles in Hup. injection Hup as <-. reflexivity.
    + split; [intros [why H]; discriminate H |].
      intros (s' & Hs' & Hnot). injection Hs' as <-. destruct (Hnot files Hfiles).
    + intros c why H. discriminate H.
    + intros s' upstream files' Hs' Hup Hne. injection Hs' as <-.
      rewrite Hfiles in Hup. injection Hup as <- _. contradiction.
    + intros s' text Hs' Hup. injection Hs' as <-.
      rewrite Hfiles in Hup. discriminate Hup.
    + split; [discriminate | contradiction].
    + intros body. split; [discriminate |].
      intros (s' & files' & Hs' & Hup & _). injection Hs' as <-.
      rewrite Hfiles in Hup. injection Hup as Hcode _. contradiction.
    + split; [| eauto]. intros _. exists s. split; [reflexivity |].
      intros files' Hup. rewrite Hfiles in Hup. injection Hup as Hcode _.
      contradiction.
    + intros c why H. injection H as <- _. auto.
    + intros s' upstream files' Hs' Hup Hne'. injection Hs' as <-.
      rewrite Hfiles in Hup. injection Hup as <- _. reflexivity.
    + intros s' text Hs' Hup. injection Hs' as <-.
      rewrite Hfiles in Hup. discriminate Hup.
    + split; [discriminate | contradiction].
    + intros body. split; [discriminate |].
      intros (s' & files' & Hs' & Hup & _). injection Hs' as <-.
      rewrite Hfiles in Hup. discriminate Hup.
    + split; [| eauto]. intros _. exists s. split; [reflexivity |].
      intros files' Hup. rewrite Hfiles in Hup. discriminate Hup.
    + intros c why H. injection H as <- _. auto.
    + intros s' upstream files' Hs' Hup Hne. injection Hs' as <-.
      rewrite Hfiles in Hup. discriminate Hup.
    + intros s' text' Hs' Hup. injection Hs' as <-.
      rewrite Hfiles in Hup. injection Hup as <-. reflexivity.
  - split; [| split; [| split; [| split; [| split]]]].
    + split; auto.
    + intros body. split; [discriminate |].
      intros (s & files & Hs & _). discriminate Hs.
    + split; [intros [why H]; discriminate H |].
      intros (s & Hs & _). discriminate Hs.
    + intros c why H. injection H as <- _. auto.
    + intros s upstream files Hs. discriminate Hs.
    + intros s text Hs. discriminate Hs.
Qed.

(** ** [search_logs] *)

Local Abbreviation fewer_matches_first :=
  (fun a b : SearchResult => b.(matches) <= a.(matches)).

Lemma insert_by_matches_permutation (x : SearchResult) (l : list SearchResult) :
  Permutation (x :: l) (insert_by_matches x l).
Proof.
  induction l as [| y l IH]; cbn [insert_by_matches]; [reflexivity |].
  destruct (_ <? _); [| reflexivity].
  rewrite perm_swap. apply perm_skip, IH.
Qed.

Lemma sort_by_matches_permutation (l : list SearchResult) :
  Permutation l (sort_by_matches_reverse l).
Proof.
  unfold sort_by_matches_reverse.
  induction l as [| x l IH]; cbn [fold_right]; [reflexivity |].
  rewrite <- insert_by_matches_permutation. apply perm_skip, IH.
Qed.

Lemma insert_by_matches_sorted (x : SearchResult) (l : list SearchResult) :
  StronglySorted fewer_matches_first l ->
  StronglySorted fewer_matches_first (insert_by_matches x l).
Proof.
  induction l as [| y l IH]; cbn [insert_by_matches]; intros H.
  - repeat constructor.
  - inversion H as [| ? ? Hrest Hall]; subst.
    destruct (Z.ltb_spec (matches x) (matches y)) as [Hlt | Hge].
    + constructor; [auto |].
      eapply Permutation_Forall; [apply insert_by_matches_permutation |].
      constructor; [lia | exact Hall].
    + constructor; [exact H |]. constructor; [exact Hge |].
      rewrite Forall_forall in *. intros z Hz. specialize (Hall z Hz).
      cbn beta in *. lia.
Qed.

Lemma sort_by_matches_sorted (l : list SearchResult) :
  StronglySorted fewer_matches_first (sort_by_matches_reverse l).
Proof.
  unfold sort_by_matches_reverse.
  induction l as [| x l IH]; cbn [fold_right]; [constructor |].
  apply insert_by_matches_sorted, IH.
Qed.

Lemma filenames_of_named (files : list FileInfo) (filenames : list str) :
  filenames_of files = Some filenames ->
  forall file_asked, In file_asked filenames ->
    exists file_info, In file_info files /\ file_info.(file_filename) = Some file_asked.
Proof.
  revert filenames. induction files as [| file_info rest IH]; cbn [filenames_of].
  - intros filenames H. injection H as <-. intros ? [].
  - destruct (file_filename file_info) as [first |] eqn:Hfirst; [| discriminate].
    destruct (filenames_of rest) as [others |]; [| discriminate].
    intros filenames H. injection H as <-.
    intros file_asked [<- | Hin].
    + exists file_info. cbn [In]. auto.
    + destruct (IH others eq_refl file_asked Hin) as (fi & Hfi & Hname).
      exists fi. cbn [In]. auto.
Qed.

Lemma search_tasks_listed (file_results : list (SecondaryServer * list FileInfo))
    (tasks : list (SecondaryServer * str)) :
  search_tasks file_results = Some tasks ->
  forall from file_asked, In (from, file_asked) tasks ->
    exists files file_info,
      In (from, files) file_results
      /\ In file_info (slice_to 5 files)
      /\ file_info.(file_filename) = Some file_asked.
Proof.
  revert tasks. induction file_results as [| [s files] rest IH]; cbn [search_tasks].
  - intros tasks H. injection H as <-. intros ? ? [].
  - destruct (filenames_of (slice_to 5 files)) as [filenames |] eqn:Hnames;
      [| discriminate].
    destruct (search_tasks rest) as [others |]; [| discriminate].
    intros tasks H. injection H as <-.
    intros from file_asked Hin. apply in_app_or in Hin as [Hin | Hin].
    + apply in_map_iff in Hin as (n & Heq & Hn). injection Heq as <- <-.
      destruct (filenames_of_named _ _ Hnames n Hn) as (fi & Hfi & Hname).
      exists files, fi. cbn [In]. auto.
    + destruct (IH others eq_refl from file_asked Hin) as (fs & fi & H1 & H2 & H3).
      exists fs, fi. cbn [In]. auto.
Qed.

Variable keyword : str.
Variable entries_asked : Z.
Variable servers : option str.

Lemma get_files_server (s : SecondaryServer) : fst (get_files s) = s.
Proof.
  unfold get_files. destruct (get_files_at _) as [code fs | text];
    [destruct (code =? 200) |]; reflexivity.
Qed.

Lemma filenames_found {B : Type} (F : str -> list B) (files : list FileInfo)
    (filenames : list str) :
  filenames_of files = Some filenames ->
  flat_map (fun file_info =>
              match file_info.(file_filename) with
              | Some file_asked => F file_asked
              | None => []
              end) files
  = flat_map F filenames.
Proof.
  revert filenames. induction files as [| file_info rest IH]; cbn [filenames_of].
  - intros filenames H. injection H as <-. reflexivity.
  - destruct (file_filename file_info) as [first |] eqn:Hfirst; [| discriminate].
    destruct (filenames_of rest) as [others |]; [| discriminate].
    intros filenames H. injection H as <-.
    cbn [flat_map]. rewrite Hfirst, (IH others eq_refl). reflexivity.
Qed.

(** The lines a search finds, server by server and file by file, in the
    order of the fetches. *)
Local Abbreviation found_by queried :=
  (flat_map
     (fun s =>
        flat_map
          (fun file_info =>
             match file_info.(file_filename) with
             | Some file_asked =>
                 results_of keyword
                   (fetch_logs_from_server s file_asked entries_asked (Some keyword))
             | None => []
             end)
          (slice_to 5 (snd (get_files s))))
     queried).

Lemma search_tasks_found (queried : list SecondaryServer)
    (tasks : list (SecondaryServer * str)) :
  search_tasks (map get_files queried) = Some tasks ->
  flat_map (results_of keyword)
    (map (fun '(from, file_asked) =>
            fetch_logs_from_server from file_asked entries_asked (Some keyword))
         tasks)
  = found_by queried.
Proof.
  revert tasks. induction queried as [| s rest IH]; cbn [map search_tasks flat_map].
  - intros tasks H. injection H as <-. reflexivity.
  - pose proof (get_files_server s) as Hserver.
    destruct (get_files s) as [from files]. cbn [fst snd] in *. subst from.
    destruct (filenames_of (slice_to 5 files)) as [filenames |] eqn:Hnames;
      [| discriminate].
    destruct (search_tasks (map get_files rest)) as [others |]; [| discriminate].
    intros tasks H. injection H as <-.
    rewrite map_app, flat_map_app, (IH others eq_refl).
    rewrite map_map, flat_map_of_map.
    rewrite (filenames_found _ _ _ Hnames). reflexivity.
Qed.

(** What an answered search holds. *)
Lemma search_logs_done (body : Searched) :
  search_logs registry keyword entries_asked servers = Replied (Done body) ->
  1 <= entries_asked <= 1000
  /\ body.(searched_keyword) = keyword
  /\ body.(total_matches) =
     len (sort_by_matches_reverse (found_by (servers_to_query registry servers)))
  /\ body.(results) =
     firstn (Z.to_nat entries_asked)
       (sort_by_matches_reverse (found_by (servers_to_query registry servers))).
Proof.
  unfold search_logs.
  destruct (negb (query_entries_ok entries_asked)) eqn:Hq; [discriminate |].
  apply primary_query_entries_range in Hq.
  destruct (len registry =? 0); [discriminate |].
  destruct (search_tasks _) as [tasks |] eqn:Htasks; [| discriminate].
  intros H. injection H as <-. cbn [results total_matches searched_keyword].
  rewrite slice_to_nonneg, (search_tasks_found _ _ Htasks) by lia.
  auto.
Qed.

(** Where a line that was found comes from. *)
Lemma found_by_source (queried : list SecondaryServer) (r : SearchResult) :
  In r (found_by queried) ->
  r.(matches) = str_count (str_lower r.(result_content)) (str_lower keyword)
  /\ exists s file_info file_asked,
       In s queried
       /\ In file_info (slice_to 5 (snd (get_files s)))
       /\ file_info.(file_filename) = Some file_asked
       /\ r.(result_server) = s.(name)
       /\ 0 < (fetch_logs_from_server s file_asked entries_asked
                 (Some keyword)).(count)
       /\ In r.(result_content)
            (fetch_logs_from_server s file_asked entries_asked
               (Some keyword)).(entries).
Proof.
  intros Hr. apply in_flat_map in Hr as (s & Hs & Hr).
  apply in_flat_map in Hr as (file_info & Hfive & Hr).
  destruct (file_filename file_info) as [file_asked |] eqn:Hname; [| destruct Hr].
  unfold results_of in Hr.
  destruct (Z.gtb_spec (count (fetch_logs_from_server s file_asked entries_asked
                                 (Some keyword))) 0) as [Hpos | Hnot];
    [| destruct Hr].
  apply in_map_iff in Hr as (line & <- & Hline).
  cbn [matches result_content result_server]. split; [reflexivity |].
  exists s, file_info, file_asked.
  repeat split; auto; try lia.
  apply (fetch_failed s file_asked entries_asked (Some keyword)).
Qed.

(** X21.  The results of [search_logs] are the lines with the most
    matches among all the lines found: they come in decreasing order of
    their number of matches, there are [entries] of them or, if fewer were
    found, all, and no line left out has more matches than a line
    returned.  [total_matches] is the number of lines found before that
    cut, not a number of occurrences.  The lines found are those that the
    queried servers gave, with a positive count, for each of the first five
    files of their listings, with the occurrences of the keyword in them
    counted without regard to case. *)
Theorem search_logs_results (body : Searched) :
  search_logs registry keyword entries_asked servers = Replied (Done body) ->
  StronglySorted (fun a b => b.(matches) <= a.(matches)) body.(results)
  /\ body.(total_matches) = len (found_by (servers_to_query registry servers))
  /\ len body.(results) = Z.min entries_asked body.(total_matches)
  /\ body.(searched_keyword) = keyword
  /\ (exists left_out,
         Permutation (body.(results) ++ left_out)
           (found_by (servers_to_query registry servers))
         /\ forall a b, In a body.(results) -> In b left_out ->
                        b.(matches) <= a.(matches))
  /\ forall r, In r body.(results) ->
       r.(matches) = str_count (str_lower r.(result_content)) (str_lower keyword)
       /\ exists s file_info file_asked,
            In s (servers_to_query registry servers)
            /\ In file_info (slice_to 5 (snd (get_files s)))
            /\ file_info.(file_filename) = Some file_asked
            /\ r.(result_server) = s.(name)
            /\ 0 < (fetch_logs_from_server s file_asked entries_asked
                      (Some keyword)).(count)
            /\ In r.(result_content)
                 (fetch_logs_from_server s file_asked entries_asked
                    (Some keyword)).(entries).
Proof.
  intros H. apply search_logs_done in H as (Hrange & Hkeyword & Htotal & Hresults).
  set (found := found_by (servers_to_query registry servers)) in *.
  assert (Hlen : len (sort_by_matches_reverse found) = len found).
  { unfold len. f_equal. symmetry.
    apply Permutation_length, sort_by_matches_permutation. }
  rewrite Htotal, Hresults, Hlen.
  split; [apply StronglySorted_firstn, sort_by_matches_sorted |].
  split; [reflexivity |].
  split; [rewrite <- Hlen; unfold len; rewrite length_firstn; lia |].
  split; [exact Hkeyword |].
  split.
  - exists (skipn (Z.to_nat entries_asked) (sort_by_matches_reverse found)).
    split.
    + rewrite firstn_skipn. symmetry. apply sort_by_matches_permutation.
    + apply (StronglySorted_app_inv (fun a b : SearchResult => matches b <= matches a)).
      rewrite firstn_skipn. apply sort_by_matches_sorted.
  - intros r Hr. apply found_by_source.
    apply (Permutation_in r (Permutation_sym (sort_by_matches_permutation found))).
    rewrite <- (firstn_skipn (Z.to_nat entries_asked)). apply in_or_app. auto.
Qed.

(** X24.  A secondary server that cannot list its files never makes a
    search fail, and contributes nothing to it: a listing that is answered
    with a status other than 200, raises or times out counts as an empty
    listing.  When the listing of every queried server fails, [search_logs]
    answers 200 with no result; and, the names being distinct, no result of
    a search bears the name of a server whose listing failed. *)
Theorem search_logs_survives_failed_listings :
  (forall s,
      (forall files,
          get_files_at (s.(url) ++ u "/logs/list") <> FilesResponse 200 files) ->
      get_files s = (s, []))
  /\ (1 <= entries_asked <= 1000 ->
      registry <> [] ->
      (forall s, In s (servers_to_query registry servers) ->
         forall files,
           get_files_at (s.(url) ++ u "/logs/list") <> FilesResponse 200 files) ->
      search_logs registry keyword entries_asked servers =
      Replied (Done {| searched_keyword := keyword;
                       total_matches := 0;
                       results := [] |}))
  /\ (forall body,
         search_logs registry keyword entries_asked servers = Replied (Done body) ->
         NoDup (map name registry) ->
         forall s, In s (servers_to_query registry servers) ->
           (forall files,
               get_files_at (s.(url) ++ u "/logs/list") <> FilesResponse 200 files) ->
           forall r, In r body.(results) -> r.(result_server) <> s.(name)).
Proof.
  assert (Hempty : forall s,
             (forall files,
                 get_files_at (s.(url) ++ u "/logs/list") <> FilesResponse 200 files) ->
             get_files s = (s, [])).
  { intros s Hfailed. unfold get_files.
    destruct (get_files_at _) as [code fs | text]; [| reflexivity].
    destruct (Z.eqb_spec code 200) as [-> | Hcode]; [| reflexivity].
    destruct (Hfailed fs eq_refl). }
  split; [exact Hempty | split].
  - intros Hrange Hne Hfailed. unfold search_logs, query_entries_ok.
    destruct (Z.leb_spec 1 entries_asked); [| lia].
    destruct (Z.leb_spec entries_asked 1000); [| lia]. cbn [andb negb].
    replace (len registry =? 0) with false.
    2: { symmetry. apply Z.eqb_neq. destruct registry; [contradiction |].
         unfold len. cbn [length]. lia. }
    assert (Htasks : forall queried,
               (forall s, In s queried ->
                  forall files,
                    get_files_at (s.(url) ++ u "/logs/list")
                    <> FilesResponse 200 files) ->
               search_tasks (map get_files queried) = Some []).
    { induction queried as [| s rest IH]; intros Hall; [reflexivity |].
      cbn [map search_tasks].
      rewrite (Hempty s (Hall s (or_introl eq_refl))).
      rewrite IH by (intros x Hx; apply Hall; right; exact Hx).
      reflexivity. }
    rewrite (Htasks _ Hfailed). cbn [map flat_map].
    unfold sort_by_matches_reverse. cbn [fold_right].
    rewrite slice_to_nonneg, firstn_nil by lia. reflexivity.
  - intros body H Hnodup s Hs Hfailed r Hr Hsame.
    apply search_logs_done in H as (_ & _ & _ & Hresults).
    rewrite Hresults in Hr.
    assert (Hfound : In r (found_by (servers_to_query registry servers))).
    { apply (Permutation_in r (Permutation_sym (sort_by_matches_permutation _))).
      rewrite <- (firstn_skipn (Z.to_nat entries_asked)). apply in_or_app. auto. }
    apply found_by_source in Hfound
      as (_ & s' & file_info & file_asked & Hs' & Hfive & _ & Hname & _).
    assert (s' = s).
    { apply (NoDup_map_injective name registry);
        [exact Hnodup | eauto using servers_to_query_registered
        | eauto using servers_to_query_registered | congruence]. }
    subst s'. rewrite (Hempty s Hfailed) in Hfive. cbn [snd] in Hfive.
    unfold slice_to in Hfive. rewrite firstn_nil in Hfive. destruct Hfive.
Qed.

(** X22.  [search_logs] never answers 404: where [aggregate_logs] refuses
    a [servers] filter that names no registered server, [search_logs]
    answers 200 with no result.  Its only refusals are 422 and, for an
    empty registry, 400. *)
Theorem search_logs_never_answers_404 :
  (forall code why,
      search_logs registry keyword entries_asked servers =
      Replied (HTTPException code why) ->
      (code = 422 /\ ~ 1 <= entries_asked <= 1000) \/ (code = 400 /\ registry = []))
  /\ (1 <= entries_asked <= 1000 ->
      registry <> [] ->
      servers_to_query registry servers = [] ->
      search_logs registry keyword entries_asked servers =
      Replied (Done {| searched_keyword := keyword; total_matches := 0; results := [] |})
      /\ exists given,
           servers = Some given
           /\ forall file_asked filter,
                aggregate_logs registry file_asked entries_asked filter servers =
                HTTPException 404 (NoneOfTheServersFound given)).
Proof.
  unfold search_logs, aggregate_logs, query_entries_ok.
  destruct (Z.leb_spec 1 entries_asked) as [Hlo | Hlo],
    (Z.leb_spec entries_asked 1000) as [Hhi | Hhi]; cbn [andb negb];
    try (split; [intros code why H; injection H as <- _; left; split; [reflexivity | lia]
                | intros Hrange; lia]).
  destruct (Z.eqb_spec (len registry) 0) as [Hempty | Hsome].
  { assert (registry = []) as Hnil
      by (destruct registry; [reflexivity | unfold len in Hempty; cbn [length] in Hempty; lia]).
    split; [intros code why H; injection H as <- _; auto | intros _ Hne; contradiction]. }
  split.
  - intros code why H. destruct (search_tasks _); discriminate H.
  - intros _ Hne Hnone. rewrite Hnone. cbn [map search_tasks flat_map].
    split.
    + unfold sort_by_matches_reverse. cbn [fold_right].
      rewrite slice_to_nonneg, firstn_nil by lia. reflexivity.
    + unfold servers_to_query in Hnone.
      destruct servers as [given |]; [| contradiction].
      destruct (truthy given) eqn:Hgiven; [| contradiction].
      exists given. split; [reflexivity |]. intros file_asked filter.
      cbn [is_not_None get_default andb truthy negb]. rewrite Hgiven. reflexivity.
Qed.

End Files.

(* ===================================================================== *)
(** * The endpoints on explicit requests *)

Section SurfaceInstances.

#[local] Existing Instance basic_latin_runtime.
#[local] Existing Instance python_json.



Lemma get_logs_empty_keyword_instance :
  str_lower [] = []
  /\ forall body io,
       get_logs small_chunks example_fs (u "log1.txt") 2 None =
       Some (Respond body, io) ->
       body.(filtered) = false
       /\ get_logs small_chunks example_fs (u "log1.txt") 2 (Some []) =
          Some (Respond {| filename := body.(filename);
                           total_lines := body.(total_lines);
                           returned_lines := body.(returned_lines);
                           filtered := true;
                           entries := body.(entries) |}, io).
Proof.
  assert (H1 : str_lower [] = []) by reflexivity.
  split; [exact H1 |].
  exact (proj2 (get_logs_empty_keyword_sets_filtered small_chunks example_fs
                  (u "log1.txt") 2 H1)).
Defined.

Lemma stream_logs_body_instance :
  (query_entries_ok 2 = true
   /\ filename_rejected (u "log1.txt") = false
   /\ 0 < CHUNK_SIZE small_chunks
   /\ example_fs (u "log1.txt") = Regular four_line_file
   /\ len four_line_file <= MAX_FILE_SIZE small_chunks)
  /\ exists chunks io,
       stream_logs small_chunks example_fs (u "log1.txt") 2 None =
       Some (StreamingResponse chunks (Return tt), io)
       /\ concat chunks =
          entries_open
          ++ str_join entries_comma
               (map json_dumps (tail_spec_after_first 2 None four_line_file))
          ++ entries_close.
Proof.
  assert (H1 : query_entries_ok 2 = true) by reflexivity.
  assert (H2 : filename_rejected (u "log1.txt") = false) by reflexivity.
  assert (H3 : 0 < CHUNK_SIZE small_chunks) by (simpl; lia).
  assert (H4 : example_fs (u "log1.txt") = Regular four_line_file) by reflexivity.
  assert (H5 : len four_line_file <= MAX_FILE_SIZE small_chunks)
    by (apply Z.leb_le; reflexivity).
  split; [auto |].
  exact (stream_logs_body small_chunks example_fs (u "log1.txt") 2 None H1 H2
           four_line_file H3 H4 (or_intror H5)).
Defined.

Lemma stream_logs_fails_after_the_opening_instance :
  (query_entries_ok 2 = true
   /\ filename_rejected (u "log1.txt") = false
   /\ filename_rejected (u "apache") = false)
  /\ (stream_logs tiny_limit example_fs (u "log1.txt") 2 None =
      Some (StreamingResponse [entries_open] (Raise ValueError), [])
      /\ get_logs tiny_limit example_fs (u "log1.txt") 2 None =
         Some (HTTPException 413 (ExceptionText ValueError), []))
  /\ (stream_logs default_config example_fs (u "apache") 2 None =
      Some (StreamingResponse [entries_open] (Raise IsADirectoryError), [])
      /\ get_logs default_config example_fs (u "apache") 2 None =
         Some (HTTPException 400 (PathIsNotAFile (u "apache")), [])).
Proof.
  assert (H1 : query_entries_ok 2 = true) by reflexivity.
  assert (H2 : filename_rejected (u "log1.txt") = false) by reflexivity.
  assert (H3 : filename_rejected (u "apache") = false) by reflexivity.
  split; [auto |]. split.
  - destruct (proj1 (stream_logs_fails_after_the_opening tiny_limit example_fs
                       (u "log1.txt") 2 None H1 H2)) as [Hstream Hget].
    + reflexivity.
    + split; [discriminate | reflexivity].
    + split; [exact Hstream | apply Hget; reflexivity].
  - apply (proj2 (stream_logs_fails_after_the_opening default_config example_fs
                    (u "apache") 2 None H1 H3) 4096).
    + reflexivity.
    + split; [reflexivity | discriminate].
Defined.

End SurfaceInstances.

Section PrimaryInstances.

Import Primary.

#[local] Existing Instance basic_latin_runtime.
#[local] Existing Instance example_network.

Lemma example_registry_distinct : NoDup (map name example_registry).
Proof.
  repeat constructor; cbn; intros H;
    repeat (destruct H as [H | H]; [discriminate H |]); exact H.
Qed.

Lemma names_stay_distinct_instance :
  NoDup (map name example_registry)
  /\ (NoDup (map name (fst (register_server example_registry web_server)))
      /\ NoDup (map name (fst (unregister_server example_registry (u "db")))))
  /\ (register_test [web_server] db_server = false
      /\ register_test [web_server] db_mirror = false
      /\ register_append [web_server] db_server =
         ([web_server; db_server],
          Done {| registered_name := u "db"; total_servers := 2 |})
      /\ register_append [web_server; db_server] db_mirror =
         ([web_server; db_server; db_mirror],
          Done {| registered_name := u "db"; total_servers := 3 |})
      /\ ~ NoDup (map name [web_server; db_server; db_mirror])).
Proof.
  split; [exact example_registry_distinct |].
  split.
  - exact (proj1 (names_stay_distinct_unless_registrations_overlap example_registry
                    web_server web_server (u "db") example_registry_distinct)).
  - assert (Hone : NoDup (map name [web_server])) by (repeat constructor; intros []).
    apply (proj2 (names_stay_distinct_unless_registrations_overlap [web_server]
                    db_server db_mirror (u "db") Hone)).
    + cbn. intros [H | []]. discriminate H.
    + reflexivity.
    + reflexivity.
    + reflexivity.
Defined.

Lemma unregister_server_removes_the_name_instance :
  NoDup (map name example_registry)
  /\ unregister_server example_registry (u "db") =
     ([web_server; cache_server], Done (u "db"))
  /\ unregister_server example_registry (u "mail") =
     (example_registry, HTTPException 404 (ServerNotFound (u "mail"))).
Proof.
  split; [exact example_registry_distinct |].
  destruct (unregister_server_removes_the_name example_registry (u "db")
              example_registry_distinct) as [Hknown _].
  destruct (unregister_server_removes_the_name example_registry (u "mail")
              example_registry_distinct) as [_ Hunknown].
  split.
  - apply Hknown. right. left. reflexivity.
  - apply Hunknown. cbn. intros H.
    repeat (destruct H as [H | H]; [discriminate H |]). exact H.
Defined.

Lemma register_then_unregister_instance :
  (~ In db_server.(name) (map name [web_server])
   /\ get_health (db_server.(url) ++ u "/health") = ProbeStatus 200)
  /\ unregister_server (fst (register_server [web_server] db_server))
       db_server.(name) =
     ([web_server], Done db_server.(name)).
Proof.
  assert (H1 : ~ In db_server.(name) (map name [web_server])).
  { cbn. intros [H | []]. discriminate H. }
  assert (H2 : get_health (db_server.(url) ++ u "/health") = ProbeStatus 200)
    by reflexivity.
  split; [auto |].
  exact (register_then_unregister [web_server] db_server H1 H2).
Defined.

Lemma aggregate_logs_returns_the_greatest_instance :
  exists body,
    aggregate_logs example_registry (u "app.log") 2 None None = Done body
    /\ body.(aggregated_entries) =
       [ {| entry_server := u "web"; content := u "09:02 error b" |};
         {| entry_server := u "cache"; content := u "09:01 error, error c" |} ]
    /\ StronglySorted (fun a b => str_ltb a.(content) b.(content) = false)
         body.(aggregated_entries)
    /\ body.(total_entries) = 3.
Proof.
  eexists. split; [reflexivity |].
  split; [reflexivity |].
  destruct (aggregate_logs_returns_the_greatest example_registry (u "app.log") 2
              None None _ eq_refl) as (Hsorted & Htotal & _).
  split; [exact Hsorted | exact Htotal].
Defined.

Lemma aggregate_logs_entries_instance :
  exists body,
    aggregate_logs example_registry (u "app.log") 2 None None = Done body
    /\ NoDup (map name example_registry)
    /\ (fetch_logs_from_server db_server (u "app.log") 2 None).(status) = timeout
    /\ map queried_name body.(servers_queried) = [u "web"; u "db"; u "cache"]
    /\ forall e, In e body.(aggregated_entries) -> e.(entry_server) <> u "db".
Proof.
  eexists. split; [reflexivity |].
  split; [exact example_registry_distinct |].
  split; [reflexivity |].
  destruct (aggregate_logs_entries_come_from_successful_fetches example_registry
              (u "app.log") 2 None None _ eq_refl) as (Hnames & _ & Hfailed).
  split; [exact Hnames |].
  apply (Hfailed example_registry_distinct db_server).
  - right. left. reflexivity.
  - discriminate.
Defined.

Lemma search_logs_results_instance :
  exists body,
    search_logs example_registry (u "ERROR") 5 (Some (u "web, cache")) =
    Replied (Done body)
    /\ map matches body.(results) = [1; 0]
    /\ StronglySorted (fun a b => b.(matches) <= a.(matches)) body.(results)
    /\ body.(total_matches) = 2
    /\ len body.(results) = Z.min 5 body.(total_matches).
Proof.
  eexists. split; [reflexivity |].
  split; [reflexivity |].
  destruct (search_logs_results (RT := basic_latin_runtime) (NW := example_network)
              example_registry (u "ERROR") 5 (Some (u "web, cache")) _ eq_refl)
    as (Hsorted & Htotal & Hlen & _).
  split; [exact Hsorted |]. split; [exact Htotal | exact Hlen].
Defined.

Lemma search_logs_survives_instance :
  search_logs example_registry (u "ERROR") 5 (Some (u "cache")) =
  Replied (Done {| searched_keyword := u "ERROR"; total_matches := 0; results := [] |})
  /\ exists body,
       search_logs example_registry (u "ERROR") 5 (Some (u "web, cache")) =
       Replied (Done body)
       /\ forall r, In r body.(results) -> r.(result_server) <> u "cache".
Proof.
  assert (Hcache : forall files,
             get_files_at (cache_server.(url) ++ u "/logs/list")
             <> FilesResponse 200 files) by (intros files; discriminate).
  split.
  - apply (proj1 (proj2 (search_logs_survives_failed_listings example_registry
                           (u "ERROR") 5 (Some (u "cache"))))).
    + lia.
    + discriminate.
    + intros s [<- | []]. exact Hcache.
  - eexists. split; [reflexivity |].
    apply (proj2 (proj2 (search_logs_survives_failed_listings
                           (RT := basic_latin_runtime) (NW := example_network)
                           example_registry (u "ERROR") 5 (Some (u "web, cache"))))
             _ eq_refl example_registry_distinct cache_server).
    + right. left. reflexivity.
    + exact Hcache.
Defined.

End PrimaryInstances.

(* ===================================================================== *)
(** * The primary server in front of servers of [src/app.py] *)

(** What [get_logs] answers to a request whose [entries] it accepts. *)
Lemma get_logs_answer {RT : Runtime} (cfg : config) (fs : str -> path_target)
    (file_asked : str) (entries_asked : Z) (keyword : option str) :
  0 < CHUNK_SIZE cfg ->
  1 <= entries_asked <= 10000 ->
  (exists body io,
      get_logs cfg fs file_asked entries_asked keyword = Some (Respond body, io)
      /\ body.(returned_lines) = len body.(entries)
      /\ len body.(entries) <= entries_asked
      /\ read_last_n_lines_efficient cfg (fs file_asked) entries_asked keyword =
         Some (Return body.(entries), io))
  \/ (exists code why,
         get_logs cfg fs file_asked entries_asked keyword =
         Some (HTTPException code why, [])
         /\ (code = 400 \/ code = 404 \/ code = 413 \/ code = 500)
         /\ (code = 500
             <-> filename_rejected file_asked = false
                 /\ exists sz, fs file_asked = Unreadable sz
                               /\ sz <> 0 /\ sz <= MAX_FILE_SIZE cfg)).
Proof.
  intros chunk_positive Hrange.
  assert (Hq' : query_entries_ok entries_asked = true).
  { unfold query_entries_ok. apply andb_true_intro. split; apply Z.leb_le; lia. }
  destruct (get_logs_cases cfg fs file_asked entries_asked keyword chunk_positive)
    as [(Hq & _)
       | (Hq & [(Hname & ->)
               | (Hname & [(Htarget & ->)
                          | [((sz & Htarget) & ->)
                            | [(Hreg & Hnz & Hbig & ->)
                              | [(data & lines & io & Htarget & Hsize & Hread & Hlen & ->)
                                | [(Htarget & ->)
                                  | (sz & Htarget & Hnz & Hok & ->)]]]]])])];
    [congruence | | | | | | |].
  - right. do 2 eexists. split; [reflexivity |]. split; [auto |].
    split; [discriminate | intros (Hname' & _); congruence].
  - right. do 2 eexists. split; [reflexivity |]. split; [auto |].
    split; [discriminate | intros (_ & sz & Hsz & _); congruence].
  - right. do 2 eexists. split; [reflexivity |]. split; [auto |].
    split; [discriminate | intros (_ & sz' & Hsz & _); congruence].
  - right. do 2 eexists. split; [reflexivity |]. split; [auto |].
    split; [discriminate |].
    intros (_ & sz & Hsz & _ & Hok). rewrite Hsz in Hbig. cbn [stat_size] in Hbig. lia.
  - left. do 2 eexists. split; [reflexivity |]. cbn [returned_lines entries].
    rewrite Htarget. auto.
  - left. do 2 eexists. split; [reflexivity |]. cbn [returned_lines entries].
    rewrite Htarget, efficient_on_unreadable_file. cbn.
    repeat split; auto; lia.
  - right. do 2 eexists. split; [reflexivity |]. split; [auto |].
    split; [intros _; eauto | reflexivity].
Qed.

Section Deployment.

Import Primary.

Context {RT : Runtime} {NW : Network}.

(** A fetch from a server of [src/app.py], for a number of entries the
    primary server accepts. *)
Lemma fetch_from_a_log_server (host : secondary) (s : SecondaryServer)
    (file_asked : str) (entries_asked : Z) (keyword : option str) :
  0 < CHUNK_SIZE host.(secondary_config) ->
  (forall f e k, get_logs_at (s.(url) ++ u "/logs") f e k = serve_logs host f e k) ->
  1 <= entries_asked <= 1000 ->
  let result := fetch_logs_from_server s file_asked entries_asked keyword in
  (result.(status) = success
   /\ result.(failure) = None
   /\ result.(count) = len result.(entries)
   /\ len result.(entries) <= entries_asked
   /\ exists io,
        read_last_n_lines_efficient host.(secondary_config)
          (host.(secondary_logs) file_asked) entries_asked
          (if keyword_truthy keyword then keyword else None) =
        Some (Return result.(entries), io))
  \/ (result.(status) = error
      /\ result.(count) = 0
      /\ result.(entries) = []
      /\ exists code,
           result.(failure) = Some (ErrorHTTP code)
           /\ (code = 400 \/ code = 404 \/ code = 413 \/ code = 500)
           /\ (code = 500
               <-> filename_rejected file_asked = false
                   /\ exists sz, host.(secondary_logs) file_asked = Unreadable sz
                                 /\ sz <> 0
                                 /\ sz <= MAX_FILE_SIZE host.(secondary_config))).
Proof.
  intros chunk_positive served Hrange. unfold fetch_logs_from_server.
  rewrite served. unfold serve_logs.
  destruct (get_logs_answer host.(secondary_config) host.(secondary_logs) file_asked
              entries_asked (if keyword_truthy keyword then keyword else None)
              chunk_positive)
    as [(body & io & -> & Hcount & Hlen & Hread) | (code & why & -> & Hcode & H500)];
    [lia | |].
  - left. cbn. eauto 8.
  - right.
    replace (code =? 200) with false
      by (symmetry; apply Z.eqb_neq; lia).
    cbn. eauto 8.
Qed.

Variable registry : list SecondaryServer.
Variable file_asked : str.
Variable entries_asked : Z.
Variable keyword : option str.
Variable servers : option str.

(** Every registered server [s] runs [src/app.py], as [host_of s]. *)
Variable host_of : SecondaryServer -> secondary.

Hypothesis log_servers :
  forall s, In s registry ->
    0 < CHUNK_SIZE (host_of s).(secondary_config)
    /\ forall f e k,
         get_logs_at (s.(url) ++ u "/logs") f e k = serve_logs (host_of s) f e k.

Lemma fetched_total (queried : list SecondaryServer) :
  (forall s, In s queried -> In s registry) ->
  1 <= entries_asked <= 1000 ->
  len (flat_map
         (fun s => entries_of (fetch_logs_from_server s file_asked entries_asked keyword))
         queried)
  = fold_right Z.add 0
      (map (fun s => (fetch_logs_from_server s file_asked entries_asked keyword).(count))
           queried)
  /\ len (flat_map
            (fun s => entries_of (fetch_logs_from_server s file_asked entries_asked keyword))
            queried)
     <= entries_asked * len queried.
Proof.
  intros Hsub Hrange. induction queried as [| s rest IH]; cbn [flat_map map fold_right].
  - split; [reflexivity |]. unfold len. cbn [length]. lia.
  - destruct IH as [IH1 IH2]; [intros x Hx; apply Hsub; right; exact Hx |].
    destruct (log_servers s (Hsub s (or_introl eq_refl))) as (Hchunk & Hserved).
    rewrite len_app, IH1.
    assert (Hmap : len (entries_of
                          (fetch_logs_from_server s file_asked entries_asked keyword))
                   = len (fetch_logs_from_server s file_asked entries_asked keyword).(entries)).
    { unfold entries_of, len. rewrite length_map. reflexivity. }
    rewrite Hmap.
    replace (len (s :: rest)) with (1 + len rest) by (unfold len; cbn [length]; lia).
    destruct (fetch_from_a_log_server (host_of s) s file_asked entries_asked keyword
                Hchunk Hserved Hrange)
      as [(_ & _ & Hcount & Hlen & _) | (_ & Hcount & Hnone & _)].
    + rewrite Hcount. split; [reflexivity | lia].
    + rewrite Hcount, Hnone. change (len (@nil str)) with 0.
      split; [reflexivity |]. pose proof (len_nonneg rest). nia.
Qed.


End Deployment.

Section DeploymentInstances.

Import Primary.

#[local] Existing Instance basic_latin_runtime.
#[local] Existing Instance log_server_network.


End DeploymentInstances.


Section RefusalInstances.

Import Primary.

#[local] Existing Instance basic_latin_runtime.
#[local] Existing Instance example_network.

Lemma register_server_instance :
  register_server [web_server] db_server =
  ([web_server; db_server],
   Done {| registered_name := u "db"; total_servers := 2 |})
  /\ register_server [web_server] web_server =
     ([web_server], HTTPException 400 (AlreadyRegistered (u "web")))
  /\ (snd (register_server [web_server] cache_server) =
      HTTPException 400 (HealthCheckFailed 503)
      /\ fst (register_server [web_server] cache_server) = [web_server]).
Proof.
  split; [| split].
  - apply (proj1 (register_server_accepts_new_healthy [web_server] db_server)).
    split; [| reflexivity]. cbn. intros [H | []]. discriminate H.
  - apply (proj2 (proj2 (register_server_accepts_new_healthy [web_server] web_server))).
    left. reflexivity.
  - split; [reflexivity |].
    apply (proj1 (proj2 (register_server_accepts_new_healthy [web_server] cache_server))
             400 (HealthCheckFailed 503)).
    reflexivity.
Defined.

Lemma aggregate_logs_survives_instance :
  aggregate_logs example_registry (u "app.log") 5 None (Some (u "mail")) =
  HTTPException 404 (NoneOfTheServersFound (u "mail"))
  /\ aggregate_logs example_registry (u "app.log") 1001 None None =
     HTTPException 422 (QueryOutOfRange 1001)
  /\ exists body,
       aggregate_logs example_registry (u "app.log") 1000 None (Some (u " db ")) =
       Done body
       /\ body.(total_entries) = 0
       /\ body.(aggregated_entries) = []
       /\ map queried_name body.(servers_queried) = [u "db"].
Proof.
  split; [| split].
  - apply (proj1 (aggregate_logs_survives_failed_fetches example_registry
                    (u "app.log") 5 None (Some (u "mail")))).
    right. right. split; [lia |]. split; [discriminate |].
    split; [reflexivity |]. split; [reflexivity |]. eauto.
  - apply (proj1 (aggregate_logs_survives_failed_fetches example_registry
                    (u "app.log") 1001 None None)).
    left. split; [lia | auto].
  - destruct (proj2 (aggregate_logs_survives_failed_fetches example_registry
                       (u "app.log") 1000 None (Some (u " db "))))
      as (body & Hbody & Htotal & Hentries & Hnames & _).
    + lia.
    + discriminate.
    + intros s [<- | []]. discriminate.
    + exists body. auto.
Defined.

Lemma list_server_files_instance :
  list_server_files example_registry (u "cache") =
  HTTPException 500 (ErrorFetchingFiles (u "cache") (UpstreamStatus 404))
  /\ list_server_files [mail_server] (u "mail") =
     HTTPException 500 (ErrorFetchingFiles (u "mail") (FilesError (u "refused")))
  /\ list_server_files example_registry (u "mail") =
     HTTPException 404 (ServerNotFound (u "mail"))
  /\ list_server_files example_registry (u "web") =
     Done (u "web", [{| file_filename := Some (u "app.log") |}]).
Proof.
  split; [| split; [| split]].
  - destruct (list_server_files_never_passes_the_status_on example_registry (u "cache"))
      as (_ & _ & _ & _ & Hstatus & _).
    apply (Hstatus cache_server 404 None); [reflexivity | reflexivity | discriminate].
  - destruct (list_server_files_never_passes_the_status_on [mail_server] (u "mail"))
      as (_ & _ & _ & _ & _ & Hraised).
    apply (Hraised mail_server (u "refused")); reflexivity.
  - apply (proj1 (list_server_files_never_passes_the_status_on example_registry
                    (u "mail"))).
    cbn. intros H. repeat (destruct H as [H | H]; [discriminate H |]). exact H.
  - destruct (list_server_files_never_passes_the_status_on example_registry (u "web"))
      as (_ & Hdone & _).
    apply Hdone. exists web_server, (Some [{| file_filename := Some (u "app.log") |}]).
    repeat split.
Defined.

Lemma search_logs_never_answers_404_instance :
  search_logs example_registry (u "ERROR") 5 (Some (u "mail")) =
  Replied (Done {| searched_keyword := u "ERROR"; total_matches := 0; results := [] |})
  /\ exists given,
       Some (u "mail") = Some given
       /\ forall file_asked filter,
            aggregate_logs example_registry file_asked 5 filter (Some (u "mail")) =
            HTTPException 404 (NoneOfTheServersFound given).
Proof.
  apply (proj2 (search_logs_never_answers_404 example_registry (u "ERROR") 5
                  (Some (u "mail")))).
  - lia.
  - discriminate.
  - reflexivity.
Defined.

End RefusalInstances.
